(** * Retail demand features: a shallow embedding of the feature library

    The Python sources ([time_calendar.py], [sales.py], [maco_economic.py])
    are pandas programs.  Tables are embedded as row-major frames of
    dynamically typed cells, the pandas operations the sources call are
    given their documented meaning in module [Pd], and every public
    function of the sources is then transcribed statement by statement in
    a small state-and-error monad over a store of frames, so that
    [df.copy()] and the in-place updates that follow it keep their
    aliasing behaviour.

    Floating point numbers are idealised as exact rationals; the square
    root taken by a standard deviation is kept symbolic ([Root]). *)

From Stdlib Require Import String Ascii OrderedTypeEx.
From Stdlib Require Import ZArith QArith Qround Bool Lia.
From Stdlib Require Import List Permutation Sorted.
Import ListNotations.

Local Open Scope string_scope.
Local Open Scope Z_scope.
Local Open Scope list_scope.

(** ** The civil calendar *)

Module Calendar.

(** Days are counted from 1970-01-01 (day 0); the conversions are the
    usual era-based ones for the proleptic Gregorian calendar used by
    [datetime] and by pandas timestamps. *)

Definition days_from_civil (y m d : Z) : Z :=
  let y' := if m <=? 2 then y - 1 else y in
  let era := y' / 400 in
  let yoe := y' - era * 400 in
  let mp := (m + 9) mod 12 in
  let doy := (153 * mp + 2) / 5 + d - 1 in
  let doe := yoe * 365 + yoe / 4 - yoe / 100 + doy in
  era * 146097 + doe - 719468.

Definition civil_from_days (z : Z) : Z * Z * Z :=
  let z' := z + 719468 in
  let era := z' / 146097 in
  let doe := z' - era * 146097 in
  let yoe := (doe - doe / 1460 + doe / 36524 - doe / 146096) / 365 in
  let y := yoe + era * 400 in
  let doy := doe - (365 * yoe + yoe / 4 - yoe / 100) in
  let mp := (5 * doy + 2) / 153 in
  let d := doy - (153 * mp + 2) / 5 + 1 in
  let m := if mp <? 10 then mp + 3 else mp - 9 in
  (if m <=? 2 then y + 1 else y, m, d).

Definition is_leap (y : Z) : bool :=
  ((y mod 4 =? 0) && negb (y mod 100 =? 0)) || (y mod 400 =? 0).

Definition days_in_month (y m : Z) : Z :=
  if m =? 2 then (if is_leap y then 29 else 28)
  else if (m =? 4) || (m =? 6) || (m =? 9) || (m =? 11) then 30
  else 31.

(** Monday = 0 ... Sunday = 6; 1970-01-01 was a Thursday. *)
Definition weekday_of_days (z : Z) : Z := (z + 3) mod 7.

(** [datetime.isocalendar]: the ISO-8601 week number of a day. *)
Definition isoweek1monday (year : Z) : Z :=
  let firstday := days_from_civil year 1 1 in
  let firstweekday := weekday_of_days firstday in
  let week1monday := firstday - firstweekday in
  if 3 <? firstweekday then week1monday + 7 else week1monday.

Definition iso_week_of_days (today : Z) : Z :=
  let '(year, _, _) := civil_from_days today in
  let week := (today - isoweek1monday year) / 7 in
  if week <? 0 then (today - isoweek1monday (year - 1)) / 7 + 1
  else if (52 <=? week) && (isoweek1monday (year + 1) <=? today) then 1
  else week + 1.

End Calendar.

(** ** A model of the pandas operations used by the sources *)

Module Pd.

(** *** Cells, timestamps *)

(** A timestamp is a number of nanoseconds since 1970-01-01T00:00, as in
    [datetime64[ns]]. *)
Definition Timestamp := Z.

Definition NS_PER_DAY : Z := 86400000000000.

Definition ts_days (t : Timestamp) : Z := t / NS_PER_DAY.
Definition ts_of_days (d : Z) : Timestamp := d * NS_PER_DAY.
Definition ts_of_civil (y m d : Z) : Timestamp :=
  ts_of_days (Calendar.days_from_civil y m d).

Definition ts_year (t : Timestamp) : Z :=
  fst (fst (Calendar.civil_from_days (ts_days t))).
Definition ts_month (t : Timestamp) : Z :=
  snd (fst (Calendar.civil_from_days (ts_days t))).
Definition ts_day (t : Timestamp) : Z :=
  snd (Calendar.civil_from_days (ts_days t)).
Definition ts_weekday (t : Timestamp) : Z :=
  Calendar.weekday_of_days (ts_days t).

(** [pd.Timedelta(days=n)] added to a timestamp. *)
Definition add_days (t : Timestamp) (n : Z) : Timestamp := t + n * NS_PER_DAY.

(** A cell of a frame.  [NaN] stands for every pandas missing marker
    (NaN, NaT, None, pd.NA); [Root v] is the non-negative square root of
    the rational [v]. *)
Inductive Cell : Type :=
| NaN
| Num (q : Q)
| Root (v : Q)
| Str (s : string)
| Time (t : Timestamp)
| Bool (b : bool).

Definition Int (z : Z) : Cell := Num (inject_Z z).

Definition Series := list Cell.

Definition is_nan (c : Cell) : bool :=
  match c with NaN => true | _ => false end.

(** *** Errors *)

Inductive Error : Type :=
| KeyError (c : string)
| ValueError
| TypeError
| DanglingRef.

Inductive Result (A : Type) : Type :=
| Ok (a : A)
| Err (e : Error).
Arguments Ok {A} a.
Arguments Err {A} e.

Definition rbind {A B} (m : Result A) (k : A -> Result B) : Result B :=
  match m with Ok a => k a | Err e => Err e end.

Fixpoint rmapM {A B} (f : A -> Result B) (l : list A) : Result (list B) :=
  match l with
  | [] => Ok []
  | x :: l' =>
      rbind (f x) (fun y => rbind (rmapM f l') (fun ys => Ok (y :: ys)))
  end.

(** *** Parsing of ISO dates, [pd.to_datetime] *)

Definition digit (c : ascii) : option Z :=
  let n := Z.of_nat (nat_of_ascii c) in
  if (48 <=? n) && (n <=? 57) then Some (n - 48) else None.

Fixpoint number (cs : list ascii) (acc : Z) : option Z :=
  match cs with
  | [] => Some acc
  | c :: cs' =>
      match digit c with
      | Some d => number cs' (10 * acc + d)
      | None => None
      end
  end.

(** Only the ["YYYY-MM-DD"] layout, the one the sources' tables use, is
    recognised; any other text is a parse error. *)
Definition parse_date (s : string) : option Timestamp :=
  match list_ascii_of_string s with
  | y1 :: y2 :: y3 :: y4 :: s1 :: m1 :: m2 :: s2 :: d1 :: d2 :: nil =>
      if Ascii.eqb s1 "-" && Ascii.eqb s2 "-" then
        match number [y1; y2; y3; y4] 0, number [m1; m2] 0, number [d1; d2] 0 with
        | Some y, Some m, Some d =>
            if (1 <=? m) && (m <=? 12) && (1 <=? d)
               && (d <=? Calendar.days_in_month y m)
            then Some (ts_of_civil y m d) else None
        | _, _, _ => None
        end
      else None
  | _ => None
  end.

(** [pd.to_datetime] on a scalar text. *)
Definition to_datetime_str (s : string) : Result Timestamp :=
  match parse_date s with Some t => Ok t | None => Err ValueError end.

(** [pd.to_datetime] on one cell of a column: timestamps are kept, texts
    are parsed, missing values become NaT.  Numbers (epoch offsets) and
    booleans are outside the model and rejected. *)
Definition to_datetime_cell (c : Cell) : Result Cell :=
  match c with
  | Time t => Ok (Time t)
  | Str s => rbind (to_datetime_str s) (fun t => Ok (Time t))
  | NaN => Ok NaN
  | _ => Err TypeError
  end.

Definition to_datetime (s : Series) : Result Series :=
  rmapM to_datetime_cell s.

(** *** Frames *)

Record DataFrame : Type := mkFrame {
  columns : list string;
  rows : list (list Cell)
}.

Fixpoint col_index (c : string) (cols : list string) : option nat :=
  match cols with
  | [] => None
  | c' :: cols' =>
      if String.eqb c c' then Some O
      else option_map S (col_index c cols')
  end.

Definition cell_at (j : nat) (row : list Cell) : Cell := nth j row NaN.

Fixpoint set_nth (j : nat) (v : Cell) (row : list Cell) : list Cell :=
  match j, row with
  | _, [] => []
  | O, _ :: row' => v :: row'
  | S j', c :: row' => c :: set_nth j' v row'
  end.

Fixpoint zip_with {A B C} (f : A -> B -> C) (l : list A) (l' : list B)
  : list C :=
  match l, l' with
  | x :: t, y :: t' => f x y :: zip_with f t t'
  | _, _ => []
  end.

(** [df[c]] *)
Definition get_col (d : DataFrame) (c : string) : Result Series :=
  match col_index c (columns d) with
  | Some j => Ok (map (cell_at j) (rows d))
  | None => Err (KeyError c)
  end.

(** [df[c] = vals]: an existing column is overwritten in place, a new
    one is appended on the right; the lengths must agree. *)
Definition set_col (d : DataFrame) (c : string) (vals : Series)
  : Result DataFrame :=
  if Nat.eqb (length vals) (length (rows d)) then
    match col_index c (columns d) with
    | Some j =>
        Ok (mkFrame (columns d) (zip_with (fun row v => set_nth j v row) (rows d) vals))
    | None =>
        Ok (mkFrame (columns d ++ [c])
                    (zip_with (fun row v => row ++ [v]) (rows d) vals))
    end
  else Err ValueError.

(** *** The store of frames and the monad of the embedding *)

Definition ref := nat.
Definition Heap := list DataFrame.
Definition M (A : Type) : Type := Heap -> Result (A * Heap).

Definition ret {A} (a : A) : M A := fun h => Ok (a, h).
Definition bind {A B} (m : M A) (k : A -> M B) : M B :=
  fun h => match m h with
           | Ok (a, h') => k a h'
           | Err e => Err e
           end.
Definition lift {A} (r : Result A) : M A :=
  fun h => match r with Ok a => Ok (a, h) | Err e => Err e end.

Fixpoint update {A} (n : nat) (x : A) (l : list A) : list A :=
  match n, l with
  | _, [] => []
  | O, _ :: l' => x :: l'
  | S n', y :: l' => y :: update n' x l'
  end.

Definition load (r : ref) : M DataFrame :=
  fun h => match nth_error h r with
           | Some d => Ok (d, h)
           | None => Err DanglingRef
           end.

Definition store (r : ref) (d : DataFrame) : M unit :=
  fun h => match nth_error h r with
           | Some _ => Ok (tt, update r d h)
           | None => Err DanglingRef
           end.

Definition alloc (d : DataFrame) : M ref :=
  fun h => Ok (length h, h ++ [d]).

Definition copy (r : ref) : M ref := bind (load r) alloc.

(** [df[c]] and [df[c] = vals] through a reference. *)
Definition getitem (r : ref) (c : string) : M Series :=
  bind (load r) (fun d => lift (get_col d c)).

Definition setitem (r : ref) (c : string) (vals : Series) : M unit :=
  bind (load r) (fun d => bind (lift (set_col d c vals)) (store r)).

(** [df[c] = v] with a scalar [v], broadcast over the rows. *)
Definition setitem_scalar (r : ref) (c : string) (v : Cell) : M unit :=
  bind (load r) (fun d =>
    bind (lift (set_col d c (repeat v (length (rows d))))) (store r)).

(** Running an operation on a single table: the table is put alone in a
    fresh store and the returned reference is read back. *)
Definition call (f : ref -> M ref) (d : DataFrame) : Result DataFrame :=
  match f O [d] with
  | Ok (r, h) =>
      match nth_error h r with
      | Some out => Ok out
      | None => Err DanglingRef
      end
  | Err e => Err e
  end.

Definition call2 (f : ref -> ref -> M ref) (d1 d2 : DataFrame)
  : Result DataFrame :=
  match f O (S O) [d1; d2] with
  | Ok (r, h) =>
      match nth_error h r with
      | Some out => Ok out
      | None => Err DanglingRef
      end
  | Err e => Err e
  end.

(** *** Ordering of cells and of keys *)

(** Cells of one kind are compared by value.  Between kinds the order is
    by [kind]; pandas refuses to sort a column that mixes kinds
    ([sort_values] below checks it), so that only the position of the
    missing marker, last, is observable. *)
Definition kind (c : Cell) : nat :=
  match c with
  | Bool _ => 0
  | Num _ => 1
  | Root _ => 2
  | Time _ => 3
  | Str _ => 4
  | NaN => 5
  end%nat.

Definition cell_compare (a b : Cell) : comparison :=
  match a, b with
  | NaN, NaN => Eq
  | Num x, Num y => Qcompare x y
  | Root x, Root y => Qcompare x y
  | Str x, Str y => String.compare x y
  | Time x, Time y => Z.compare x y
  | Bool x, Bool y => Nat.compare (Nat.b2n x) (Nat.b2n y)
  | _, _ => Nat.compare (kind a) (kind b)
  end.

Definition Key := list Cell.

Fixpoint key_compare (k1 k2 : Key) : comparison :=
  match k1, k2 with
  | [], [] => Eq
  | [], _ :: _ => Lt
  | _ :: _, [] => Gt
  | a :: k1', b :: k2' =>
      match cell_compare a b with
      | Eq => key_compare k1' k2'
      | c => c
      end
  end.

Definition key_leb (k1 k2 : Key) : bool :=
  match key_compare k1 k2 with Gt => false | _ => true end.

Definition key_eqb (k1 k2 : Key) : bool :=
  match key_compare k1 k2 with Eq => true | _ => false end.

Definition key_has_nan (k : Key) : bool := existsb is_nan k.

Definition row_key (idxs : list nat) (row : list Cell) : Key :=
  map (fun j => cell_at j row) idxs.

Definition col_indices (cs : list string) (cols : list string)
  : Result (list nat) :=
  rmapM (fun c => match col_index c cols with
                  | Some j => Ok j
                  | None => Err (KeyError c)
                  end) cs.

(** *** Stable sorting, [sort_values] *)

Section StableSort.
Context {A : Type} (leb : A -> A -> bool).

Fixpoint insert (x : A) (l : list A) : list A :=
  match l with
  | [] => [x]
  | y :: l' => if leb x y then x :: l else y :: insert x l'
  end.

(** Each element is put in front of the already sorted elements that
    follow it in the input and are not smaller: equal elements keep
    their input order. *)
Fixpoint stable_sort (l : list A) : list A :=
  match l with
  | [] => []
  | x :: l' => insert x (stable_sort l')
  end.
End StableSort.

Definition homogeneous (s : Series) : bool :=
  match filter (fun c => negb (is_nan c)) s with
  | [] => true
  | c :: s' => forallb (fun c' => Nat.eqb (kind c') (kind c)) s'
  end.

(** [df.sort_values(by=...)] on several columns is a lexicographic sort
    (pandas' [lexsort_indexer]), which is stable, with missing values
    last.  A stable sort for a total preorder has one possible result, so
    the algorithm chosen here does not matter. *)
Definition sort_values (d : DataFrame) (by_ : list string)
  : Result DataFrame :=
  rbind (col_indices by_ (columns d)) (fun idxs =>
    if forallb (fun j => homogeneous (map (cell_at j) (rows d))) idxs then
      Ok (mkFrame (columns d)
            (stable_sort (fun r1 r2 => key_leb (row_key idxs r1) (row_key idxs r2))
                         (rows d)))
    else Err TypeError).

Definition sort_values_inplace (r : ref) (by_ : list string) : M unit :=
  bind (load r) (fun d => bind (lift (sort_values d by_)) (store r)).

(** *** Grouping *)

(** [df.groupby(by)[c]]: the key of every row next to its value. *)
Record Grouped : Type := mkGrouped {
  gkeys : list Key;
  gvals : Series
}.

Definition groupby (d : DataFrame) (by_ : list string) (c : string)
  : Result Grouped :=
  match by_ with
  | [] => Err ValueError
  | _ =>
      rbind (col_indices by_ (columns d)) (fun idxs =>
      rbind (get_col d c) (fun vals =>
        Ok (mkGrouped (map (row_key idxs) (rows d)) vals)))
  end.

(** The values of the rows whose key is [k], in row order. *)
Fixpoint select {A} (keys : list Key) (k : Key) (vals : list A) : list A :=
  match keys, vals with
  | k' :: keys', v :: vals' =>
      if key_eqb k' k then v :: select keys' k vals' else select keys' k vals'
  | _, _ => []
  end.

(** How many rows before position [p] have the key of row [p]. *)
Definition rank_in_group (keys : list Key) (p : nat) : nat :=
  length (filter (fun k' => key_eqb k' (nth p keys [])) (firstn p keys)).

(** [.transform(f)]: [f] is applied to the values of each group and its
    result is put back at the rows of the group, in order.  Rows whose
    key has a missing component belong to no group and get NaN. *)
Definition transform (f : Series -> Result Series) (g : Grouped)
  : Result Series :=
  rmapM (fun p =>
           let k := nth p (gkeys g) [] in
           if key_has_nan k then Ok NaN
           else rbind (f (select (gkeys g) k (gvals g)))
                      (fun res => Ok (nth (rank_in_group (gkeys g) p) res NaN)))
        (seq 0 (length (gkeys g))).

(** [Series.shift(n)] *)
Definition shift (n : nat) (s : Series) : Series :=
  firstn (length s) (repeat NaN n ++ s).

(** [.groupby(...)[c].shift(n)] *)
Definition groupby_shift (n : nat) (g : Grouped) : Result Series :=
  transform (fun s => Ok (shift n s)) g.

(** *** Rolling windows *)

(** Numeric view of a cell: [None] for a missing value. *)
Definition to_float (c : Cell) : Result (option Q) :=
  match c with
  | Num q => Ok (Some q)
  | Bool b => Ok (Some (if b then 1%Q else 0%Q))
  | NaN => Ok None
  | _ => Err TypeError
  end.

(** The trailing window of at most [N] rows that ends at row [i]. *)
Definition window {A} (N i : nat) (l : list A) : list A :=
  skipn (i + 1 - N) (firstn (i + 1) l).

Fixpoint observed (w : list (option Q)) : list Q :=
  match w with
  | [] => []
  | Some q :: w' => q :: observed w'
  | None :: w' => observed w'
  end.

Definition Qsum (l : list Q) : Q := fold_right Qplus 0%Q l.

Definition Qlen (l : list Q) : Q := inject_Z (Z.of_nat (length l)).

Definition mean (l : list Q) : Q := (Qsum l / Qlen l)%Q.

(** Sample variance, [ddof = 1]. *)
Definition sample_var (l : list Q) : Q :=
  (Qsum (map (fun x => (x - mean l) * (x - mean l)) l) / (Qlen l - 1))%Q.

Definition window_mean (min_periods : nat) (w : list (option Q)) : Cell :=
  let obs := observed w in
  if (Nat.leb min_periods (length obs)) && (Nat.ltb 0 (length obs))
  then Num (Qred (mean obs)) else NaN.

Definition window_std (min_periods : nat) (w : list (option Q)) : Cell :=
  let obs := observed w in
  if (Nat.leb min_periods (length obs)) && (Nat.ltb 1 (length obs))
  then Root (Qred (sample_var obs)) else NaN.

Definition rolling (agg : list (option Q) -> Cell) (N : nat) (s : Series)
  : Result Series :=
  rbind (rmapM to_float s) (fun xs =>
    Ok (map (fun i => agg (window N i xs)) (seq 0 (length xs)))).

(** [x.rolling(window=N, min_periods=m).mean()] and [.std()] *)
Definition rolling_mean (N min_periods : nat) : Series -> Result Series :=
  rolling (window_mean min_periods) N.

Definition rolling_std (N min_periods : nat) : Series -> Result Series :=
  rolling (window_std min_periods) N.

(** *** Aggregation, [.groupby(by)[c].sum().reset_index()] *)

Fixpoint distinct (keys : list Key) : list Key :=
  match keys with
  | [] => []
  | k :: keys' =>
      k :: filter (fun k' => negb (key_eqb k' k)) (distinct keys')
  end.

(** One row per group: the key columns, then the sum of the non-missing
    values of the group.  Groups come out in key order; rows with a
    missing key component are left out. *)
Definition groupby_sum (d : DataFrame) (by_ : list string) (c : string)
  : Result DataFrame :=
  rbind (groupby d by_ c) (fun g =>
  rbind (rmapM to_float (gvals g)) (fun xs =>
    let ks := stable_sort key_leb
                (distinct (filter (fun k => negb (key_has_nan k)) (gkeys g))) in
    Ok (mkFrame (by_ ++ [c])
          (map (fun k => k ++ [Num (Qred (Qsum (observed (select (gkeys g) k xs))))])
               ks)))).

(** *** Columns: selection, removal, renaming *)

Definition mem (c : string) (cs : list string) : bool :=
  existsb (String.eqb c) cs.

(** [df[[c1; ...; cn]]] *)
Definition select_columns (d : DataFrame) (cs : list string)
  : Result DataFrame :=
  rbind (col_indices cs (columns d)) (fun idxs =>
    Ok (mkFrame cs (map (row_key idxs) (rows d)))).

Fixpoint prune (names cols : list string) (row : list Cell) : list Cell :=
  match cols, row with
  | c :: cols', v :: row' =>
      if mem c names then prune names cols' row'
      else v :: prune names cols' row'
  | _, _ => []
  end.

Definition remove_columns (d : DataFrame) (names : list string) : DataFrame :=
  mkFrame (filter (fun c => negb (mem c names)) (columns d))
          (map (prune names (columns d)) (rows d)).

(** [df.drop(columns=names, errors=...)]: with [errors='raise'] a name
    that is not a column is a [KeyError]. *)
Definition drop (d : DataFrame) (names : list string) (ignore_errors : bool)
  : Result DataFrame :=
  match filter (fun c => negb (mem c (columns d))) names with
  | c :: _ => if ignore_errors then Ok (remove_columns d names)
              else Err (KeyError c)
  | [] => Ok (remove_columns d names)
  end.

Definition drop_inplace (r : ref) (names : list string) (ignore_errors : bool)
  : M unit :=
  bind (load r) (fun d => bind (lift (drop d names ignore_errors)) (store r)).

(** [df.rename(columns={old: new})] *)
Definition rename (d : DataFrame) (old new : string) : DataFrame :=
  mkFrame (map (fun c => if String.eqb c old then new else c) (columns d))
          (rows d).

Definition rename_inplace (r : ref) (old new : string) : M unit :=
  bind (load r) (fun d => store r (rename d old new)).

(** *** [pd.concat([a, b], axis=0)] *)

Definition reindex_row (new_cols cols : list string) (row : list Cell)
  : list Cell :=
  map (fun c => match col_index c cols with
                | Some j => cell_at j row
                | None => NaN
                end) new_cols.

Definition concat (a b : DataFrame) : DataFrame :=
  let cols := columns a
              ++ filter (fun c => negb (mem c (columns a))) (columns b) in
  mkFrame cols (map (reindex_row cols (columns a)) (rows a)
                ++ map (reindex_row cols (columns b)) (rows b)).

(** *** [merge(..., how='left', left_on=..., right_on=...)] *)

Fixpoint shared_keys (left_on right_on : list string) : list string :=
  match left_on, right_on with
  | l :: left_on', r :: right_on' =>
      if String.eqb l r then l :: shared_keys left_on' right_on'
      else shared_keys left_on' right_on'
  | _, _ => []
  end.

Definition add_suffix (sfx : string) (others names : list string)
  : list string :=
  map (fun c => if mem c others then String.append c sfx else c) names.

(** Every left row is kept, in order, once for each right row with an
    equal key, or once with missing right cells when there is none.  A
    key named alike on both sides appears once (the right copy is left
    out, or the left one when the left table has no row); other names
    present on both sides get the suffixes [_x] and [_y]. *)
Definition merge_left (L R : DataFrame) (left_on right_on : list string)
  : Result DataFrame :=
  if negb (Nat.eqb (length left_on) (length right_on)) then Err ValueError
  else
  rbind (col_indices left_on (columns L)) (fun lidx =>
  rbind (col_indices right_on (columns R)) (fun ridx =>
    let shared := shared_keys left_on right_on in
    let ldrop := match rows L with [] => shared | _ => [] end in
    let rdrop := match rows L with [] => [] | _ => shared end in
    let lcols := columns (remove_columns L ldrop) in
    let rcols := columns (remove_columns R rdrop) in
    Ok (mkFrame
          (add_suffix "_x" rcols lcols ++ add_suffix "_y" lcols rcols)
          (flat_map
             (fun l =>
                let l' := prune ldrop (columns L) l in
                match filter (fun m => key_eqb (row_key ridx m) (row_key lidx l))
                             (rows R) with
                | [] => [l' ++ repeat NaN (length rcols)]
                | ms => map (fun m => l' ++ prune rdrop (columns R) m) ms
                end)
             (rows L))))).

(** *** Filling and masks *)

Fixpoint ffill_from (last : Cell) (s : Series) : Series :=
  match s with
  | [] => []
  | c :: s' =>
      if is_nan c then last :: ffill_from last s'
      else c :: ffill_from c s'
  end.

(** [s.fillna(method='ffill')] *)
Definition ffill (s : Series) : Series := ffill_from NaN s.

(** [s >= t] and [s <= t] for a column of timestamps and a timestamp:
    NaT compares false, a cell that is not a date is a [TypeError]. *)
Definition cmp_ts (test : Timestamp -> bool) (s : Series) : Result Series :=
  rmapM (fun c => match c with
                  | Time x => Ok (Bool (test x))
                  | NaN => Ok (Bool false)
                  | _ => Err TypeError
                  end) s.

Definition ge_ts (s : Series) (t : Timestamp) : Result Series :=
  cmp_ts (fun x => t <=? x) s.

Definition le_ts (s : Series) (t : Timestamp) : Result Series :=
  cmp_ts (fun x => x <=? t) s.

Definition truthy (c : Cell) : bool :=
  match c with Bool true => true | _ => false end.

(** [m1 & m2] *)
Definition mask_and (m1 m2 : Series) : Series :=
  zip_with (fun a b => Bool (truthy a && truthy b)) m1 m2.

(** [df.loc[mask]] *)
Fixpoint loc_rows {A} (mask : Series) (l : list A) : list A :=
  match mask, l with
  | m :: mask', x :: l' =>
      if truthy m then x :: loc_rows mask' l' else loc_rows mask' l'
  | _, _ => []
  end.

Definition loc (d : DataFrame) (mask : Series) : DataFrame :=
  mkFrame (columns d) (loc_rows mask (rows d)).

(** [df.loc[mask, c] = v] *)
Definition loc_set (r : ref) (mask : Series) (c : string) (v : Cell)
  : M unit :=
  bind (getitem r c) (fun old =>
    setitem r c (zip_with (fun m o => if truthy m then v else o) mask old)).

(** *** The [.dt] accessor and scalar dates *)

(** A date as Python code sees it: a timestamp or NaT.  The fields of
    NaT are nan, and every comparison with nan but [!=] is false. *)
Definition date_of (c : Cell) : option Timestamp :=
  match c with Time t => Some t | _ => None end.

Definition eqz (a : option Z) (b : Z) : bool :=
  match a with Some x => x =? b | None => false end.
Definition nez (a : option Z) (b : Z) : bool := negb (eqz a b).
Definition lez (a : Z) (b : option Z) : bool :=
  match b with Some x => a <=? x | None => false end.
Definition zle (a : option Z) (b : Z) : bool :=
  match a with Some x => x <=? b | None => false end.
Definition inz (a : option Z) (l : list Z) : bool :=
  existsb (eqz a) l.

Definition of_field (a : option Z) : Cell :=
  match a with Some x => Int x | None => NaN end.

(** [s.astype(int)]: a missing value cannot be converted. *)
Definition astype_int (s : Series) : Result Series :=
  rmapM (fun c => if is_nan c then Err ValueError else Ok c) s.

Definition day_names : list string :=
  ["Monday"; "Tuesday"; "Wednesday"; "Thursday"; "Friday"; "Saturday"; "Sunday"].

Definition day_name (c : Cell) : Cell :=
  match date_of c with
  | Some t => Str (nth (Z.to_nat (ts_weekday t)) day_names "")
  | None => NaN
  end.

Definition is_month_end (c : Cell) : Cell :=
  match date_of c with
  | Some t => Bool (ts_day t =? Calendar.days_in_month (ts_year t) (ts_month t))
  | None => Bool false
  end.

Definition iso_week (c : Cell) : Cell :=
  of_field (option_map (fun t => Calendar.iso_week_of_days (ts_days t)) (date_of c)).

(** [.dt.to_period('M')]: the month of a date, written as the number of
    months since January 1970 (the ordinal of the monthly period); the
    period of a missing date is missing. *)
Definition to_period_month (c : Cell) : Cell :=
  of_field (option_map (fun t => (ts_year t - 1970) * 12 + (ts_month t - 1))
                       (date_of c)).

(** *** Arithmetic on columns of numbers *)




(** *** Notation for sequencing *)

Fixpoint for_each {A} (l : list A) (body : A -> M unit) : M unit :=
  match l with
  | [] => ret tt
  | x :: l' => bind (body x) (fun _ => for_each l' body)
  end.

Fixpoint fold_m {A S} (l : list A) (acc : S) (body : S -> A -> M S) : M S :=
  match l with
  | [] => ret acc
  | x :: l' => bind (body acc x) (fun acc' => fold_m l' acc' body)
  end.

Declare Scope pd_scope.
Delimit Scope pd_scope with pd.
Notation "x <- e ;; k" := (bind e (fun x => k))
  (at level 61, e at next level, right associativity) : pd_scope.
Notation "e ;; k" := (bind e (fun _ => k))
  (at level 61, right associativity) : pd_scope.

(** [df[c] = pd.to_datetime(df[c])] *)
Definition convert_dates (df : ref) (c : string) : M unit :=
  (s <- getitem df c ;;
   s' <- lift (to_datetime s) ;;
   setitem df c s')%pd.

End Pd.

Import Pd.
Local Open Scope pd_scope.

(** ** time_calendar.py *)

Module TimeCalendar.

Definition add_day_of_week_feature (df : ref) (date_col new_col : string)
  : M ref :=
  df <- copy df ;;
  convert_dates df date_col ;;
  dates <- getitem df date_col ;;
  setitem df new_col (map day_name dates) ;;
  ret df.

Definition add_week_of_year_feature (df : ref) (date_col new_col : string)
  : M ref :=
  df <- copy df ;;
  convert_dates df date_col ;;
  dates <- getitem df date_col ;;
  weeks <- lift (astype_int (map iso_week dates)) ;;
  setitem df new_col weeks ;;
  ret df.

Definition add_month_feature (df : ref) (date_col new_col : string)
  : M ref :=
  df <- copy df ;;
  convert_dates df date_col ;;
  dates <- getitem df date_col ;;
  months <- lift (astype_int
              (map (fun c => of_field (option_map ts_month (date_of c))) dates)) ;;
  setitem df new_col months ;;
  ret df.

Definition add_is_weekend_feature (df : ref) (date_col new_col : string)
  : M ref :=
  df <- copy df ;;
  convert_dates df date_col ;;
  dates <- getitem df date_col ;;
  setitem df new_col
    (map (fun c => Bool (inz (option_map ts_weekday (date_of c)) [4; 5])) dates) ;;
  ret df.

Definition add_is_start_of_month_feature (df : ref) (date_col new_col : string)
  : M ref :=
  df <- copy df ;;
  convert_dates df date_col ;;
  dates <- getitem df date_col ;;
  setitem df new_col
    (map (fun c => Bool (eqz (option_map ts_day (date_of c)) 1)) dates) ;;
  ret df.

Definition add_is_end_of_month_feature (df : ref) (date_col new_col : string)
  : M ref :=
  df <- copy df ;;
  convert_dates df date_col ;;
  dates <- getitem df date_col ;;
  setitem df new_col (map is_month_end dates) ;;
  ret df.

(** The loop shared by the four moving-holiday features:
    [for start, end in ranges: mask = ...; df.loc[mask, new_col] = True]. *)
Definition mark_ranges (df : ref) (date_col new_col : string)
    (ranges : list (string * string)) : M unit :=
  for_each ranges (fun '(start, end_) =>
    dates <- getitem df date_col ;;
    lo <- lift (to_datetime_str start) ;;
    after <- lift (ge_ts dates lo) ;;
    dates' <- getitem df date_col ;;
    hi <- lift (to_datetime_str end_) ;;
    before <- lift (le_ts dates' hi) ;;
    loc_set df (mask_and after before) new_col (Bool true)).

Definition ramadan_ranges : list (string * string) :=
  [ ("2020-04-24", "2020-05-23");
    ("2021-04-13", "2021-05-12");
    ("2022-04-02", "2022-05-01");
    ("2023-03-23", "2023-04-21");
    ("2024-03-10", "2024-04-09");
    ("2025-02-28", "2025-03-29");
    ("2026-02-17", "2026-03-18");
    ("2027-02-07", "2027-03-08");
    ("2028-01-27", "2028-02-25");
    ("2029-01-15", "2029-02-13");
    ("2030-01-05", "2030-02-03");
    ("2030-12-26", "2031-01-24");
    ("2031-12-15", "2032-01-13");
    ("2032-12-03", "2033-01-01");
    ("2033-11-23", "2033-12-22");
    ("2034-11-11", "2034-12-10");
    ("2035-11-01", "2035-11-30") ].

Definition add_is_ramadan_feature (df : ref) (date_col new_col : string)
  : M ref :=
  df <- copy df ;;
  convert_dates df date_col ;;
  setitem_scalar df new_col (Bool false) ;;
  mark_ranges df date_col new_col ramadan_ranges ;;
  ret df.

Definition eid_fitr_ranges : list (string * string) :=
  [ ("2020-05-24", "2020-05-26");
    ("2021-05-13", "2021-05-15");
    ("2022-05-02", "2022-05-04");
    ("2023-04-21", "2023-04-23");
    ("2024-04-10", "2024-04-12");
    ("2025-03-30", "2025-04-01");
    ("2026-03-19", "2026-03-21");
    ("2027-03-09", "2027-03-11");
    ("2028-02-26", "2028-02-28");
    ("2029-02-14", "2029-02-16");
    ("2030-02-04", "2030-02-06");
    ("2031-01-25", "2031-01-27");
    ("2032-01-14", "2032-01-16");
    ("2033-01-02", "2033-01-04");
    ("2033-12-23", "2033-12-25");
    ("2034-12-11", "2034-12-13");
    ("2035-12-01", "2035-12-03") ].

Definition add_is_eid_fitr_feature (df : ref) (date_col new_col : string)
  : M ref :=
  df <- copy df ;;
  convert_dates df date_col ;;
  setitem_scalar df new_col (Bool false) ;;
  mark_ranges df date_col new_col eid_fitr_ranges ;;
  ret df.

Definition eid_adha_ranges : list (string * string) :=
  [ ("2020-07-31", "2020-08-03");
    ("2021-07-20", "2021-07-23");
    ("2022-07-09", "2022-07-12");
    ("2023-06-28", "2023-07-01");
    ("2024-06-16", "2024-06-19");
    ("2025-06-06", "2025-06-09");
    ("2026-05-27", "2026-05-30");
    ("2027-05-17", "2027-05-20");
    ("2028-05-05", "2028-05-08");
    ("2029-04-24", "2029-04-27");
    ("2030-04-14", "2030-04-17");
    ("2031-04-04", "2031-04-07");
    ("2032-03-23", "2032-03-26");
    ("2033-03-12", "2033-03-15");
    ("2034-03-01", "2034-03-04");
    ("2035-02-18", "2035-02-21") ].

Definition add_is_eid_adha_feature (df : ref) (date_col new_col : string)
  : M ref :=
  df <- copy df ;;
  convert_dates df date_col ;;
  setitem_scalar df new_col (Bool false) ;;
  mark_ranges df date_col new_col eid_adha_ranges ;;
  ret df.

Definition lent_periods : list (string * string) :=
  [ ("2020-02-24", "2020-04-18");
    ("2021-03-08", "2021-05-01");
    ("2022-02-28", "2022-04-23");
    ("2023-03-06", "2023-04-15");
    ("2024-03-18", "2024-05-11");
    ("2025-03-03", "2025-04-26");
    ("2026-02-16", "2026-04-11");
    ("2027-03-08", "2027-05-01");
    ("2028-02-21", "2028-04-15");
    ("2029-03-05", "2029-04-28");
    ("2030-02-18", "2030-04-13");
    ("2031-03-10", "2031-05-03");
    ("2032-02-23", "2032-04-17");
    ("2033-03-07", "2033-04-30");
    ("2034-02-20", "2034-04-15");
    ("2035-03-05", "2035-04-28") ].

Definition add_is_great_lent_feature (df : ref) (date_col new_col : string)
  : M ref :=
  df <- copy df ;;
  convert_dates df date_col ;;
  setitem_scalar df new_col (Bool false) ;;
  mark_ranges df date_col new_col lent_periods ;;
  ret df.

Definition fixed_holidays : list (Z * Z) :=
  [ (1, 7); (1, 25); (4, 25); (5, 1); (6, 30); (7, 23); (10, 6) ].

Definition is_national_holiday (df : ref) (date_col new_col : string)
  : M ref :=
  df <- copy df ;;
  convert_dates df date_col ;;
  dates <- getitem df date_col ;;
  setitem df new_col
    (map (fun c =>
            let x := date_of c in
            Bool (existsb (fun '(m, d) => eqz (option_map ts_month x) m
                                          && eqz (option_map ts_day x) d)
                          fixed_holidays)) dates) ;;
  ret df.

Definition get_season (month : option Z) : string :=
  if inz month [12; 1; 2] then "winter"
  else if inz month [3; 4; 5] then "spring"
  else if inz month [6; 7; 8] then "summer"
  else "autumn".

Definition add_season_feature (df : ref) (date_col new_col : string)
  : M ref :=
  df <- copy df ;;
  convert_dates df date_col ;;
  dates <- getitem df date_col ;;
  setitem df new_col
    (map (fun c => Str (get_season (option_map ts_month (date_of c)))) dates) ;;
  ret df.

Definition get_retail_event (date : option Timestamp) : string :=
  let month := option_map ts_month date in
  let day := option_map ts_day date in
  let weekday := option_map ts_weekday date in
  if eqz month 12 then "christmas_dec"
  else if eqz month 1 && eqz day 7 then "coptic_christmas"
  else if eqz month 2 && eqz day 14 then "valentines"
  else if eqz month 3 && eqz day 21 then "mothers_day"
  else
    let back_to_school_or_none :=
      if eqz month 8 && (lez 15 day && zle day 31) then "back_to_school"
      else "none" in
    if eqz month 11 && eqz weekday 4 then
      let next_week := option_map (fun t => add_days t 7) date in
      if nez (option_map ts_month next_week) 11 then "black_friday"
      else back_to_school_or_none
    else back_to_school_or_none.

Definition add_retail_event_feature (df : ref) (date_col new_col : string)
  : M ref :=
  df <- copy df ;;
  convert_dates df date_col ;;
  dates <- getitem df date_col ;;
  setitem df new_col (map (fun c => Str (get_retail_event (date_of c))) dates) ;;
  ret df.

End TimeCalendar.

(** ** sales.py *)

Module Sales.

(** The body shared by the grouped transforms:
    [df[new_col] = df.groupby(group_cols)[value_col].transform(f)]. *)
Definition set_grouped (df : ref) (group_cols : list string)
    (value_col new_col : string) (f : Grouped -> Result Series) : M unit :=
  d <- load df ;;
  g <- lift (groupby d group_cols value_col) ;;
  s <- lift (f g) ;;
  setitem df new_col s.

Definition add_rolling_avg_sales_7d (df : ref) (date_col : string)
    (group_cols : list string) (value_col new_col : string) : M ref :=
  df <- copy df ;;
  convert_dates df date_col ;;
  sort_values_inplace df (group_cols ++ [date_col]) ;;
  set_grouped df group_cols value_col new_col (transform (rolling_mean 7 1)) ;;
  ret df.

Definition add_rolling_avg_sales_15d (df : ref) (date_col : string)
    (group_cols : list string) (value_col new_col : string) : M ref :=
  df <- copy df ;;
  convert_dates df date_col ;;
  sort_values_inplace df (group_cols ++ [date_col]) ;;
  set_grouped df group_cols value_col new_col (transform (rolling_mean 15 1)) ;;
  ret df.

Definition add_rolling_avg_sales_30d (df : ref) (date_col : string)
    (group_cols : list string) (value_col new_col : string) : M ref :=
  df <- copy df ;;
  convert_dates df date_col ;;
  sort_values_inplace df (group_cols ++ [date_col]) ;;
  set_grouped df group_cols value_col new_col (transform (rolling_mean 30 1)) ;;
  ret df.

Definition add_sales_lag_1d (df : ref) (date_col : string)
    (group_cols : list string) (value_col new_col : string) : M ref :=
  df <- copy df ;;
  convert_dates df date_col ;;
  sort_values_inplace df (group_cols ++ [date_col]) ;;
  set_grouped df group_cols value_col new_col (groupby_shift 1) ;;
  ret df.

Definition add_sales_lag_7d (df : ref) (date_col : string)
    (group_cols : list string) (value_col new_col : string) : M ref :=
  df <- copy df ;;
  convert_dates df date_col ;;
  sort_values_inplace df (group_cols ++ [date_col]) ;;
  set_grouped df group_cols value_col new_col (groupby_shift 7) ;;
  ret df.

Definition add_std_dev_sales_15d (df : ref) (date_col : string)
    (group_cols : list string) (value_col new_col : string) : M ref :=
  df <- copy df ;;
  convert_dates df date_col ;;
  sort_values_inplace df (group_cols ++ [date_col]) ;;
  set_grouped df group_cols value_col new_col (transform (rolling_std 15 1)) ;;
  ret df.

Definition add_last_year_same_period_sales (df : ref) (date_col : string)
    (group_cols : list string) (value_col new_col : string) : M ref :=
  df <- copy df ;;
  convert_dates df date_col ;;
  sort_values_inplace df (group_cols ++ [date_col]) ;;
  set_grouped df group_cols value_col new_col (groupby_shift 365) ;;
  ret df.

(** The table used when [ramadan_ranges] is not given. *)
Definition default_ramadan_ranges : list (string * string) :=
  [ ("2024-03-10", "2024-04-08");
    ("2025-02-28", "2025-03-30");
    ("2026-02-18", "2026-03-19");
    ("2027-02-07", "2027-03-08");
    ("2028-01-27", "2028-02-25");
    ("2029-01-15", "2029-02-13");
    ("2030-01-05", "2030-02-03");
    ("2031-12-26", "2032-01-24");
    ("2032-12-14", "2033-01-12");
    ("2033-12-04", "2034-01-02");
    ("2034-11-23", "2034-12-22");
    ("2035-11-12", "2035-12-11") ].

Definition add_total_sales_last_ramadan (df : ref) (date_col : string)
    (group_cols : list string) (value_col new_col : string)
    (ramadan_ranges : option (list (string * string))) : M ref :=
  df <- copy df ;;
  convert_dates df date_col ;;
  let ramadan_ranges :=
    match ramadan_ranges with
    | None => default_ramadan_ranges
    | Some ranges => ranges
    end in
  ramadan_df <-
    fold_m ramadan_ranges (mkFrame [] []) (fun ramadan_df '(start, end_) =>
      dates <- getitem df date_col ;;
      lo <- lift (to_datetime_str start) ;;
      after <- lift (ge_ts dates lo) ;;
      dates' <- getitem df date_col ;;
      hi <- lift (to_datetime_str end_) ;;
      before <- lift (le_ts dates' hi) ;;
      d <- load df ;;
      let period_df := loc d (mask_and after before) in
      year <- lift (to_datetime_str start) ;;
      period_df <- lift (set_col period_df "ramadan_year"
                           (repeat (Int (ts_year year)) (length (rows period_df)))) ;;
      ret (concat ramadan_df period_df)) ;;
  ramadan_sum <- lift (groupby_sum ramadan_df (group_cols ++ ["ramadan_year"])
                                   value_col) ;;
  let ramadan_sum := rename ramadan_sum value_col new_col in
  dates <- getitem df date_col ;;
  setitem df "year"
    (map (fun c => of_field (option_map ts_year (date_of c))) dates) ;;
  d <- load df ;;
  merged <- lift (merge_left d ramadan_sum (group_cols ++ ["year"])
                             (group_cols ++ ["ramadan_year"])) ;;
  df <- alloc merged ;;
  drop_inplace df ["year"; "ramadan_year"] true ;;
  ret df.

End Sales.

(** ** maco_economic.py *)

Module MacoEconomic.

Definition add_fx_rate (df fx_df : ref)
    (date_col fx_date_col fx_col new_col : string) : M ref :=
  df <- copy df ;;
  convert_dates df date_col ;;
  fx_df <- copy fx_df ;;
  convert_dates fx_df fx_date_col ;;
  left <- load df ;;
  fx <- load fx_df ;;
  right <- lift (select_columns fx [fx_date_col; fx_col]) ;;
  m <- lift (merge_left left right [date_col] [fx_date_col]) ;;
  merged <- alloc m ;;
  rename_inplace merged fx_col new_col ;;
  drop_inplace merged [fx_date_col] false ;;
  rates <- getitem merged new_col ;;
  setitem merged new_col (ffill rates) ;;
  ret merged.


End MacoEconomic.

(** ** stocks.py *)

Module Stocks.





End Stocks.

(** ** Vocabulary of the specification *)

Import TimeCalendar Sales MacoEconomic.

(** Every row has one cell per column. *)
Definition rect (d : DataFrame) : Prop :=
  Forall (fun row => length row = length (columns d)) (rows d).

Definition rectb (d : DataFrame) : bool :=
  forallb (fun row => Nat.eqb (length row) (length (columns d))) (rows d).

(** An operation that copies its argument, works on the copy alone and
    returns it: [F] is the work done on the copy. *)
Definition on_copy (F : DataFrame -> Result DataFrame) (r : ref) : M ref :=
  fun h =>
    match nth_error h r with
    | Some d =>
        match F d with
        | Ok d' => Ok (length h, h ++ [d'])
        | Err e => Err e
        end
    | None => Err DanglingRef
    end.

(** The statements of the sources as functions of the frame they update. *)
Definition convert_dates_f (c : string) (d : DataFrame) : Result DataFrame :=
  rbind (get_col d c) (fun s =>
  rbind (to_datetime s) (fun s' => set_col d c s')).

(** [df[new_col] = feature(df[date_col])] after the conversion of the
    dates: the shape of the stateless calendar features. *)
Definition calendar_f (feature : Series -> Result Series)
    (date_col new_col : string) (d : DataFrame) : Result DataFrame :=
  rbind (convert_dates_f date_col d) (fun d1 =>
  rbind (get_col d1 date_col) (fun dates =>
  rbind (feature dates) (fun s => set_col d1 new_col s))).

Definition mark_range_f (date_col new_col : string) (range : string * string)
    (d : DataFrame) : Result DataFrame :=
  let '(start, end_) := range in
  rbind (get_col d date_col) (fun dates =>
  rbind (to_datetime_str start) (fun lo =>
  rbind (ge_ts dates lo) (fun after =>
  rbind (to_datetime_str end_) (fun hi =>
  rbind (le_ts dates hi) (fun before =>
  rbind (get_col d new_col) (fun old =>
    set_col d new_col
      (zip_with (fun m o => if truthy m then Bool true else o)
                (mask_and after before) old))))))).

Fixpoint mark_ranges_f (date_col new_col : string)
    (ranges : list (string * string)) (d : DataFrame) : Result DataFrame :=
  match ranges with
  | [] => Ok d
  | range :: ranges' =>
      rbind (mark_range_f date_col new_col range d)
            (mark_ranges_f date_col new_col ranges')
  end.

Definition range_feature_f (ranges : list (string * string))
    (date_col new_col : string) (d : DataFrame) : Result DataFrame :=
  rbind (convert_dates_f date_col d) (fun d1 =>
  rbind (set_col d1 new_col (repeat (Bool false) (length (rows d1)))) (fun d2 =>
    mark_ranges_f date_col new_col ranges d2)).

(** *** Interval tables *)

(** A table of closed ranges of timestamps. *)
Definition IntervalTable := list (Timestamp * Timestamp).

Definition parse_ranges (ranges : list (string * string))
  : Result IntervalTable :=
  rmapM (fun '(start, end_) =>
           rbind (to_datetime_str start) (fun lo =>
           rbind (to_datetime_str end_) (fun hi => Ok (lo, hi)))) ranges.

(** [contains]: the instant [t] lies in some range, bounds included. *)
Definition contains (table : IntervalTable) (t : Timestamp) : bool :=
  existsb (fun '(lo, hi) => (lo <=? t) && (t <=? hi)) table.

(** The same test on calendar days, any time of day being dropped. *)
Definition contains_date (table : IntervalTable) (t : Timestamp) : bool :=
  existsb (fun '(lo, hi) => (ts_days lo <=? ts_days t) && (ts_days t <=? ts_days hi))
          table.

(** The value of a holiday feature for one cell of the date column. *)
Definition holiday_cell (table : IntervalTable) (c : Cell) : Cell :=
  match date_of c with
  | Some t => Bool (contains table t)
  | None => Bool false
  end.

(** *** Retail events as a priority list *)

Definition is_last_friday_of_november (t : Timestamp) : bool :=
  (ts_month t =? 11) && (ts_weekday t =? 4)
  && negb (ts_month (add_days t 7) =? 11).

Definition retail_rules : list ((Timestamp -> bool) * string) :=
  [ (fun t => ts_month t =? 12, "christmas_dec");
    (fun t => (ts_month t =? 1) && (ts_day t =? 7), "coptic_christmas");
    (fun t => (ts_month t =? 2) && (ts_day t =? 14), "valentines");
    (fun t => (ts_month t =? 3) && (ts_day t =? 21), "mothers_day");
    (is_last_friday_of_november, "black_friday");
    (fun t => (ts_month t =? 8) && (15 <=? ts_day t) && (ts_day t <=? 31),
     "back_to_school") ].

(** The label of the first rule that matches, [none] when none does. *)
Definition first_match (rules : list ((Timestamp -> bool) * string))
    (t : Timestamp) : string :=
  match find (fun rule => fst rule t) rules with
  | Some rule => snd rule
  | None => "none"
  end.

(** The four moving-holiday features and their tables. *)
Inductive Holiday : Type := Ramadan | EidFitr | EidAdha | GreatLent.

Definition holiday_ranges (hol : Holiday) : list (string * string) :=
  match hol with
  | Ramadan => ramadan_ranges
  | EidFitr => eid_fitr_ranges
  | EidAdha => eid_adha_ranges
  | GreatLent => lent_periods
  end.

Definition holiday_feature (hol : Holiday) : ref -> string -> string -> M ref :=
  match hol with
  | Ramadan => add_is_ramadan_feature
  | EidFitr => add_is_eid_fitr_feature
  | EidAdha => add_is_eid_adha_feature
  | GreatLent => add_is_great_lent_feature
  end.

Definition table_of (ranges : list (string * string)) : IntervalTable :=
  match parse_ranges ranges with Ok table => table | Err _ => [] end.

Definition holiday_table (hol : Holiday) : IntervalTable :=
  table_of (holiday_ranges hol).

(** A converted date column holds timestamps and NaT only. *)
Definition is_date (c : Cell) : Prop :=
  match c with Time _ | NaN => True | _ => False end.



(** *** Orders given by a three-way comparison *)

Class CompareLaws {A : Type} (cmp : A -> A -> comparison) : Prop := {
  cmp_refl : forall x, cmp x x = Eq;
  cmp_antisym : forall x y, cmp y x = CompOpp (cmp x y);
  cmp_trans : forall x y z, cmp x y = Lt -> cmp y z = Lt -> cmp x z = Lt;
  cmp_eq_l : forall x y z, cmp x y = Eq -> cmp x z = cmp y z
}.

Definition leb_of {A} (cmp : A -> A -> comparison) (x y : A) : bool :=
  match cmp x y with Gt => false | _ => true end.

Definition eqb_of {A} (cmp : A -> A -> comparison) (x y : A) : bool :=
  match cmp x y with Eq => true | _ => false end.

(** *** The grouped engine *)

(** The statements shared by the grouped transforms of [sales.py], as a
    function of the copied frame. *)
Definition grouped_f (agg : Grouped -> Result Series)
    (date_col : string) (group_cols : list string)
    (value_col new_col : string) (d : DataFrame) : Result DataFrame :=
  rbind (convert_dates_f date_col d) (fun d1 =>
  rbind (sort_values d1 (group_cols ++ [date_col])) (fun d2 =>
  rbind (groupby d2 group_cols value_col) (fun g =>
  rbind (agg g) (fun s => set_col d2 new_col s)))).

Inductive GroupedOp : Type :=
| RollingAvg7 | RollingAvg15 | RollingAvg30
| Lag1 | Lag7 | Lag365
| StdDev15.

Definition grouped_op (op : GroupedOp)
  : ref -> string -> list string -> string -> string -> M ref :=
  match op with
  | RollingAvg7 => add_rolling_avg_sales_7d
  | RollingAvg15 => add_rolling_avg_sales_15d
  | RollingAvg30 => add_rolling_avg_sales_30d
  | Lag1 => add_sales_lag_1d
  | Lag7 => add_sales_lag_7d
  | Lag365 => add_last_year_same_period_sales
  | StdDev15 => add_std_dev_sales_15d
  end.

Definition grouped_agg (op : GroupedOp) : Grouped -> Result Series :=
  match op with
  | RollingAvg7 => transform (rolling_mean 7 1)
  | RollingAvg15 => transform (rolling_mean 15 1)
  | RollingAvg30 => transform (rolling_mean 30 1)
  | Lag1 => groupby_shift 1
  | Lag7 => groupby_shift 7
  | Lag365 => groupby_shift 365
  | StdDev15 => transform (rolling_std 15 1)
  end.

(** The cell of a row in the column named [c], the key of a row, and the
    rows of the group with key [k], in the order of the frame. *)
Definition cell (d : DataFrame) (c : string) (row : list Cell) : Cell :=
  match col_index c (columns d) with
  | Some j => cell_at j row
  | None => NaN
  end.

Definition key_of (d : DataFrame) (cs : list string) (row : list Cell) : Key :=
  map (fun c => cell d c row) cs.

Definition group_rows (d : DataFrame) (group_cols : list string) (k : Key)
  : list (list Cell) :=
  filter (fun row => key_eqb (key_of d group_cols row) k) (rows d).

Definition cell_leb (a b : Cell) : bool := leb_of cell_compare a b.
Definition cell_eqb (a b : Cell) : bool := eqb_of cell_compare a b.

(** The number in a cell. *)
Definition num (c : Cell) : Q :=
  match c with Num q => q | _ => 0%Q end.

Definition is_num (c : Cell) : bool :=
  match c with Num _ => true | _ => false end.

(** A table of observations: rectangular, with a date column that
    [to_datetime] accepts, key columns that can be sorted, and a column of
    numbers to aggregate, which is not the date column. *)
Definition observation_table (d : DataFrame) (date_col : string)
    (group_cols : list string) (value_col : string) : bool :=
  rectb d
  && match group_cols with [] => false | _ => true end
  && match rbind (get_col d date_col) to_datetime with
     | Ok _ => true
     | Err _ => false
     end
  && forallb (fun c => match get_col d c with
                       | Ok s => String.eqb c date_col || homogeneous s
                       | Err _ => false
                       end) group_cols
  && match get_col d value_col with
     | Ok s => forallb is_num s
     | Err _ => false
     end
  && negb (String.eqb value_col date_col).

(** What each grouped transform computes from the values of one group,
    when these are numbers. *)
Definition rolling_fun (agg : list (option Q) -> Cell) (N : nat) (s : Series)
  : Series :=
  map (fun i => agg (map Some (window N i (map num s)))) (seq 0 (length s)).

Definition group_fun (op : GroupedOp) : Series -> Series :=
  match op with
  | RollingAvg7 => rolling_fun (window_mean 1) 7
  | RollingAvg15 => rolling_fun (window_mean 1) 15
  | RollingAvg30 => rolling_fun (window_mean 1) 30
  | Lag1 => shift 1
  | Lag7 => shift 7
  | Lag365 => shift 365
  | StdDev15 => rolling_fun (window_std 1) 15
  end.

(** The windows of the rolling averages and the offsets of the lags. *)
Inductive AvgWindow : Type := Avg7 | Avg15 | Avg30.

Definition avg_size (w : AvgWindow) : nat :=
  match w with Avg7 => 7 | Avg15 => 15 | Avg30 => 30 end%nat.

Definition avg_op (w : AvgWindow) : GroupedOp :=
  match w with
  | Avg7 => RollingAvg7
  | Avg15 => RollingAvg15
  | Avg30 => RollingAvg30
  end.

Inductive LagOffset : Type := Back1 | Back7 | Back365.

Definition lag_size (l : LagOffset) : nat :=
  match l with Back1 => 1 | Back7 => 7 | Back365 => 365 end%nat.

Definition lag_op (l : LagOffset) : GroupedOp :=
  match l with
  | Back1 => Lag1
  | Back7 => Lag7
  | Back365 => Lag365
  end.

(** The scenario of the specification: one group, ten daily rows. *)
Definition scenario_table : DataFrame :=
  mkFrame ["Store No_"; "Item No_"; "Date"; "Net Amount"]
    (map (fun p => [Int 1; Int 100; Str (fst p); Num (inject_Z (snd p))])
       [ ("2024-01-01", 10); ("2024-01-02", 10); ("2024-01-03", 10);
         ("2024-01-04", 10); ("2024-01-05", 10); ("2024-01-06", 10);
         ("2024-01-07", 10); ("2024-01-08", 20); ("2024-01-09", 20);
         ("2024-01-10", 20) ]).

(** *** The Ramadan aggregate *)

(** The rows of the period of one range, tagged with the year of the
    start of the range: the body of the loop of
    [add_total_sales_last_ramadan]. *)
Definition period_f (date_col : string) (range : string * string)
    (d : DataFrame) : Result DataFrame :=
  let '(start, end_) := range in
  rbind (get_col d date_col) (fun dates =>
  rbind (to_datetime_str start) (fun lo =>
  rbind (ge_ts dates lo) (fun after =>
  rbind (to_datetime_str end_) (fun hi =>
  rbind (le_ts dates hi) (fun before =>
    let period_df := loc d (mask_and after before) in
    set_col period_df "ramadan_year"
      (repeat (Int (ts_year lo)) (length (rows period_df)))))))).

Fixpoint ramadan_df_f (date_col : string) (ranges : list (string * string))
    (d : DataFrame) (acc : DataFrame) : Result DataFrame :=
  match ranges with
  | [] => Ok acc
  | range :: ranges' =>
      rbind (period_f date_col range d) (fun period_df =>
        ramadan_df_f date_col ranges' d (concat acc period_df))
  end.

Definition ranges_or_default (ramadan_ranges : option (list (string * string)))
  : list (string * string) :=
  match ramadan_ranges with
  | None => default_ramadan_ranges
  | Some ranges => ranges
  end.

Definition year_cell (c : Cell) : Cell :=
  of_field (option_map ts_year (date_of c)).

(** The statements of [add_total_sales_last_ramadan] up to the merge, on
    the copy, and the merge and the removal of the helper columns, which
    make a second frame. *)
Definition ramadan_left_f (date_col : string) (d1 : DataFrame)
  : Result DataFrame :=
  rbind (get_col d1 date_col) (fun dates =>
    set_col d1 "year" (map year_cell dates)).

Definition ramadan_sum_f (ramadan_ranges : option (list (string * string)))
    (date_col : string) (group_cols : list string) (value_col new_col : string)
    (d1 : DataFrame) : Result DataFrame :=
  rbind (ramadan_df_f date_col (ranges_or_default ramadan_ranges) d1
                      (mkFrame [] [])) (fun ramadan_df =>
  rbind (groupby_sum ramadan_df (group_cols ++ ["ramadan_year"]) value_col)
        (fun ramadan_sum => Ok (rename ramadan_sum value_col new_col))).

Definition ramadan_merge_f (group_cols : list string)
    (d2 ramadan_sum : DataFrame) : Result DataFrame :=
  rbind (merge_left d2 ramadan_sum (group_cols ++ ["year"])
                    (group_cols ++ ["ramadan_year"])) (fun merged =>
    drop merged ["year"; "ramadan_year"] true).

(** The observations of group [g] that fall in a range of [table]
    anchored at year [y], range after range. *)
Definition in_range (lo hi : Timestamp) (c : Cell) : bool :=
  match date_of c with
  | Some t => (lo <=? t) && (t <=? hi)
  | None => false
  end.

Definition ramadan_obs (table : IntervalTable) (d : DataFrame)
    (date_col : string) (group_cols : list string) (g : Key) (y : Z)
  : list (list Cell) :=
  flat_map (fun '(lo, hi) =>
              if ts_year lo =? y then
                filter (fun row => key_eqb (key_of d group_cols row) g
                                   && in_range lo hi (cell d date_col row))
                       (rows d)
              else []) table.

(** The value broadcast on a row: the sum over the observations of the
    row's group in the ranges anchored at the row's calendar year, or a
    missing value when there is none, when the date is missing or when
    the group key has a missing component. *)
Definition ramadan_cell (table : IntervalTable) (d : DataFrame)
    (date_col : string) (group_cols : list string) (value_col : string)
    (row : list Cell) : Cell :=
  let g := key_of d group_cols row in
  match date_of (cell d date_col row) with
  | Some t =>
      if key_has_nan g then NaN
      else
        match ramadan_obs table d date_col group_cols g (ts_year t) with
        | [] => NaN
        | obs => Num (Qred (Qsum (map (fun r => num (cell d value_col r)) obs)))
        end
  | None => NaN
  end.

(** An operation that works on a copy of its argument and returns a
    second new frame: [F] gives the final copy and the frame returned. *)
Definition on_copy_then (F : DataFrame -> Result (DataFrame * DataFrame))
    (r : ref) : M ref :=
  fun h =>
    match nth_error h r with
    | Some d =>
        match F d with
        | Ok (d2, out) => Ok (S (length h), h ++ [d2; out])
        | Err e => Err e
        end
    | None => Err DanglingRef
    end.

Definition total_ramadan_f (ramadan_ranges : option (list (string * string)))
    (date_col : string) (group_cols : list string) (value_col new_col : string)
    (d : DataFrame) : Result (DataFrame * DataFrame) :=
  rbind (convert_dates_f date_col d) (fun d1 =>
  rbind (ramadan_sum_f ramadan_ranges date_col group_cols value_col new_col d1)
        (fun ramadan_sum =>
  rbind (ramadan_left_f date_col d1) (fun d2 =>
  rbind (ramadan_merge_f group_cols d2 ramadan_sum) (fun out =>
    Ok (d2, out))))).

(** The rows of the frame built by the loop over the ranges: for each
    range, the rows of [d] dated in the range, each followed by the year
    of the start of the range. *)
Definition period_rows (d : DataFrame) (date_col : string)
    (range : Timestamp * Timestamp) : list (list Cell) :=
  map (fun row => row ++ [Int (ts_year (fst range))])
      (filter (fun row => in_range (fst range) (snd range) (cell d date_col row))
              (rows d)).

(** The names that [add_total_sales_last_ramadan] needs free: the table
    has no column named like the output or like the two helper columns
    of the merge, its columns are distinct, and the value column is not a
    group column. *)
Definition ramadan_names_free (d : DataFrame) (group_cols : list string)
    (value_col new_col : string) : Prop :=
  NoDup (columns d)
  /\ ~ In new_col (columns d)
  /\ ~ In "year" (columns d)
  /\ ~ In "ramadan_year" (columns d)
  /\ new_col <> "year"
  /\ new_col <> "ramadan_year"
  /\ ~ In value_col group_cols.

(** *** The FX join *)

(** The statements of [add_fx_rate] as a function of the two tables: the
    two converted copies and the frame returned. *)
Definition fx_fill_f (new_col : string) (m : DataFrame) : Result DataFrame :=
  rbind (get_col m new_col) (fun rates => set_col m new_col (ffill rates)).

Definition fx_f (date_col fx_date_col fx_col new_col : string)
    (d fx : DataFrame) : Result (DataFrame * DataFrame * DataFrame) :=
  rbind (convert_dates_f date_col d) (fun left =>
  rbind (convert_dates_f fx_date_col fx) (fun fx1 =>
  rbind (select_columns fx1 [fx_date_col; fx_col]) (fun right =>
  rbind (merge_left left right [date_col] [fx_date_col]) (fun m =>
  rbind (drop (rename m fx_col new_col) [fx_date_col] false) (fun m2 =>
  rbind (fx_fill_f new_col m2) (fun out => Ok (left, fx1, out))))))).

(** The rates of the FX rows dated [t], in the order of the FX table. *)
Definition fx_matches (fx : DataFrame) (fx_date_col fx_col : string) (t : Cell)
  : list Cell :=
  map (cell fx fx_col)
      (filter (fun m => cell_eqb (cell fx fx_date_col m) t) (rows fx)).

(** The left join, as the list of the dates of the transactions next to
    the rate joined to them: one entry per matching FX row, or one entry
    with a missing rate when there is none. *)
Definition joined_rates (left fx : DataFrame)
    (date_col fx_date_col fx_col : string) : list (Cell * Cell) :=
  flat_map (fun l =>
              let t := cell left date_col l in
              match fx_matches fx fx_date_col fx_col t with
              | [] => [(t, NaN)]
              | rates => map (fun r => (t, r)) rates
              end) (rows left).

(** The last value of [s] that is not missing, [NaN] when there is none. *)
Definition last_known (s : Series) : Cell :=
  fold_left (fun last c => if is_nan c then last else c) s NaN.

(** What C8 as stated asks for on a row without exact match: the rate of
    the latest FX date before the date of the row. *)
Definition latest_rate_before (fx : list (Timestamp * Cell)) (t : Timestamp)
  : Cell :=
  match fold_left (fun best p =>
                     if fst p <? t then
                       match best with
                       | Some b => if fst b <=? fst p then Some p else best
                       | None => Some p
                       end
                     else best) fx None with
  | Some b => snd b
  | None => NaN
  end.

(** The names that [add_fx_rate] needs free, and the shape of its two
    tables. *)
Definition fx_tables (d fx : DataFrame)
    (date_col fx_date_col fx_col new_col : string) : Prop :=
  rect d /\ rect fx
  /\ (exists dates, rbind (get_col d date_col) to_datetime = Ok dates)
  /\ (exists dates, rbind (get_col fx fx_date_col) to_datetime = Ok dates)
  /\ (exists rates, get_col fx fx_col = Ok rates)
  /\ fx_col <> fx_date_col
  /\ new_col <> fx_date_col
  /\ ~ In fx_col (columns d)
  /\ ~ In new_col (columns d)
  /\ (fx_date_col = date_col \/ ~ In fx_date_col (columns d)).

(** *** Small tables on which the statements are evaluated *)

(** Three days of sales and an FX table with one rate on the second day. *)
Definition fx_sales : DataFrame :=
  mkFrame ["Date"; "Net Amount"]
    [ [Str "2024-01-01"; Int 3]; [Str "2024-01-02"; Int 5];
      [Str "2024-01-03"; Int 7] ].

Definition fx_one_rate : DataFrame :=
  mkFrame ["Date"; "fx_rate"] [ [Str "2024-01-02"; Int 30] ].

(** Sales that are not in date order: the later day comes first, and the
    only rate known is the one of that later day. *)
Definition fx_unsorted_sales : DataFrame :=
  mkFrame ["Date"; "Net Amount"]
    [ [Str "2024-01-05"; Int 7]; [Str "2024-01-01"; Int 3] ].

Definition fx_late_rate : DataFrame :=
  mkFrame ["Date"; "fx_rate"] [ [Str "2024-01-05"; Int 35] ].

(** A table that already has a column named like the day-of-week
    feature, and a table of observations with a column named [year]. *)
Definition labelled_table : DataFrame :=
  mkFrame ["Date"; "day_of_week"] [ [Str "2024-01-01"; Str "opening day"] ].

Definition fiscal_table : DataFrame :=
  mkFrame ["Store No_"; "Item No_"; "Date"; "Net Amount"; "year"]
    [ [Int 1; Int 100; Str "2024-03-15"; Int 5; Str "FY2023"] ].

(** *** The public operations of the two feature modules *)

Inductive CalendarOp : Type :=
| DayOfWeek | WeekOfYear | Month | IsWeekend | IsStartOfMonth | IsEndOfMonth
| MovingHoliday (hol : Holiday)
| NationalHoliday | Season | RetailEvent.

Definition calendar_op (op : CalendarOp) : ref -> string -> string -> M ref :=
  match op with
  | DayOfWeek => add_day_of_week_feature
  | WeekOfYear => add_week_of_year_feature
  | Month => add_month_feature
  | IsWeekend => add_is_weekend_feature
  | IsStartOfMonth => add_is_start_of_month_feature
  | IsEndOfMonth => add_is_end_of_month_feature
  | MovingHoliday hol => holiday_feature hol
  | NationalHoliday => is_national_holiday
  | Season => add_season_feature
  | RetailEvent => add_retail_event_feature
  end.

(** The column computed from the converted dates by the features that
    are not range features. *)
Definition calendar_feature (op : CalendarOp) (dates : Series) : Result Series :=
  match op with
  | DayOfWeek => Ok (map day_name dates)
  | WeekOfYear => astype_int (map iso_week dates)
  | Month =>
      astype_int (map (fun c => of_field (option_map ts_month (date_of c))) dates)
  | IsWeekend =>
      Ok (map (fun c => Bool (inz (option_map ts_weekday (date_of c)) [4; 5])) dates)
  | IsStartOfMonth =>
      Ok (map (fun c => Bool (eqz (option_map ts_day (date_of c)) 1)) dates)
  | IsEndOfMonth => Ok (map is_month_end dates)
  | MovingHoliday hol => Ok (map (holiday_cell (holiday_table hol)) dates)
  | NationalHoliday =>
      Ok (map (fun c =>
                 let x := date_of c in
                 Bool (existsb (fun '(m, d) => eqz (option_map ts_month x) m
                                               && eqz (option_map ts_day x) d)
                               fixed_holidays)) dates)
  | Season =>
      Ok (map (fun c => Str (get_season (option_map ts_month (date_of c)))) dates)
  | RetailEvent =>
      Ok (map (fun c => Str (get_retail_event (date_of c))) dates)
  end.

Definition calendar_op_f (op : CalendarOp) (date_col new_col : string)
  : DataFrame -> Result DataFrame :=
  match op with
  | MovingHoliday hol => range_feature_f (holiday_ranges hol) date_col new_col
  | _ => calendar_f (calendar_feature op) date_col new_col
  end.

(** [astype(int)] in the week and month features rejects a missing
    date. *)
Definition needs_dates (op : CalendarOp) : bool :=
  match op with WeekOfYear | Month => true | _ => false end.

Inductive FeatureOp : Type :=
| CalendarFeature (op : CalendarOp)
| GroupedFeature (op : GroupedOp) (group_cols : list string) (value_col : string)
| TotalSalesLastRamadan (group_cols : list string) (value_col : string)
                        (ramadan_ranges : option (list (string * string))).

Definition feature_op (op : FeatureOp) (df : ref) (date_col new_col : string)
  : M ref :=
  match op with
  | CalendarFeature c => calendar_op c df date_col new_col
  | GroupedFeature g group_cols value_col =>
      grouped_op g df date_col group_cols value_col new_col
  | TotalSalesLastRamadan group_cols value_col ramadan_ranges =>
      add_total_sales_last_ramadan df date_col group_cols value_col new_col
                                   ramadan_ranges
  end.

(** The grouped transforms return the rows sorted; the other operations
    keep the order of the input. *)
Definition keeps_order (op : FeatureOp) : bool :=
  match op with GroupedFeature _ _ _ => false | _ => true end.

(** [out] is [d] with one column named [c] added on the right. *)
Definition appended (d : DataFrame) (c : string) (out : DataFrame) : Prop :=
  columns out = columns d ++ [c]
  /\ map (firstn (length (columns d))) (rows out) = rows d.

(** The tables on which an operation is specified: the output name is
    not a column yet, the dates can be converted, and the grouped
    operations get a table of observations. *)
Definition feature_ready (op : FeatureOp) (d : DataFrame)
    (date_col new_col : string) : Prop :=
  ~ In new_col (columns d)
  /\ match op with
     | CalendarFeature c =>
         rect d
         /\ exists dates,
              rbind (get_col d date_col) to_datetime = Ok dates
              /\ (needs_dates c = true -> existsb is_nan dates = false)
     | GroupedFeature _ group_cols value_col =>
         observation_table d date_col group_cols value_col = true
     | TotalSalesLastRamadan group_cols value_col ramadan_ranges =>
         observation_table d date_col group_cols value_col = true
         /\ ramadan_names_free d group_cols value_col new_col
         /\ rows d <> []
         /\ ranges_or_default ramadan_ranges <> []
         /\ exists table,
              parse_ranges (ranges_or_default ramadan_ranges) = Ok table
     end.


(** Sales of one item: one day in Ramadan 2023, one day in Ramadan 2024
    and one later day of 2024. *)
Definition ramadan_sales : DataFrame :=
  mkFrame ["Store No_"; "Item No_"; "Date"; "Net Amount"]
    [ [Int 1; Int 100; Str "2023-03-25"; Int 5];
      [Int 1; Int 100; Str "2024-03-15"; Int 7];
      [Int 1; Int 100; Str "2024-06-01"; Int 1] ].

(** *** The calendar features cell by cell *)








(** *** The FX join row by row *)

(** The left join of [add_fx_rate]: each transaction row next to a rate
    joined to it, once for each FX row of the same date, or once with a
    missing rate. *)
Definition joined_rows (left fx : DataFrame)
    (date_col fx_date_col fx_col : string) : list (list Cell * Cell) :=
  flat_map (fun l =>
              match fx_matches fx fx_date_col fx_col (cell left date_col l) with
              | [] => [(l, NaN)]
              | rates => map (fun r => (l, r)) rates
              end) (rows left).



(** Sales and rates whose date columns have different names. *)
Definition fx_sales_day : DataFrame :=
  mkFrame ["Day"; "Net Amount"]
    [ [Str "2024-01-01"; Int 3]; [Str "2024-01-02"; Int 5] ].

(** *** The inflation join *)













(** *** stocks.py *)

Import Stocks.












(** * Results and the store *)

Lemma rmapM_Ok_map {A B} (f : A -> B) (l : list A) :
  rmapM (fun x => Ok (f x)) l = Ok (map f l).
Proof. induction l as [|x l IH]; simpl; [reflexivity | now rewrite IH]. Qed.

Lemma rmapM_length {A B} (f : A -> Result B) l l' :
  rmapM f l = Ok l' -> length l' = length l.
Proof.
  revert l'. induction l as [|x l IH]; simpl; intros l' H.
  - now injection H as <-.
  - destruct (f x); simpl in H; [|discriminate].
    destruct (rmapM f l); simpl in H; [|discriminate].
    injection H as <-. simpl. now rewrite (IH _ eq_refl).
Qed.

Lemma rmapM_ext_in {A B} (f g : A -> Result B) l :
  (forall x, In x l -> f x = g x) -> rmapM f l = rmapM g l.
Proof.
  induction l as [|x l IH]; simpl; intros H; [reflexivity|].
  rewrite (H x) by now left. rewrite IH; [reflexivity|].
  intros y Hy. apply H. now right.
Qed.

Lemma rmapM_Forall2 {A B} (f : A -> Result B) l l' :
  rmapM f l = Ok l' <-> Forall2 (fun x y => f x = Ok y) l l'.
Proof.
  revert l'. induction l as [|x l IH]; simpl; intros l'.
  - split; intros H; [injection H as <-; constructor | inversion H; reflexivity].
  - split.
    + intros H. destruct (f x) eqn:Hx; simpl in H; [|discriminate].
      destruct (rmapM f l) eqn:Hl; simpl in H; [|discriminate].
      injection H as <-. constructor; [assumption | now apply IH].
    + intros H. inversion H as [|? y ? l2 Hx Hl]; subst.
      rewrite Hx. simpl. apply IH in Hl. rewrite Hl. reflexivity.
Qed.

Section Store.
Variables (h : Heap) (d : DataFrame).

Lemma nth_error_last : nth_error (h ++ [d]) (length h) = Some d.
Proof. rewrite nth_error_app2, Nat.sub_diag by lia. reflexivity. Qed.

Lemma update_last (d' : DataFrame) :
  update (length h) d' (h ++ [d]) = h ++ [d'].
Proof. induction h as [|x h' IH]; simpl; [reflexivity | now rewrite IH]. Qed.

Lemma load_last : load (length h) (h ++ [d]) = Ok (d, h ++ [d]).
Proof. unfold load. now rewrite nth_error_last. Qed.

Lemma store_last d' : store (length h) d' (h ++ [d]) = Ok (tt, h ++ [d']).
Proof. unfold store. now rewrite nth_error_last, update_last. Qed.

(** An update of the last frame of the store by [F]. *)
Lemma inplace_last (F : DataFrame -> Result DataFrame) :
  bind (load (length h)) (fun x => bind (lift (F x)) (store (length h)))
       (h ++ [d]) =
  match F d with Ok d' => Ok (tt, h ++ [d']) | Err e => Err e end.
Proof.
  unfold bind, lift. rewrite load_last.
  destruct (F d); [apply store_last | reflexivity].
Qed.

Lemma getitem_last c :
  getitem (length h) c (h ++ [d]) =
  match get_col d c with Ok s => Ok (s, h ++ [d]) | Err e => Err e end.
Proof. unfold getitem, bind, lift. rewrite load_last. reflexivity. Qed.

Lemma setitem_last c v :
  setitem (length h) c v (h ++ [d]) =
  match set_col d c v with Ok d' => Ok (tt, h ++ [d']) | Err e => Err e end.
Proof. apply inplace_last. Qed.

Lemma setitem_scalar_last c v :
  setitem_scalar (length h) c v (h ++ [d]) =
  match set_col d c (repeat v (length (rows d))) with
  | Ok d' => Ok (tt, h ++ [d'])
  | Err e => Err e
  end.
Proof.
  unfold setitem_scalar, bind, lift. rewrite load_last.
  destruct (set_col d c _); [apply store_last | reflexivity].
Qed.

Lemma convert_dates_last c :
  convert_dates (length h) c (h ++ [d]) =
  match convert_dates_f c d with
  | Ok d' => Ok (tt, h ++ [d'])
  | Err e => Err e
  end.
Proof.
  unfold convert_dates, convert_dates_f, bind, lift. rewrite getitem_last.
  destruct (get_col d c) as [s|]; simpl; [|reflexivity].
  destruct (to_datetime s); simpl; [|reflexivity].
  apply setitem_last.
Qed.

Lemma sort_values_inplace_last by_ :
  sort_values_inplace (length h) by_ (h ++ [d]) =
  match sort_values d by_ with
  | Ok d' => Ok (tt, h ++ [d'])
  | Err e => Err e
  end.
Proof. apply inplace_last. Qed.

Lemma drop_inplace_last names ign :
  drop_inplace (length h) names ign (h ++ [d]) =
  match drop d names ign with
  | Ok d' => Ok (tt, h ++ [d'])
  | Err e => Err e
  end.
Proof. apply inplace_last. Qed.

Lemma rename_inplace_last old new :
  rename_inplace (length h) old new (h ++ [d]) =
  Ok (tt, h ++ [rename d old new]).
Proof. unfold rename_inplace, bind. rewrite load_last. apply store_last. Qed.

Lemma loc_set_last mask c v :
  loc_set (length h) mask c v (h ++ [d]) =
  match rbind (get_col d c) (fun old =>
          set_col d c (zip_with (fun m o => if truthy m then v else o) mask old))
  with
  | Ok d' => Ok (tt, h ++ [d'])
  | Err e => Err e
  end.
Proof.
  unfold loc_set, bind. rewrite getitem_last.
  destruct (get_col d c); simpl; [apply setitem_last | reflexivity].
Qed.
End Store.

(** Symbolic execution of the statements on the copy, one at a time. *)
Ltac run_step :=
  first [ rewrite convert_dates_last | rewrite getitem_last
        | rewrite setitem_last | rewrite setitem_scalar_last
        | rewrite sort_values_inplace_last | rewrite drop_inplace_last
        | rewrite rename_inplace_last | rewrite loc_set_last
        | rewrite load_last ].

Ltac run_case :=
  match goal with
  | |- context [match ?x with Ok _ => _ | Err _ => _ end] =>
      lazymatch x with
      | context [match _ with Ok _ => _ | Err _ => _ end] => fail
      | _ => destruct x eqn:?; simpl; try reflexivity
      end
  end.

Ltac run := repeat (first [ run_step | run_case ]).

Ltac run_copy f :=
  unfold f, on_copy, copy, bind, load, alloc, ret, lift;
  match goal with
  | |- context [nth_error ?h ?r] =>
      destruct (nth_error h r); [|reflexivity]
  end.

(** * time_calendar.py: what each operation does to the copy *)

Lemma calendar_run (feature : Series -> Result Series) r date_col new_col h :
  (df <- copy r ;;
   convert_dates df date_col ;;
   dates <- getitem df date_col ;;
   s <- lift (feature dates) ;;
   setitem df new_col s ;;
   ret df) h
  = on_copy (calendar_f feature date_col new_col) r h.
Proof.
  unfold calendar_f, on_copy, copy, bind, load, alloc, ret, lift.
  destruct (nth_error h r) as [d|]; [|reflexivity].
  run.
Qed.

Lemma calendar_run_pure (g : Cell -> Cell) r date_col new_col h :
  (df <- copy r ;;
   convert_dates df date_col ;;
   dates <- getitem df date_col ;;
   setitem df new_col (map g dates) ;;
   ret df) h
  = on_copy (calendar_f (fun dates => Ok (map g dates)) date_col new_col) r h.
Proof.
  unfold calendar_f, on_copy, copy, bind, load, alloc, ret, lift.
  destruct (nth_error h r) as [d|]; [|reflexivity].
  run.
Qed.

Lemma mark_ranges_last h d date_col new_col ranges :
  mark_ranges (length h) date_col new_col ranges (h ++ [d]) =
  match mark_ranges_f date_col new_col ranges d with
  | Ok d' => Ok (tt, h ++ [d'])
  | Err e => Err e
  end.
Proof.
  unfold mark_ranges. revert d.
  induction ranges as [|[start end_] ranges IH]; intros d; simpl; [reflexivity|].
  unfold bind at 1. unfold bind at 1. rewrite getitem_last.
  unfold mark_range_f.
  destruct (get_col d date_col) as [dates|] eqn:Hd; simpl; [|reflexivity].
  unfold bind, lift.
  destruct (to_datetime_str start) as [lo|]; simpl; [|reflexivity].
  destruct (ge_ts dates lo) as [after|]; simpl; [|reflexivity].
  rewrite getitem_last, Hd.
  destruct (to_datetime_str end_) as [hi|]; simpl; [|reflexivity].
  destruct (le_ts dates hi) as [before|]; simpl; [|reflexivity].
  rewrite loc_set_last.
  destruct (get_col d new_col) as [old|]; simpl; [|reflexivity].
  destruct (set_col d new_col _) as [d'|]; simpl; [|reflexivity].
  apply IH.
Qed.

Lemma Ok_inj {A} (a b : A) : Ok a = Ok b -> a = b.
Proof. intros H. now injection H. Qed.

(** * Columns of a frame *)

Lemma zip_with_combine {A B C} (f : A -> B -> C) l l' :
  zip_with f l l' = map (fun p => f (fst p) (snd p)) (combine l l').
Proof.
  revert l'. induction l as [|x l IH]; intros [|y l']; simpl; try reflexivity.
  now rewrite IH.
Qed.

Lemma zip_with_length {A B C} (f : A -> B -> C) l l' :
  length l' = length l -> length (zip_with f l l') = length l.
Proof.
  revert l'. induction l as [|x l IH]; intros [|y l'] H; simpl in *;
    try discriminate; try reflexivity.
  now rewrite IH by lia.
Qed.

Lemma zip_with_map_r {A B C} (f : A -> B -> C) (g : A -> B) l :
  zip_with f l (map g l) = map (fun x => f x (g x)) l.
Proof. induction l as [|x l IH]; simpl; [reflexivity | now rewrite IH]. Qed.

Lemma zip_with_map_both {A B C D} (f : B -> C -> D) (g : A -> B) (k : A -> C) l :
  zip_with f (map g l) (map k l) = map (fun x => f (g x) (k x)) l.
Proof. induction l as [|x l IH]; simpl; [reflexivity | now rewrite IH]. Qed.

Lemma map_zip_with_l {A B C D} (f : A -> B -> C) (g : C -> D) l l' :
  map g (zip_with f l l') = zip_with (fun x y => g (f x y)) l l'.
Proof.
  revert l'. induction l as [|x l IH]; intros [|y l']; simpl; try reflexivity.
  now rewrite IH.
Qed.

Lemma zip_with_fst {A B} (l : list A) (l' : list B) :
  length l' = length l -> zip_with (fun x _ => x) l l' = l.
Proof.
  revert l'. induction l as [|x l IH]; intros [|y l'] H; simpl in *;
    try discriminate; try reflexivity.
  now rewrite IH by lia.
Qed.

Lemma zip_with_snd {A B} (l : list A) (l' : list B) :
  length l' = length l -> zip_with (fun _ y => y) l l' = l'.
Proof.
  revert l'. induction l as [|x l IH]; intros [|y l'] H; simpl in *;
    try discriminate; try reflexivity.
  now rewrite IH by lia.
Qed.

Lemma zip_with_ext_in {A B C} (f g : A -> B -> C) l l' :
  (forall x y, In x l -> f x y = g x y) -> zip_with f l l' = zip_with g l l'.
Proof.
  revert l'. induction l as [|x l IH]; intros [|y l'] H; simpl; try reflexivity.
  rewrite H by now left. rewrite IH; [reflexivity|].
  intros. apply H. now right.
Qed.

Lemma col_index_lt c cols j : col_index c cols = Some j -> (j < length cols)%nat.
Proof.
  revert j. induction cols as [|c' cols IH]; simpl; intros j H; [discriminate|].
  destruct (String.eqb c c').
  - injection H as <-. lia.
  - destruct (col_index c cols) as [j'|]; simpl in H; [|discriminate].
    injection H as <-. specialize (IH _ eq_refl). lia.
Qed.

Lemma col_index_In c cols : In c cols -> exists j, col_index c cols = Some j.
Proof.
  induction cols as [|c' cols IH]; simpl; intros H; [contradiction|].
  destruct (String.eqb_spec c c') as [->|Hne]; [now exists O|].
  destruct H as [H|H]; [congruence|].
  destruct (IH H) as [j ->]. now exists (S j).
Qed.

Lemma col_index_Some_In c cols j : col_index c cols = Some j -> In c cols.
Proof.
  revert j. induction cols as [|c' cols IH]; simpl; intros j H; [discriminate|].
  destruct (String.eqb_spec c c') as [->|Hne]; [now left|].
  destruct (col_index c cols) as [j'|]; simpl in H; [|discriminate].
  right. now apply (IH j').
Qed.

Lemma col_index_None c cols : ~ In c cols -> col_index c cols = None.
Proof.
  intros H. destruct (col_index c cols) as [j|] eqn:E; [|reflexivity].
  exfalso. apply H. now apply (col_index_Some_In _ _ j).
Qed.

Lemma col_index_app_l c cols cols' j :
  col_index c cols = Some j -> col_index c (cols ++ cols') = Some j.
Proof.
  revert j. induction cols as [|c' cols IH]; simpl; intros j H; [discriminate|].
  destruct (String.eqb c c'); [assumption|].
  destruct (col_index c cols) as [j'|]; simpl in H; [|discriminate].
  now rewrite (IH _ eq_refl).
Qed.

Lemma col_index_app_new c cols :
  ~ In c cols -> col_index c (cols ++ [c]) = Some (length cols).
Proof.
  induction cols as [|c' cols IH]; simpl; intros H.
  - now rewrite String.eqb_refl.
  - destruct (String.eqb_spec c c') as [->|Hne]; [exfalso; apply H; now left|].
    rewrite IH; [reflexivity|]. intros X. apply H. now right.
Qed.

Lemma col_index_inj c c' cols j :
  col_index c cols = Some j -> col_index c' cols = Some j -> c = c'.
Proof.
  revert j. induction cols as [|x cols IH]; simpl; intros j H H'; [discriminate|].
  destruct (String.eqb_spec c x) as [->|Hne];
    destruct (String.eqb_spec c' x) as [->|Hne']; try reflexivity.
  - injection H as <-.
    destruct (col_index c' cols); simpl in H'; discriminate.
  - injection H' as <-.
    destruct (col_index c cols); simpl in H; discriminate.
  - destruct (col_index c cols) as [a|]; simpl in H; [|discriminate].
    destruct (col_index c' cols) as [b|]; simpl in H'; [|discriminate].
    apply (IH a); [reflexivity|]. f_equal. congruence.
Qed.

Lemma cell_at_set_nth_same j v row :
  (j < length row)%nat -> cell_at j (set_nth j v row) = v.
Proof.
  unfold cell_at. revert row. induction j as [|j IH]; intros [|c row] H;
    simpl in *; try lia; [reflexivity|]. apply IH. lia.
Qed.

Lemma cell_at_set_nth_other j j' v row :
  j <> j' -> cell_at j' (set_nth j v row) = cell_at j' row.
Proof.
  unfold cell_at. revert j' row. induction j as [|j IH]; intros [|j'] [|c row] H;
    simpl in *; try reflexivity; try congruence.
  apply IH. congruence.
Qed.

Lemma set_nth_length j v row : length (set_nth j v row) = length row.
Proof.
  revert row. induction j as [|j IH]; intros [|c row]; simpl; try reflexivity.
  now rewrite IH.
Qed.

Lemma cell_at_app_l j row v :
  (j < length row)%nat -> cell_at j (row ++ [v]) = cell_at j row.
Proof. intros H. unfold cell_at. now rewrite app_nth1. Qed.

Lemma cell_at_app_new row v : cell_at (length row) (row ++ [v]) = v.
Proof. unfold cell_at. rewrite app_nth2, Nat.sub_diag by lia. reflexivity. Qed.

Lemma rectb_rect d : rectb d = true <-> rect d.
Proof.
  unfold rectb, rect. rewrite forallb_forall, Forall_forall.
  split; intros H x Hx; specialize (H x Hx); now apply Nat.eqb_eq.
Qed.

Lemma rect_row d row :
  rect d -> In row (rows d) -> length row = length (columns d).
Proof. unfold rect. rewrite Forall_forall. auto. Qed.

Section SetCol.
Variables (d d' : DataFrame) (c : string) (v : Series).
Hypothesis Hset : set_col d c v = Ok d'.

Lemma set_col_length : length v = length (rows d).
Proof.
  unfold set_col in Hset.
  destruct (Nat.eqb_spec (length v) (length (rows d))); [assumption | discriminate].
Qed.

Lemma set_col_rows_length : length (rows d') = length (rows d).
Proof.
  pose proof set_col_length as L. unfold set_col in Hset.
  rewrite L, Nat.eqb_refl in Hset.
  destruct (col_index c (columns d)); injection Hset as <-; simpl;
    now apply zip_with_length.
Qed.

Lemma set_col_columns_new : ~ In c (columns d) -> columns d' = columns d ++ [c].
Proof.
  intros H. unfold set_col in Hset. rewrite (col_index_None _ _ H) in Hset.
  destruct (Nat.eqb _ _); [|discriminate]. now injection Hset as <-.
Qed.

Lemma set_col_columns_old : In c (columns d) -> columns d' = columns d.
Proof.
  intros H. unfold set_col in Hset. destruct (col_index_In _ _ H) as [j Hj].
  rewrite Hj in Hset.
  destruct (Nat.eqb _ _); [|discriminate]. now injection Hset as <-.
Qed.


Hypothesis Hrect : rect d.

Lemma set_col_rect : rect d'.
Proof.
  pose proof set_col_length as L. unfold set_col in Hset.
  rewrite L, Nat.eqb_refl in Hset.
  destruct (col_index c (columns d)); injection Hset as <-; unfold rect; simpl;
    rewrite zip_with_combine; apply Forall_forall; intros row Hin;
    apply in_map_iff in Hin; destruct Hin as [[row0 x] [Hx Hin]];
    rewrite <- Hx; simpl;
    apply in_combine_l in Hin;
    pose proof (rect_row _ _ Hrect Hin) as HR.
  - now rewrite set_nth_length.
  - rewrite !length_app. simpl. lia.
Qed.

Lemma get_set_same : get_col d' c = Ok v.
Proof.
  pose proof set_col_length as L. unfold set_col in Hset.
  rewrite L, Nat.eqb_refl in Hset. unfold get_col.
  destruct (col_index c (columns d)) as [j|] eqn:Hj; injection Hset as <-; simpl.
  - rewrite Hj. rewrite map_zip_with_l.
    rewrite (zip_with_ext_in _ (fun _ y => y)); [now rewrite zip_with_snd|].
    intros row y Hin.
    apply cell_at_set_nth_same. rewrite (rect_row _ _ Hrect Hin).
    now apply (col_index_lt c).
  - assert (Hn : ~ In c (columns d)).
    { intros X. destruct (col_index_In _ _ X). congruence. }
    rewrite (col_index_app_new _ _ Hn). rewrite map_zip_with_l.
    rewrite (zip_with_ext_in _ (fun _ y => y)); [now rewrite zip_with_snd|].
    intros row y Hin.
    rewrite <- (rect_row _ _ Hrect Hin). apply cell_at_app_new.
Qed.

Lemma get_set_other c' : c' <> c -> get_col d' c' = get_col d c'.
Proof.
  intros Hne. pose proof set_col_length as L. unfold set_col in Hset.
  rewrite L, Nat.eqb_refl in Hset. unfold get_col.
  destruct (col_index c (columns d)) as [j|] eqn:Hj; injection Hset as <-; simpl.
  - destruct (col_index c' (columns d)) as [j'|] eqn:Hj'; [|reflexivity].
    f_equal. rewrite map_zip_with_l.
    rewrite (zip_with_ext_in _ (fun x _ => cell_at j' x)).
    + rewrite <- map_zip_with_l with (f := fun x _ => x) (g := cell_at j').
      now rewrite zip_with_fst.
    + intros row y _. apply cell_at_set_nth_other.
      intros ->. apply Hne. now apply (col_index_inj _ _ (columns d) j').
  - destruct (col_index c' (columns d)) as [j'|] eqn:Hj'.
    + rewrite (col_index_app_l _ _ _ _ Hj'). f_equal. rewrite map_zip_with_l.
      rewrite (zip_with_ext_in _ (fun x _ => cell_at j' x)).
      * rewrite <- map_zip_with_l with (f := fun x _ => x) (g := cell_at j').
        now rewrite zip_with_fst.
      * intros row y Hin.
        apply cell_at_app_l. rewrite (rect_row _ _ Hrect Hin).
        now apply (col_index_lt c').
    + assert (Hn : ~ In c' (columns d ++ [c])).
      { rewrite in_app_iff. simpl. intros [X|[X|[]]]; [|congruence].
        destruct (col_index_In _ _ X). congruence. }
      now rewrite (col_index_None _ _ Hn).
Qed.
End SetCol.

Lemma set_col_Ok d c v :
  length v = length (rows d) -> exists d', set_col d c v = Ok d'.
Proof.
  intros L. unfold set_col. rewrite L, Nat.eqb_refl.
  destruct (col_index c (columns d)); eexists; reflexivity.
Qed.

Lemma get_col_length d c s : get_col d c = Ok s -> length s = length (rows d).
Proof.
  unfold get_col. destruct (col_index c (columns d)); [|discriminate].
  intros H. injection H as <-. apply length_map.
Qed.

Lemma get_col_In d c s : get_col d c = Ok s -> In c (columns d).
Proof.
  unfold get_col. destruct (col_index c (columns d)) eqn:E; [|discriminate].
  intros _. now apply (col_index_Some_In _ _ n).
Qed.

Lemma get_col_Ok d c : In c (columns d) -> exists s, get_col d c = Ok s.
Proof.
  intros H. unfold get_col. destruct (col_index_In _ _ H) as [j ->]. eauto.
Qed.

(** The conversion of the date column. *)
Section ConvertDates.
Variables (d d1 : DataFrame) (c : string).
Hypothesis Hconv : convert_dates_f c d = Ok d1.

Lemma convert_dates_inv :
  exists s s', get_col d c = Ok s /\ to_datetime s = Ok s'
               /\ set_col d c s' = Ok d1.
Proof.
  unfold convert_dates_f in Hconv.
  destruct (get_col d c) as [s|]; simpl in Hconv; [|discriminate].
  destruct (to_datetime s) as [s'|] eqn:E; simpl in Hconv; [|discriminate].
  now exists s, s'.
Qed.

Lemma convert_dates_columns : columns d1 = columns d.
Proof.
  destruct convert_dates_inv as (s & s' & Hs & _ & Hset).
  apply (set_col_columns_old _ _ _ _ Hset). now apply (get_col_In _ _ s).
Qed.

Lemma convert_dates_rows_length : length (rows d1) = length (rows d).
Proof.
  destruct convert_dates_inv as (s & s' & Hs & _ & Hset).
  apply (set_col_rows_length _ _ _ _ Hset).
Qed.

Lemma convert_dates_rect : rect d -> rect d1.
Proof.
  destruct convert_dates_inv as (s & s' & Hs & _ & Hset).
  now apply (set_col_rect _ _ _ _ Hset).
Qed.


Lemma convert_dates_other c' : rect d -> c' <> c -> get_col d1 c' = get_col d c'.
Proof.
  intros R Hne. destruct convert_dates_inv as (s & s' & Hs & Hc & Hset).
  now apply (get_set_other _ _ _ _ Hset).
Qed.
End ConvertDates.

(** * The calendar features *)

Lemma to_datetime_is_date s s' : to_datetime s = Ok s' -> Forall is_date s'.
Proof.
  unfold to_datetime. intros H0. apply rmapM_Forall2 in H0.
  induction H0 as [|c c' s s' H _ IH].
  - constructor.
  - constructor; [|assumption].
    destruct c; simpl in H; try discriminate; try (injection H as <-; exact I).
    destruct (to_datetime_str s0); simpl in H; [|discriminate].
    injection H as <-. exact I.
Qed.

Lemma cmp_ts_dates test dates :
  Forall is_date dates ->
  cmp_ts test dates =
  Ok (map (fun c => Bool (match date_of c with Some x => test x | None => false end))
          dates).
Proof.
  intros H. unfold cmp_ts. rewrite <- rmapM_Ok_map. apply rmapM_ext_in.
  intros c Hc. rewrite Forall_forall in H. specialize (H c Hc).
  destruct c; simpl in *; try contradiction; reflexivity.
Qed.

Lemma holiday_cell_app P lo hi c :
  (if truthy (Bool (truthy (Bool (match date_of c with Some x => lo <=? x | None => false end))
                    && truthy (Bool (match date_of c with Some x => x <=? hi | None => false end))))
   then Bool true else holiday_cell P c)
  = holiday_cell (P ++ [(lo, hi)]) c.
Proof.
  unfold holiday_cell, contains. destruct (date_of c) as [t|]; simpl; [|reflexivity].
  rewrite existsb_app. simpl. rewrite orb_false_r.
  destruct (lo <=? t), (t <=? hi); simpl; rewrite ?orb_true_r, ?orb_false_r;
    try reflexivity;
    destruct (existsb _ P); reflexivity.
Qed.

Lemma parse_ranges_cons start end_ ranges table :
  parse_ranges ((start, end_) :: ranges) = Ok table ->
  exists lo hi table', to_datetime_str start = Ok lo
                       /\ to_datetime_str end_ = Ok hi
                       /\ parse_ranges ranges = Ok table'
                       /\ table = (lo, hi) :: table'.
Proof.
  unfold parse_ranges. simpl.
  destruct (to_datetime_str start) as [lo|]; simpl; [|discriminate].
  destruct (to_datetime_str end_) as [hi|]; simpl; [|discriminate].
  destruct (rmapM _ ranges) as [table'|]; simpl; [|discriminate].
  intros H. injection H as <-. now exists lo, hi, table'.
Qed.

Section MarkRanges.
Variables (date_col new_col : string) (dates : Series).
Hypothesis Hne : new_col <> date_col.
Hypothesis Hdates : Forall is_date dates.

Lemma mark_ranges_f_spec ranges : forall table P d,
  parse_ranges ranges = Ok table ->
  rect d ->
  get_col d date_col = Ok dates ->
  get_col d new_col = Ok (map (holiday_cell P) dates) ->
  exists d', mark_ranges_f date_col new_col ranges d = Ok d'
             /\ rect d' /\ columns d' = columns d
             /\ get_col d' date_col = Ok dates
             /\ get_col d' new_col = Ok (map (holiday_cell (P ++ table)) dates).
Proof.
  induction ranges as [|[start end_] ranges IH]; intros table P d Hp R Hd Hn.
  - injection Hp as <-. rewrite app_nil_r. exists d. simpl. auto.
  - apply parse_ranges_cons in Hp.
    destruct Hp as (lo & hi & table' & Hlo & Hhi & Hp & ->).
    simpl. rewrite Hd. simpl. rewrite Hlo. simpl.
    unfold ge_ts, le_ts. rewrite cmp_ts_dates by assumption. simpl.
    rewrite Hhi. simpl. rewrite cmp_ts_dates by assumption. simpl.
    rewrite Hn. simpl.
    unfold mask_and. rewrite zip_with_map_both, zip_with_map_both.
    rewrite (map_ext _ _ (holiday_cell_app P lo hi)).
    match goal with
    | |- context [set_col d new_col ?v] =>
        destruct (set_col_Ok d new_col v) as [d' Hset]
    end.
    { rewrite length_map. now apply (get_col_length _ date_col). }
    rewrite Hset. simpl.
    destruct (IH table' (P ++ [(lo, hi)]) d' Hp) as (d2 & H2 & R2 & C2 & D2 & N2).
    + now apply (set_col_rect _ _ _ _ Hset).
    + rewrite (get_set_other _ _ _ _ Hset R); [assumption | congruence].
    + now apply (get_set_same _ _ _ _ Hset).
    + exists d2. repeat split; try assumption.
      * rewrite C2. apply (set_col_columns_old _ _ _ _ Hset).
        now apply (get_col_In _ _ _ Hn).
      * rewrite N2. now rewrite <- app_assoc.
Qed.
End MarkRanges.

Lemma range_feature_run ranges r date_col new_col h :
  (df <- copy r ;;
   convert_dates df date_col ;;
   setitem_scalar df new_col (Bool false) ;;
   mark_ranges df date_col new_col ranges ;;
   ret df) h
  = on_copy (range_feature_f ranges date_col new_col) r h.
Proof.
  unfold range_feature_f, on_copy, copy, bind, load, alloc, ret, lift.
  destruct (nth_error h r) as [d|]; [|reflexivity].
  rewrite convert_dates_last.
  destruct (convert_dates_f date_col d) as [d1|]; simpl; [|reflexivity].
  rewrite setitem_scalar_last.
  destruct (set_col d1 new_col _) as [d2|]; simpl; [|reflexivity].
  rewrite mark_ranges_last.
  destruct (mark_ranges_f date_col new_col ranges d2); reflexivity.
Qed.

Lemma holiday_feature_run hol r date_col new_col h :
  holiday_feature hol r date_col new_col h
  = on_copy (range_feature_f (holiday_ranges hol) date_col new_col) r h.
Proof. destruct hol; apply range_feature_run. Qed.

Lemma call_on_copy F d : call (on_copy F) d = F d.
Proof.
  unfold call, on_copy. simpl. destruct (F d); reflexivity.
Qed.

Lemma call_ext f g d : (forall r h, f r h = g r h) -> call f d = call g d.
Proof. intros H. unfold call. now rewrite H. Qed.

Lemma holiday_ranges_parse hol :
  parse_ranges (holiday_ranges hol) = Ok (holiday_table hol).
Proof. destruct hol; vm_compute; reflexivity. Qed.

Lemma holiday_cell_nil c : holiday_cell [] c = Bool false.
Proof. unfold holiday_cell. destruct (date_of c); reflexivity. Qed.

Lemma range_feature_spec ranges table date_col new_col d dates :
  parse_ranges ranges = Ok table ->
  rect d ->
  new_col <> date_col ->
  rbind (get_col d date_col) to_datetime = Ok dates ->
  exists out, range_feature_f ranges date_col new_col d = Ok out
              /\ rect out
              /\ get_col out date_col = Ok dates
              /\ get_col out new_col = Ok (map (holiday_cell table) dates).
Proof.
  intros Hp R Hne Hd.
  destruct (get_col d date_col) as [s|] eqn:Hs; simpl in Hd; [|discriminate].
  destruct (set_col_Ok d date_col dates) as [d1 H1].
  { rewrite (rmapM_length _ _ _ Hd). now apply (get_col_length _ date_col). }
  assert (Hc : convert_dates_f date_col d = Ok d1).
  { unfold convert_dates_f. rewrite Hs. simpl. now rewrite Hd. }
  pose proof (set_col_rect _ _ _ _ H1 R) as R1.
  pose proof (get_set_same _ _ _ _ H1 R) as G1.
  destruct (set_col_Ok d1 new_col (repeat (Bool false) (length (rows d1))))
    as [d2 H2]; [apply repeat_length|].
  unfold range_feature_f. rewrite Hc. simpl. rewrite H2. simpl.
  destruct (mark_ranges_f_spec date_col new_col dates Hne
              (to_datetime_is_date _ _ Hd) ranges table [] d2 Hp)
    as (out & Ho & Ro & Co & Do & No).
  - now apply (set_col_rect _ _ _ _ H2).
  - rewrite (get_set_other _ _ _ _ H2 R1); [assumption | congruence].
  - rewrite (get_set_same _ _ _ _ H2 R1). f_equal.
    rewrite <- (get_col_length _ _ _ G1).
    rewrite (map_ext _ _ holiday_cell_nil).
    clear. induction dates; simpl; [reflexivity | now f_equal].
  - exists out. auto.
Qed.

Lemma calendar_f_spec feature date_col new_col d dates s :
  rect d ->
  rbind (get_col d date_col) to_datetime = Ok dates ->
  feature dates = Ok s ->
  length s = length dates ->
  exists d1 out, convert_dates_f date_col d = Ok d1
                 /\ calendar_f feature date_col new_col d = Ok out
                 /\ set_col d1 new_col s = Ok out
                 /\ rect d1 /\ rect out
                 /\ get_col out new_col = Ok s.
Proof.
  intros R Hd Hf Hl.
  destruct (get_col d date_col) as [s0|] eqn:Hs; simpl in Hd; [|discriminate].
  destruct (set_col_Ok d date_col dates) as [d1 H1].
  { rewrite (rmapM_length _ _ _ Hd). now apply (get_col_length _ date_col). }
  assert (Hc : convert_dates_f date_col d = Ok d1).
  { unfold convert_dates_f. rewrite Hs. simpl. now rewrite Hd. }
  pose proof (set_col_rect _ _ _ _ H1 R) as R1.
  pose proof (get_set_same _ _ _ _ H1 R) as G1.
  destruct (set_col_Ok d1 new_col s) as [out Ho].
  { rewrite Hl. now apply (get_col_length _ date_col). }
  exists d1, out. unfold calendar_f. rewrite Hc. simpl. rewrite G1. simpl.
  rewrite Hf. simpl. repeat split; try assumption.
  - now apply (set_col_rect _ _ _ _ Ho).
  - now apply (get_set_same _ _ _ _ Ho).
Qed.

Lemma add_retail_event_feature_run r date_col new_col h :
  add_retail_event_feature r date_col new_col h
  = on_copy (calendar_f (fun dates =>
               Ok (map (fun c => Str (get_retail_event (date_of c))) dates))
               date_col new_col) r h.
Proof. apply calendar_run_pure. Qed.








(** * Claims on the calendar features *)

(** C2. For every date [get_retail_event] returns the label of the first
    rule of the priority list (December, Jan 7, Feb 14, Mar 21, the
    November Friday whose next week is outside November, Aug 15-31) that
    matches, and [none] when none does; a December date is always
    [christmas_dec]; and the feature puts exactly that label on every
    row. *)
Theorem retail_event_first_match (t : Timestamp) :
  get_retail_event (Some t) = first_match retail_rules t
  /\ (ts_month t = 12 -> get_retail_event (Some t) = "christmas_dec")
  /\ (forall df date_col new_col dates,
        rect df ->
        rbind (get_col df date_col) to_datetime = Ok dates ->
        exists out,
          call (fun r => add_retail_event_feature r date_col new_col) df = Ok out
          /\ get_col out new_col
             = Ok (map (fun c => Str (get_retail_event (date_of c))) dates)).
Proof.
  split; [|split].
  - unfold get_retail_event, first_match, retail_rules,
      is_last_friday_of_november, eqz, nez, lez, zle. simpl.
    destruct (ts_month t =? 12); [reflexivity|].
    destruct (ts_month t =? 1); simpl;
      [destruct (ts_day t =? 7); simpl; [reflexivity|]|];
    (destruct (ts_month t =? 2); simpl;
      [destruct (ts_day t =? 14); simpl; [reflexivity|]|]);
    (destruct (ts_month t =? 3); simpl;
      [destruct (ts_day t =? 21); simpl; [reflexivity|]|]);
    (destruct (ts_month t =? 11); simpl;
      [destruct (ts_weekday t =? 4); simpl;
       [destruct (ts_month (add_days t 7) =? 11); simpl; [|reflexivity]|]|]);
    (destruct (ts_month t =? 8); simpl; [|reflexivity]);
    (destruct (15 <=? ts_day t); simpl; [|reflexivity]);
    destruct (ts_day t <=? 31); reflexivity.
  - intros H. unfold get_retail_event, eqz. simpl. now rewrite H.
  - intros df date_col new_col dates R Hd.
    destruct (calendar_f_spec
                (fun dates => Ok (map (fun c => Str (get_retail_event (date_of c))) dates))
                date_col new_col df dates _ R Hd eq_refl)
      as (d1 & out & _ & Ho & _ & _ & _ & Hg); [apply length_map|].
    exists out. split; [|assumption].
    rewrite (call_ext _ _ _ (fun r h => add_retail_event_feature_run r date_col new_col h)).
    now rewrite call_on_copy.
Qed.

Lemma retail_event_first_match_witness :
  ts_month (ts_of_civil 2024 12 25) = 12
  /\ get_retail_event (Some (ts_of_civil 2024 12 25)) = "christmas_dec".
Proof.
  split; [reflexivity|].
  apply (proj1 (proj2 (retail_event_first_match (ts_of_civil 2024 12 25)))).
  reflexivity.
Defined.



(** C5.  The code misses the claim on the last day of a range: at noon
    of 2024-04-09, the last day of Ramadan 2024 in the table, the date
    lies in the range when compared as a date, as the claim and the
    docstring of [add_is_ramadan_feature] have it, but [is_ramadan] is
    false. *)
Lemma holiday_feature_not_date_only :
  let t := ts_of_civil 2024 4 9 + 12 * 3600 * 1000000000 in
  contains_date (holiday_table Ramadan) t = true
  /\ call (fun r => add_is_ramadan_feature r "Date" "is_ramadan")
          (mkFrame ["Date"] [[Time t]])
     = Ok (mkFrame ["Date"; "is_ramadan"] [[Time t; Bool false]]).
Proof. split; vm_compute; reflexivity. Qed.

(** * The order of cells and keys *)

Section CompareFacts.
Context {A : Type} (cmp : A -> A -> comparison) `{!CompareLaws cmp}.

Lemma cmp_eq_r x y z : cmp x y = Eq -> cmp z x = cmp z y.
Proof.
  intros H. rewrite (cmp_antisym x z), (cmp_antisym y z).
  now rewrite (cmp_eq_l x y z H).
Qed.

Lemma cmp_eq_sym x y : cmp x y = Eq -> cmp y x = Eq.
Proof. intros H. rewrite cmp_antisym, H. reflexivity. Qed.

Lemma cmp_gt_lt x y : cmp x y = Gt -> cmp y x = Lt.
Proof. intros H. rewrite cmp_antisym, H. reflexivity. Qed.

Lemma cmp_lt_gt x y : cmp x y = Lt -> cmp y x = Gt.
Proof. intros H. rewrite cmp_antisym, H. reflexivity. Qed.

Lemma leb_of_refl x : leb_of cmp x x = true.
Proof. unfold leb_of. now rewrite cmp_refl. Qed.

Lemma leb_of_total x y : leb_of cmp x y = false -> leb_of cmp y x = true.
Proof.
  unfold leb_of. destruct (cmp x y) eqn:E; try discriminate.
  now rewrite (cmp_gt_lt _ _ E).
Qed.

Lemma leb_of_trans x y z :
  leb_of cmp x y = true -> leb_of cmp y z = true -> leb_of cmp x z = true.
Proof.
  unfold leb_of. destruct (cmp x y) eqn:Exy; try discriminate; intros _.
  - now rewrite (cmp_eq_l _ _ z Exy).
  - destruct (cmp y z) eqn:Eyz; try discriminate; intros _.
    + now rewrite <- (cmp_eq_r _ _ x Eyz), Exy.
    + now rewrite (cmp_trans _ _ _ Exy Eyz).
Qed.

Lemma eqb_of_refl x : eqb_of cmp x x = true.
Proof. unfold eqb_of. now rewrite cmp_refl. Qed.

Lemma eqb_of_sym x y : eqb_of cmp x y = eqb_of cmp y x.
Proof.
  unfold eqb_of. rewrite (cmp_antisym y x). now destruct (cmp y x).
Qed.

Lemma eqb_of_true x y : eqb_of cmp x y = true <-> cmp x y = Eq.
Proof. unfold eqb_of. destruct (cmp x y); split; congruence. Qed.

Lemma eqb_of_l x y z : eqb_of cmp x y = true -> eqb_of cmp x z = eqb_of cmp y z.
Proof.
  intros H. apply eqb_of_true in H. unfold eqb_of. now rewrite (cmp_eq_l _ _ z H).
Qed.

Lemma eqb_of_r x y z : eqb_of cmp x y = true -> eqb_of cmp z x = eqb_of cmp z y.
Proof.
  intros H. apply eqb_of_true in H. unfold eqb_of. now rewrite (cmp_eq_r _ _ z H).
Qed.

Lemma eqb_of_leb x y : eqb_of cmp x y = true -> leb_of cmp x y = true.
Proof. unfold eqb_of, leb_of. now destruct (cmp x y). Qed.
End CompareFacts.

#[export] Instance Z_compare_laws : CompareLaws Z.compare.
Proof.
  split.
  - apply Z.compare_refl.
  - apply Z.compare_antisym.
  - intros x y z. rewrite !Z.compare_lt_iff. lia.
  - intros x y z H. apply Z.compare_eq in H. now subst.
Qed.

#[export] Instance nat_compare_laws : CompareLaws Nat.compare.
Proof.
  split.
  - apply Nat.compare_refl.
  - apply Nat.compare_antisym.
  - intros x y z. rewrite !Nat.compare_lt_iff. lia.
  - intros x y z H. apply Nat.compare_eq in H. now subst.
Qed.

#[export] Instance Q_compare_laws : CompareLaws Qcompare.
Proof.
  split.
  - intros x. now apply Qeq_alt.
  - intros x y. symmetry. apply Qcompare_antisym.
  - intros x y z. rewrite <- !Qlt_alt. apply Qlt_trans.
  - intros x y z H. apply Qeq_alt in H. now rewrite H.
Qed.

Lemma ascii_compare_refl (a : ascii) : Ascii.compare a a = Eq.
Proof. unfold Ascii.compare. apply N.compare_refl. Qed.

Lemma string_compare_refl (s : string) : String.compare s s = Eq.
Proof.
  induction s as [|a s IH]; simpl; [reflexivity|].
  now rewrite ascii_compare_refl.
Qed.

#[export] Instance string_compare_laws : CompareLaws String.compare.
Proof.
  split.
  - apply string_compare_refl.
  - intros x y. apply String.compare_antisym.
  - intros x y z Hxy Hyz.
    apply String_as_OT.cmp_lt. apply String_as_OT.cmp_lt in Hxy, Hyz.
    now apply (String_as_OT.lt_trans x y z).
  - intros x y z H. apply String.compare_eq_iff in H. now subst.
Qed.

Lemma cell_compare_kind a b :
  kind a <> kind b -> cell_compare a b = Nat.compare (kind a) (kind b).
Proof. destruct a, b; simpl; intros H; try reflexivity; congruence. Qed.

Lemma cell_compare_Eq_kind a b : cell_compare a b = Eq -> kind a = kind b.
Proof.
  destruct a, b; simpl; intros H; try reflexivity; discriminate.
Qed.

#[export] Instance cell_compare_laws : CompareLaws cell_compare.
Proof.
  split.
  - intros []; simpl; try apply cmp_refl; try reflexivity; exact _.
  - intros [] []; simpl; try reflexivity; apply cmp_antisym.
  - intros [] [] []; simpl; intros H1 H2; try discriminate; try reflexivity;
      eapply cmp_trans; eassumption.
  - intros [] [] []; simpl; intros H; try discriminate; try reflexivity;
      now apply cmp_eq_l.
Qed.

#[export] Instance key_compare_laws : CompareLaws key_compare.
Proof.
  split.
  - induction x as [|a x IH]; simpl; [reflexivity|].
    now rewrite (cmp_refl (cmp := cell_compare)).
  - induction x as [|a x IH]; intros [|b y]; simpl; try reflexivity.
    rewrite (cmp_antisym (cmp := cell_compare) a b).
    destruct (cell_compare a b); simpl; try reflexivity. apply IH.
  - induction x as [|a x IH]; intros [|b y] [|c z]; simpl; try discriminate;
      try reflexivity.
    destruct (cell_compare a b) eqn:Eab; try discriminate.
    + rewrite (cmp_eq_l _ _ c Eab).
      destruct (cell_compare b c); try discriminate; [apply IH | reflexivity].
    + intros _. destruct (cell_compare b c) eqn:Ebc; try discriminate.
      * intros _. now rewrite <- (cmp_eq_r cell_compare _ _ a Ebc), Eab.
      * intros _. now rewrite (cmp_trans _ _ _ Eab Ebc).
  - induction x as [|a x IH]; intros [|b y] [|c z]; simpl; try discriminate;
      try reflexivity.
    destruct (cell_compare a b) eqn:Eab; try discriminate.
    rewrite (cmp_eq_l _ _ c Eab). intros H.
    destruct (cell_compare b c); try reflexivity. now apply IH.
Qed.

Lemma key_leb_of : key_leb = leb_of key_compare.
Proof. reflexivity. Qed.

Lemma key_eqb_of : key_eqb = eqb_of key_compare.
Proof. reflexivity. Qed.

Lemma key_eqb_refl k : key_eqb k k = true.
Proof. apply (eqb_of_refl key_compare). Qed.

Lemma key_eqb_sym k k' : key_eqb k k' = key_eqb k' k.
Proof. apply (eqb_of_sym key_compare). Qed.

Lemma key_eqb_l k k' x : key_eqb k k' = true -> key_eqb k x = key_eqb k' x.
Proof. apply (eqb_of_l key_compare). Qed.

Lemma key_eqb_r k k' x : key_eqb k k' = true -> key_eqb x k = key_eqb x k'.
Proof. apply (eqb_of_r key_compare). Qed.

(** A key extended by one more component is compared on the component
    when the keys are equal. *)
Lemma key_compare_snoc k k' a b :
  length k = length k' ->
  key_compare (k ++ [a]) (k' ++ [b]) =
  match key_compare k k' with
  | Eq => cell_compare a b
  | c => c
  end.
Proof.
  revert k'. induction k as [|x k IH]; intros [|y k'] H; simpl in *;
    try discriminate.
  - now destruct (cell_compare a b).
  - destruct (cell_compare x y); try reflexivity. apply IH. lia.
Qed.

Lemma key_compare_Eq_has_nan k k' :
  key_compare k k' = Eq -> key_has_nan k = key_has_nan k'.
Proof.
  revert k'. induction k as [|a k IH]; intros [|b k']; simpl; try discriminate;
    try reflexivity.
  destruct (cell_compare a b) eqn:E; try discriminate.
  intros H. rewrite (IH _ H). f_equal.
  apply cell_compare_Eq_kind in E. destruct a, b; simpl in *; congruence.
Qed.

(** * Stable sorting *)

(** A list whose elements are pairwise in order is left as it is. *)
Lemma stable_sort_id {A} (leb : A -> A -> bool) l :
  ForallOrdPairs (fun x y => leb x y = true) l -> stable_sort leb l = l.
Proof.
  induction 1 as [|x l Hx _ IH]; simpl; [reflexivity|].
  rewrite IH. destruct l as [|y l]; simpl; [reflexivity|].
  inversion Hx as [|? ? Hy _]; subst. now rewrite Hy.
Qed.

Section SortFacts.
Context {A : Type} (leb : A -> A -> bool).

Lemma insert_perm x l : Permutation (insert leb x l) (x :: l).
Proof.
  induction l as [|y l IH]; simpl; [reflexivity|].
  destruct (leb x y); [reflexivity|].
  rewrite IH. apply perm_swap.
Qed.

Lemma stable_sort_perm l : Permutation (stable_sort leb l) l.
Proof.
  induction l as [|x l IH]; simpl; [reflexivity|].
  rewrite insert_perm. now constructor.
Qed.

Lemma stable_sort_length l : length (stable_sort leb l) = length l.
Proof. apply Permutation_length, stable_sort_perm. Qed.

Lemma stable_sort_In x l : In x (stable_sort leb l) <-> In x l.
Proof.
  split; apply Permutation_in; [|symmetry]; apply stable_sort_perm.
Qed.

Hypothesis leb_total : forall x y, leb x y = false -> leb y x = true.
Hypothesis leb_trans :
  forall x y z, leb x y = true -> leb y z = true -> leb x z = true.

Lemma insert_sorted x l :
  StronglySorted (fun a b => leb a b = true) l ->
  StronglySorted (fun a b => leb a b = true) (insert leb x l).
Proof.
  induction 1 as [|y l Hs IH Hy]; simpl.
  - constructor; constructor.
  - destruct (leb x y) eqn:E.
    + constructor; [now constructor|].
      constructor; [assumption|].
      eapply Forall_impl; [|exact Hy]. intros z Hz. now apply (leb_trans x y z).
    + constructor; [assumption|].
      rewrite Forall_forall. intros z Hz.
      apply (Permutation_in _ (insert_perm x l)) in Hz.
      destruct Hz as [<-|Hz]; [now apply leb_total|].
      rewrite Forall_forall in Hy. now apply Hy.
Qed.

Lemma stable_sort_sorted l :
  StronglySorted (fun a b => leb a b = true) (stable_sort leb l).
Proof.
  induction l as [|x l IH]; simpl; [constructor | now apply insert_sorted].
Qed.

(** Stability.  On the elements selected by [p] the order [leb] is the
    order [leb']: selecting after the sort is sorting the selection. *)
Section Selection.
Variables (p : A -> bool) (leb' : A -> A -> bool).
Hypothesis agree :
  forall x y, p x = true -> p y = true -> leb x y = leb' x y.

Lemma filter_insert x l :
  StronglySorted (fun a b => leb a b = true) l ->
  filter p (insert leb x l) =
  if p x then insert leb' x (filter p l) else filter p l.
Proof.
  induction 1 as [|y l Hs IH Hy]; simpl.
  - now destruct (p x).
  - destruct (leb x y) eqn:E; simpl.
    + destruct (p x) eqn:Px; [|reflexivity].
      destruct (p y) eqn:Py; simpl.
      * now rewrite <- (agree x y Px Py), E.
      * destruct (filter p l) as [|z fl] eqn:Ef; simpl; [reflexivity|].
        assert (Hz : In z (filter p l)) by (rewrite Ef; now left).
        apply filter_In in Hz. destruct Hz as [Hz Pz].
        rewrite Forall_forall in Hy.
        rewrite <- (agree x z Px Pz).
        now rewrite (leb_trans x y z E (Hy z Hz)).
    + rewrite IH. destruct (p y) eqn:Py; simpl; [|reflexivity].
      destruct (p x) eqn:Px; [|reflexivity].
      now rewrite <- (agree x y Px Py), E.
Qed.

Lemma filter_stable_sort l :
  filter p (stable_sort leb l) = stable_sort leb' (filter p l).
Proof.
  induction l as [|x l IH]; simpl; [reflexivity|].
  rewrite filter_insert by apply stable_sort_sorted.
  rewrite IH. now destruct (p x).
Qed.
End Selection.

(** Elements that the order does not tell apart keep their input
    order. *)
Lemma stable_sort_stable (p : A -> bool) l :
  (forall x y, p x = true -> p y = true -> leb x y = true) ->
  filter p (stable_sort leb l) = filter p l.
Proof.
  intros H.
  rewrite (filter_stable_sort p (fun _ _ => true)).
  - apply stable_sort_id. clear. induction (filter p l) as [|x fl IH].
    + constructor.
    + constructor; [|assumption]. now apply Forall_forall.
  - intros x y Px Py. now apply H.
Qed.
End SortFacts.

Lemma StronglySorted_impl {A} (R R' : A -> A -> Prop) l :
  (forall x y, R x y -> R' x y) -> StronglySorted R l -> StronglySorted R' l.
Proof.
  intros H. induction 1 as [|x l _ IH Hx]; constructor; [assumption|].
  eapply Forall_impl; [|exact Hx]. intros y. apply H.
Qed.

(** * Groups *)

Lemma select_map {A B} (key : A -> Key) (f : A -> B) k l :
  select (map key l) k (map f l)
  = map f (filter (fun x => key_eqb (key x) k) l).
Proof.
  induction l as [|x l IH]; simpl; [reflexivity|].
  destruct (key_eqb (key x) k); simpl; now rewrite IH.
Qed.

Lemma select_ext {A} keys k k' (vals : list A) :
  key_eqb k k' = true -> select keys k vals = select keys k' vals.
Proof.
  intros H. revert vals. induction keys as [|x keys IH]; intros [|v vals]; simpl;
    try reflexivity.
  rewrite (key_eqb_r _ _ x H). now rewrite IH.
Qed.

Lemma select_length {A} keys k (vals : list A) :
  length vals = length keys ->
  length (select keys k vals)
  = length (filter (fun k' => key_eqb k' k) keys).
Proof.
  revert vals. induction keys as [|x keys IH]; intros [|v vals] H; simpl in *;
    try discriminate; try reflexivity.
  destruct (key_eqb x k); simpl; rewrite IH by lia; reflexivity.
Qed.

Lemma select_Forall {A} (P : A -> Prop) keys k vals :
  Forall P vals -> Forall P (select keys k vals).
Proof.
  intros H. revert keys. induction H as [|v vals Hv _ IH]; intros [|x keys];
    simpl; try constructor.
  destruct (key_eqb x k); [constructor; [assumption|] |]; apply IH.
Qed.

Lemma nth_skipn_cons {A} (l : list A) n d :
  (n < length l)%nat -> skipn n l = nth n l d :: skipn (S n) l.
Proof.
  revert n. induction l as [|x l IH]; intros [|n] H; simpl in *; try lia;
    try reflexivity.
  apply IH. lia.
Qed.

Section Transform.
Variables (f : Series -> Result Series) (F : Series -> Series).
Variables (keys : list Key) (vals : Series).
Hypothesis Hlen : length vals = length keys.
Hypothesis Hf : forall k, f (select keys k vals) = Ok (F (select keys k vals)).
Hypothesis HF : forall s, length (F s) = length s.

Let G (p : nat) : Cell :=
  let k := nth p keys [] in
  if key_has_nan k then NaN
  else nth (rank_in_group keys p) (F (select keys k vals)) NaN.

Lemma transform_eval :
  transform f (mkGrouped keys vals) = Ok (map G (seq 0 (length keys))).
Proof.
  unfold transform. simpl. rewrite <- rmapM_Ok_map. apply rmapM_ext_in.
  intros p _. unfold G. simpl. destruct (key_has_nan _); [reflexivity|].
  now rewrite Hf.
Qed.

Lemma select_transform_suffix k :
  key_has_nan k = false ->
  forall suf pre, keys = pre ++ suf ->
  select suf k (map G (seq (length pre) (length suf)))
  = skipn (length (filter (fun k' => key_eqb k' k) pre))
          (F (select keys k vals)).
Proof.
  intros Hk. induction suf as [|x suf IH]; intros pre E.
  - simpl. symmetry. apply skipn_all2.
    rewrite HF, select_length by assumption.
    rewrite E, app_nil_r. lia.
  - simpl. specialize (IH (pre ++ [x])).
    rewrite <- app_assoc in IH. specialize (IH E).
    rewrite length_app, Nat.add_comm in IH. simpl in IH.
    rewrite IH, filter_app, length_app. simpl.
    destruct (key_eqb x k) eqn:Ex; simpl.
    + rewrite Nat.add_comm. simpl.
      rewrite (nth_skipn_cons _ _ NaN).
      * f_equal. unfold G.
        assert (Hx : nth (length pre) keys [] = x).
        { rewrite E, app_nth2, Nat.sub_diag by lia. reflexivity. }
        rewrite Hx.
        assert (Hnan : key_has_nan x = false).
        { rewrite (key_compare_Eq_has_nan x k); [assumption|].
          now apply (eqb_of_true key_compare). }
        rewrite Hnan. rewrite (select_ext _ _ _ _ Ex).
        f_equal. unfold rank_in_group. rewrite Hx.
        rewrite E, firstn_app, Nat.sub_diag, firstn_all. simpl.
        rewrite app_nil_r. f_equal. apply filter_ext.
        intros k'. now apply key_eqb_r.
      * rewrite HF, select_length by assumption.
        rewrite E, filter_app, length_app. simpl. rewrite Ex. simpl. lia.
    + now rewrite Nat.add_0_r.
Qed.

(** The result of [transform], read group by group, is [F] of the
    group's values. *)
Lemma select_transform k res :
  key_has_nan k = false ->
  transform f (mkGrouped keys vals) = Ok res ->
  select keys k res = F (select keys k vals).
Proof.
  intros Hk H. rewrite transform_eval in H. injection H as <-.
  exact (select_transform_suffix k Hk keys [] eq_refl).
Qed.

Lemma transform_length res :
  transform f (mkGrouped keys vals) = Ok res -> length res = length keys.
Proof.
  rewrite transform_eval. intros H. injection H as <-.
  now rewrite length_map, length_seq.
Qed.
End Transform.

(** * Sorting a frame *)

Lemma col_indices_app cs cs' cols idxs :
  col_indices (cs ++ cs') cols = Ok idxs ->
  exists i1 i2, col_indices cs cols = Ok i1 /\ col_indices cs' cols = Ok i2
                /\ idxs = i1 ++ i2.
Proof.
  unfold col_indices. revert idxs. induction cs as [|c cs IH]; simpl; intros idxs H.
  - exists [], idxs. auto.
  - destruct (col_index c cols) as [j|]; simpl in *; [|discriminate].
    destruct (rmapM _ (cs ++ cs')) as [l|] eqn:E; simpl in H; [|discriminate].
    injection H as <-. destruct (IH _ eq_refl) as (i1 & i2 & -> & -> & ->).
    exists (j :: i1), i2. auto.
Qed.

Lemma col_indices_app_Ok cs cs' cols i1 i2 :
  col_indices cs cols = Ok i1 -> col_indices cs' cols = Ok i2 ->
  col_indices (cs ++ cs') cols = Ok (i1 ++ i2).
Proof.
  unfold col_indices. revert i1. induction cs as [|c cs IH]; simpl; intros i1 H1 H2.
  - now injection H1 as <-.
  - destruct (col_index c cols) as [j|]; simpl in *; [|discriminate].
    destruct (rmapM _ cs) as [l|] eqn:E; simpl in H1; [|discriminate].
    injection H1 as <-. now rewrite (IH _ eq_refl H2).
Qed.

Lemma col_indices_single c cols idxs :
  col_indices [c] cols = Ok idxs ->
  exists j, col_index c cols = Some j /\ idxs = [j].
Proof.
  unfold col_indices. simpl. destruct (col_index c cols) as [j|]; simpl;
    [|discriminate].
  intros H. injection H as <-. now exists j.
Qed.

Lemma col_indices_length cs cols idxs :
  col_indices cs cols = Ok idxs -> length idxs = length cs.
Proof. apply rmapM_length. Qed.

Lemma col_indices_Ok cs cols :
  (forall c, In c cs -> In c cols) -> exists idxs, col_indices cs cols = Ok idxs.
Proof.
  unfold col_indices. induction cs as [|c cs IH]; simpl; intros H.
  - now exists [].
  - destruct (col_index_In c cols) as [j ->]; [apply H; now left|].
    destruct IH as [idxs ->]; [intros; apply H; now right|].
    simpl. eauto.
Qed.

Lemma col_indices_In cs cols idxs c :
  col_indices cs cols = Ok idxs -> In c cs -> In c cols.
Proof.
  unfold col_indices. revert idxs. induction cs as [|c' cs IH]; simpl; intros idxs H Hin;
    [contradiction|].
  destruct (col_index c' cols) as [j|] eqn:Ej; simpl in H; [|discriminate].
  destruct (rmapM _ cs) as [l|] eqn:E; simpl in H; [|discriminate].
  destruct Hin as [<-|Hin]; [now apply (col_index_Some_In _ _ j) | now apply (IH l)].
Qed.

Lemma key_of_row_key d cs idxs row :
  col_indices cs (columns d) = Ok idxs -> key_of d cs row = row_key idxs row.
Proof.
  unfold col_indices, key_of, row_key, cell. revert idxs.
  induction cs as [|c cs IH]; simpl; intros idxs H.
  - now injection H as <-.
  - destruct (col_index c (columns d)) as [j|]; simpl in H; [|discriminate].
    destruct (rmapM _ cs) as [l|] eqn:E; simpl in H; [|discriminate].
    injection H as <-. simpl. now rewrite (IH _ eq_refl).
Qed.

Lemma row_key_app i1 i2 row : row_key (i1 ++ i2) row = row_key i1 row ++ row_key i2 row.
Proof. apply map_app. Qed.

Lemma row_key_length idxs row : length (row_key idxs row) = length idxs.
Proof. apply length_map. Qed.

Lemma sort_values_inv d by_ d2 :
  sort_values d by_ = Ok d2 ->
  exists idxs, col_indices by_ (columns d) = Ok idxs
    /\ d2 = mkFrame (columns d)
              (stable_sort (fun r1 r2 => key_leb (row_key idxs r1) (row_key idxs r2))
                           (rows d)).
Proof.
  unfold sort_values. destruct (col_indices by_ (columns d)) as [idxs|]; simpl;
    [|discriminate].
  destruct (forallb _ idxs); [|discriminate].
  intros H. injection H as <-. now exists idxs.
Qed.

Lemma sort_values_columns d by_ d2 : sort_values d by_ = Ok d2 -> columns d2 = columns d.
Proof. intros H. destruct (sort_values_inv _ _ _ H) as (idxs & _ & ->). reflexivity. Qed.

Lemma sort_values_perm d by_ d2 :
  sort_values d by_ = Ok d2 -> Permutation (rows d2) (rows d).
Proof.
  intros H. destruct (sort_values_inv _ _ _ H) as (idxs & _ & ->).
  apply stable_sort_perm.
Qed.

Lemma sort_values_rect d by_ d2 : sort_values d by_ = Ok d2 -> rect d -> rect d2.
Proof.
  intros H R. unfold rect. rewrite (sort_values_columns _ _ _ H).
  eapply Permutation_Forall; [symmetry; apply (sort_values_perm _ _ _ H)|exact R].
Qed.

Lemma row_leb_total idxs (x y : list Cell) :
  key_leb (row_key idxs x) (row_key idxs y) = false ->
  key_leb (row_key idxs y) (row_key idxs x) = true.
Proof. apply (leb_of_total key_compare). Qed.

Lemma row_leb_trans idxs (x y z : list Cell) :
  key_leb (row_key idxs x) (row_key idxs y) = true ->
  key_leb (row_key idxs y) (row_key idxs z) = true ->
  key_leb (row_key idxs x) (row_key idxs z) = true.
Proof. apply (leb_of_trans key_compare). Qed.

(** The rows of one group, after the sort on the group columns followed
    by the date column, are the rows of the group sorted by date alone,
    stably. *)
Lemma group_rows_sorted d d2 group_cols date_col j k :
  sort_values d (group_cols ++ [date_col]) = Ok d2 ->
  col_index date_col (columns d) = Some j ->
  group_rows d2 group_cols k
  = stable_sort (fun r1 r2 => cell_leb (cell_at j r1) (cell_at j r2))
                (group_rows d group_cols k).
Proof.
  intros H Hj. destruct (sort_values_inv _ _ _ H) as (idxs & Hi & ->).
  destruct (col_indices_app _ _ _ _ Hi) as (gi & di & Hg & Hd & ->).
  destruct (col_indices_single _ _ _ Hd) as (j' & Hj' & ->).
  assert (j' = j) by congruence. subst j'.
  unfold group_rows. simpl.
  rewrite (filter_ext _ (fun row => key_eqb (row_key gi row) k)).
  2:{ intros row. f_equal. now apply key_of_row_key. }
  rewrite (filter_ext (fun row => key_eqb (key_of d group_cols row) k)
                      (fun row => key_eqb (row_key gi row) k)).
  2:{ intros row. now rewrite (key_of_row_key d group_cols gi row Hg). }
  apply filter_stable_sort.
  - intros x y. apply row_leb_total.
  - intros x y z. apply row_leb_trans.
  - intros x y Px Py. rewrite !row_key_app. simpl.
    unfold key_leb, cell_leb, leb_of.
    rewrite key_compare_snoc by now rewrite !row_key_length.
    assert (E : key_compare (row_key gi x) (row_key gi y) = Eq).
    { apply (eqb_of_true key_compare).
      rewrite <- key_eqb_of, (key_eqb_l _ _ _ Px), key_eqb_sym. exact Py. }
    now rewrite E.
Qed.

Lemma cell_leb_total a b : cell_leb a b = false -> cell_leb b a = true.
Proof. apply (leb_of_total cell_compare). Qed.

Lemma cell_leb_trans a b c :
  cell_leb a b = true -> cell_leb b c = true -> cell_leb a c = true.
Proof. apply (leb_of_trans cell_compare). Qed.

(** Rows of a group with equal dates keep the order they have in the
    frame that is sorted. *)
Lemma group_rows_stable d d2 group_cols date_col j k t :
  sort_values d (group_cols ++ [date_col]) = Ok d2 ->
  col_index date_col (columns d) = Some j ->
  filter (fun row => cell_eqb (cell_at j row) t) (group_rows d2 group_cols k)
  = filter (fun row => cell_eqb (cell_at j row) t) (group_rows d group_cols k).
Proof.
  intros H Hj. rewrite (group_rows_sorted _ _ _ _ _ _ H Hj).
  apply stable_sort_stable.
  - intros x y. apply cell_leb_total.
  - intros x y z. apply cell_leb_trans.
  - intros x y Px Py. apply (eqb_of_leb cell_compare).
    unfold cell_eqb in *. rewrite (eqb_of_l cell_compare _ _ _ Px).
    rewrite (eqb_of_sym cell_compare). exact Py.
Qed.

(** * sales.py: the grouped transforms *)

Lemma set_grouped_last h d group_cols value_col new_col f :
  set_grouped (length h) group_cols value_col new_col f (h ++ [d]) =
  match rbind (groupby d group_cols value_col) (fun g =>
        rbind (f g) (fun s => set_col d new_col s))
  with
  | Ok d' => Ok (tt, h ++ [d'])
  | Err e => Err e
  end.
Proof.
  unfold set_grouped, bind, lift. rewrite load_last.
  destruct (groupby d group_cols value_col) as [g|]; simpl; [|reflexivity].
  destruct (f g) as [s|]; simpl; [|reflexivity].
  apply setitem_last.
Qed.

Lemma grouped_run agg r date_col group_cols value_col new_col h :
  (df <- copy r ;;
   convert_dates df date_col ;;
   sort_values_inplace df (group_cols ++ [date_col]) ;;
   set_grouped df group_cols value_col new_col agg ;;
   ret df) h
  = on_copy (grouped_f agg date_col group_cols value_col new_col) r h.
Proof.
  unfold grouped_f, on_copy, copy, bind, load, alloc, ret, lift.
  destruct (nth_error h r) as [d|]; [|reflexivity].
  rewrite convert_dates_last.
  destruct (convert_dates_f date_col d) as [d1|]; simpl; [|reflexivity].
  rewrite sort_values_inplace_last.
  destruct (sort_values d1 _) as [d2|]; simpl; [|reflexivity].
  rewrite set_grouped_last.
  destruct (groupby d2 group_cols value_col) as [g|]; simpl; [|reflexivity].
  destruct (agg g) as [s|]; simpl; [|reflexivity].
  destruct (set_col d2 new_col s); reflexivity.
Qed.

Lemma grouped_op_run op r date_col group_cols value_col new_col h :
  grouped_op op r date_col group_cols value_col new_col h
  = on_copy (grouped_f (grouped_agg op) date_col group_cols value_col new_col) r h.
Proof. destruct op; apply grouped_run. Qed.

Lemma col_indices_Forall2 cs cols idxs :
  col_indices cs cols = Ok idxs ->
  Forall2 (fun c i => col_index c cols = Some i) cs idxs.
Proof.
  unfold col_indices. intros H. apply rmapM_Forall2 in H.
  eapply Forall2_impl; [|exact H]. simpl. intros c i Hc.
  destruct (col_index c cols); congruence.
Qed.

Lemma get_col_index d c j :
  col_index c (columns d) = Some j -> get_col d c = Ok (map (cell_at j) (rows d)).
Proof. intros H. unfold get_col. now rewrite H. Qed.

Lemma homogeneous_dates s : Forall is_date s -> homogeneous s = true.
Proof.
  unfold homogeneous. intros H.
  assert (Hf : Forall (fun c => kind c = 3%nat)
                      (filter (fun c => negb (is_nan c)) s)).
  { induction H as [|c s Hc _ IH]; simpl; [constructor|].
    destruct c; simpl in *; try contradiction; try assumption.
    constructor; [reflexivity | assumption]. }
  destruct (filter _ s) as [|c s']; [reflexivity|].
  inversion Hf as [|? ? Hc Hs]; subst.
  apply forallb_forall. intros c' Hc'. rewrite Forall_forall in Hs.
  rewrite (Hs _ Hc'), Hc. reflexivity.
Qed.

Lemma Forall2_In_r {A B} (R : A -> B -> Prop) l l' y :
  Forall2 R l l' -> In y l' -> exists x, In x l /\ R x y.
Proof.
  induction 1 as [|a b l l' Hab _ IH]; simpl; [contradiction|].
  intros [<-|Hin].
  - exists a. auto.
  - destruct (IH Hin) as (x & Hx & Hr). exists x. auto.
Qed.

Lemma forallb_perm {A} (p : A -> bool) l l' :
  Permutation l l' -> forallb p l = forallb p l'.
Proof.
  induction 1; simpl; try congruence.
  - destruct (p x), (p y); reflexivity.
Qed.

(** What the hypothesis [observation_table] gives, taken apart. *)
Section Observations.
Variables (df : DataFrame) (date_col : string) (group_cols : list string)
          (value_col : string).
Hypothesis Hobs : observation_table df date_col group_cols value_col = true.

Lemma obs_rect : rect df.
Proof.
  unfold observation_table in Hobs. apply rectb_rect.
  repeat (apply andb_prop in Hobs; destruct Hobs as [Hobs ?]). assumption.
Qed.

Lemma obs_groups : group_cols <> [].
Proof.
  unfold observation_table in Hobs.
  repeat (apply andb_prop in Hobs; destruct Hobs as [Hobs ?]).
  destruct group_cols; [discriminate | congruence].
Qed.

Lemma obs_dates : exists dates, rbind (get_col df date_col) to_datetime = Ok dates.
Proof.
  unfold observation_table in Hobs.
  repeat (apply andb_prop in Hobs; destruct Hobs as [Hobs ?]).
  destruct (rbind (get_col df date_col) to_datetime) as [dates|];
    [now exists dates | discriminate].
Qed.

Lemma obs_group_col c :
  In c group_cols ->
  exists s, get_col df c = Ok s /\ (c = date_col \/ homogeneous s = true).
Proof.
  intros Hin. unfold observation_table in Hobs.
  repeat (apply andb_prop in Hobs; destruct Hobs as [Hobs ?]).
  match goal with H : forallb _ group_cols = true |- _ =>
    rewrite forallb_forall in H; specialize (H c Hin) end.
  destruct (get_col df c) as [s|]; [|discriminate].
  exists s. split; [reflexivity|].
  match goal with H : (_ || _) = true |- _ => apply orb_prop in H; destruct H as [H|H] end.
  - left. now apply String.eqb_eq.
  - now right.
Qed.

Lemma obs_values :
  exists s, get_col df value_col = Ok s /\ forallb is_num s = true.
Proof.
  unfold observation_table in Hobs.
  repeat (apply andb_prop in Hobs; destruct Hobs as [Hobs ?]).
  destruct (get_col df value_col) as [s|]; [|discriminate].
  now exists s.
Qed.

Lemma obs_value_not_date : value_col <> date_col.
Proof.
  unfold observation_table in Hobs.
  repeat (apply andb_prop in Hobs; destruct Hobs as [Hobs ?]).
  intros ->. rewrite String.eqb_refl in *. discriminate.
Qed.

(** The conversion of the dates and the sort succeed, and the grouping
    sees the sorted frame. *)
Lemma obs_sorted :
  exists d1 d2 j gi,
    convert_dates_f date_col df = Ok d1
    /\ rect d1 /\ columns d1 = columns df
    /\ sort_values d1 (group_cols ++ [date_col]) = Ok d2
    /\ rect d2
    /\ col_index date_col (columns df) = Some j
    /\ col_indices group_cols (columns df) = Ok gi
    /\ forallb is_num (map (cell d2 value_col) (rows d2)) = true
    /\ groupby d2 group_cols value_col
       = Ok (mkGrouped (map (key_of d2 group_cols) (rows d2))
                       (map (cell d2 value_col) (rows d2))).
Proof.
  pose proof obs_rect as R.
  destruct obs_dates as [dates Hd].
  destruct (get_col df date_col) as [s0|] eqn:Hs0; simpl in Hd; [|discriminate].
  destruct (set_col_Ok df date_col dates) as [d1 H1].
  { rewrite (rmapM_length _ _ _ Hd). now apply (get_col_length _ date_col). }
  assert (Hc : convert_dates_f date_col df = Ok d1).
  { unfold convert_dates_f. rewrite Hs0. simpl. now rewrite Hd. }
  pose proof (convert_dates_rect _ _ _ Hc R) as R1.
  pose proof (convert_dates_columns _ _ _ Hc) as C1.
  pose proof (get_set_same _ _ _ _ H1 R) as G1.
  assert (Hdc : In date_col (columns df)) by now apply (get_col_In _ _ s0).
  destruct (col_index_In _ _ Hdc) as [j Hj].
  destruct (col_indices_Ok group_cols (columns df)) as [gi Hgi].
  { intros c Hin. destruct (obs_group_col c Hin) as (s & Hs & _).
    now apply (get_col_In _ _ s). }
  assert (Hby : col_indices (group_cols ++ [date_col]) (columns d1)
                = Ok (gi ++ [j])).
  { rewrite C1. apply col_indices_app_Ok; [assumption|].
    unfold col_indices. simpl. now rewrite Hj. }
  assert (Hhom : forallb (fun i => homogeneous (map (cell_at i) (rows d1)))
                         (gi ++ [j]) = true).
  { rewrite forallb_app. apply andb_true_intro. split.
    - apply forallb_forall. intros i Hi.
      destruct (Forall2_In_r _ _ _ _ (col_indices_Forall2 _ _ _ Hgi) Hi)
        as (c & Hin & Hci).
      rewrite <- C1 in Hci.
      pose proof (get_col_index d1 c i Hci) as Hg1.
      destruct (obs_group_col c Hin) as (s & Hs & [-> | Hh]).
      + rewrite G1 in Hg1. injection Hg1 as <-.
        apply homogeneous_dates. now apply (to_datetime_is_date s0).
      + destruct (string_dec c date_col) as [-> | Hne].
        * rewrite G1 in Hg1. injection Hg1 as <-.
          apply homogeneous_dates. now apply (to_datetime_is_date s0).
        * rewrite (get_set_other _ _ _ _ H1 R c Hne), Hs in Hg1.
          injection Hg1 as <-. exact Hh.
    - simpl. rewrite andb_true_r.
      rewrite <- C1 in Hj. pose proof (get_col_index d1 date_col j Hj) as Hg1.
      rewrite G1 in Hg1. injection Hg1 as <-.
      apply homogeneous_dates. now apply (to_datetime_is_date s0). }
  set (d2 := mkFrame (columns d1)
               (stable_sort (fun r1 r2 => key_leb (row_key (gi ++ [j]) r1)
                                                  (row_key (gi ++ [j]) r2))
                            (rows d1))).
  assert (Hs : sort_values d1 (group_cols ++ [date_col]) = Ok d2).
  { unfold sort_values. rewrite Hby. simpl. now rewrite Hhom. }
  pose proof (sort_values_rect _ _ _ Hs R1) as R2.
  destruct obs_values as (vs & Hvs & Hnum).
  pose proof (get_col_In _ _ _ Hvs) as Hvc.
  destruct (col_index_In _ _ Hvc) as [jv Hjv].
  assert (Hv1 : get_col d1 value_col = Ok vs).
  { rewrite (get_set_other _ _ _ _ H1 R value_col obs_value_not_date).
    exact Hvs. }
  assert (Hcell : forall row, cell d2 value_col row = cell_at jv row).
  { intros row. unfold cell. simpl. now rewrite C1, Hjv. }
  exists d1, d2, j, gi. repeat split; try assumption.
  - rewrite (map_ext _ _ Hcell).
    rewrite (forallb_perm _ _ (map (cell_at jv) (rows d1)))
      by (apply Permutation_map, stable_sort_perm).
    rewrite <- C1 in Hjv. rewrite (get_col_index d1 value_col jv Hjv) in Hv1.
    injection Hv1 as ->. exact Hnum.
  - unfold groupby. pose proof obs_groups as Hg.
    destruct group_cols as [|c0 cs0] eqn:Egc; [congruence|].
    rewrite <- Egc in *. simpl. rewrite C1, Hgi. simpl.
    unfold get_col. simpl. rewrite C1, Hjv. simpl.
    f_equal. f_equal.
    + apply map_ext. intros row. symmetry. apply key_of_row_key.
      simpl. now rewrite C1.
    + apply map_ext. intros row. symmetry. apply Hcell.
Qed.
End Observations.

Section Converted.
Variables (df : DataFrame) (date_col : string) (group_cols : list string)
          (value_col : string).
Hypothesis Hobs : observation_table df date_col group_cols value_col = true.

(** The frame after the conversion of the dates alone. *)
Lemma obs_converted :
  exists d1 j gi jv,
    convert_dates_f date_col df = Ok d1
    /\ rect d1 /\ columns d1 = columns df
    /\ col_index date_col (columns df) = Some j
    /\ Forall is_date (map (cell_at j) (rows d1))
    /\ col_indices group_cols (columns df) = Ok gi
    /\ col_index value_col (columns df) = Some jv
    /\ forallb is_num (map (cell_at jv) (rows d1)) = true.
Proof.
  pose proof (obs_rect _ _ _ _ Hobs) as R.
  destruct (obs_dates _ _ _ _ Hobs) as [dates Hd].
  destruct (get_col df date_col) as [s0|] eqn:Hs0; simpl in Hd; [|discriminate].
  destruct (set_col_Ok df date_col dates) as [d1 H1].
  { rewrite (rmapM_length _ _ _ Hd). now apply (get_col_length _ date_col). }
  assert (Hc : convert_dates_f date_col df = Ok d1).
  { unfold convert_dates_f. rewrite Hs0. simpl. now rewrite Hd. }
  pose proof (convert_dates_rect _ _ _ Hc R) as R1.
  pose proof (convert_dates_columns _ _ _ Hc) as C1.
  pose proof (get_set_same _ _ _ _ H1 R) as G1.
  assert (Hdc : In date_col (columns df)) by now apply (get_col_In _ _ s0).
  destruct (col_index_In _ _ Hdc) as [j Hj].
  destruct (col_indices_Ok group_cols (columns df)) as [gi Hgi].
  { intros c Hin. destruct (obs_group_col _ _ _ _ Hobs c Hin) as (s & Hs & _).
    now apply (get_col_In _ _ s). }
  destruct (obs_values _ _ _ _ Hobs) as (vs & Hvs & Hnum).
  destruct (col_index_In _ _ (get_col_In _ _ _ Hvs)) as [jv Hjv].
  exists d1, j, gi, jv. repeat split; try assumption.
  - rewrite <- C1 in Hj. rewrite (get_col_index d1 date_col j Hj) in G1.
    injection G1 as ->. now apply (to_datetime_is_date s0).
  - assert (Hv1 : get_col d1 value_col = Ok vs).
    { rewrite (get_set_other _ _ _ _ H1 R value_col
                 (obs_value_not_date _ _ _ _ Hobs)). exact Hvs. }
    rewrite <- C1 in Hjv. rewrite (get_col_index d1 value_col jv Hjv) in Hv1.
    injection Hv1 as ->. exact Hnum.
Qed.
End Converted.

(** * A column appended to a frame *)

Section FreshColumn.
Variables (d out : DataFrame) (nc : string) (s : Series).
Hypothesis Hfresh : ~ In nc (columns d).
Hypothesis Hset : set_col d nc s = Ok out.
Hypothesis Hrect : rect d.

Lemma fresh_columns : columns out = columns d ++ [nc].
Proof. now apply (set_col_columns_new _ _ _ _ Hset). Qed.

Lemma fresh_rows : rows out = zip_with (fun row v => row ++ [v]) (rows d) s.
Proof.
  unfold set_col in Hset. rewrite (col_index_None _ _ Hfresh) in Hset.
  destruct (Nat.eqb _ _); [|discriminate]. now injection Hset as <-.
Qed.

Lemma fresh_cell_old c row v :
  In c (columns d) -> length row = length (columns d) ->
  cell out c (row ++ [v]) = cell d c row.
Proof.
  intros Hc Hl. unfold cell. rewrite fresh_columns.
  destruct (col_index_In _ _ Hc) as [j Hj].
  rewrite (col_index_app_l _ _ _ _ Hj), Hj.
  apply cell_at_app_l. rewrite Hl. now apply (col_index_lt c).
Qed.

Lemma fresh_cell_new row v :
  length row = length (columns d) -> cell out nc (row ++ [v]) = v.
Proof.
  intros Hl. unfold cell. rewrite fresh_columns.
  rewrite (col_index_app_new _ _ Hfresh), <- Hl. apply cell_at_app_new.
Qed.

Lemma fresh_key_of cs row v :
  (forall c, In c cs -> In c (columns d)) ->
  length row = length (columns d) ->
  key_of out cs (row ++ [v]) = key_of d cs row.
Proof.
  intros Hcs Hl. unfold key_of. apply map_ext_in. intros c Hc.
  apply fresh_cell_old; auto.
Qed.

Variables (group_cols : list string) (k : Key).
Hypothesis Hgroups : forall c, In c group_cols -> In c (columns d).

Let keys := map (key_of d group_cols) (rows d).

Lemma fresh_group_rows_aux (g : list Cell -> Cell) (g0 : list Cell -> Cell -> Cell) :
  (forall row v, length row = length (columns d) -> g (row ++ [v]) = g0 row v) ->
  forall rs vs,
    Forall (fun row => length row = length (columns d)) rs ->
    length vs = length rs ->
    map g (filter (fun row => key_eqb (key_of out group_cols row) k)
                  (zip_with (fun row v => row ++ [v]) rs vs))
    = select (map (key_of d group_cols) rs) k (zip_with g0 rs vs).
Proof.
  intros Hg. induction rs as [|row rs IH]; intros [|v vs] HR Hl; simpl in *;
    try discriminate; try reflexivity.
  inversion HR as [|? ? Hrow HR']; subst.
  rewrite (fresh_key_of _ _ _ Hgroups Hrow).
  destruct (key_eqb (key_of d group_cols row) k); simpl.
  - rewrite Hg by assumption. f_equal. apply IH; [assumption | lia].
  - apply IH; [assumption | lia].
Qed.

(** The new cells of the rows of a group are the part of [s] that
    belongs to the group. *)
Lemma fresh_group_new :
  map (cell out nc) (group_rows out group_cols k) = select keys k s.
Proof.
  unfold group_rows. rewrite fresh_rows.
  rewrite (fresh_group_rows_aux (cell out nc) (fun _ v => v)).
  - unfold keys. f_equal. apply zip_with_snd.
    apply (set_col_length _ _ _ _ Hset).
  - intros row v Hl. now apply fresh_cell_new.
  - exact Hrect.
  - apply (set_col_length _ _ _ _ Hset).
Qed.

(** The other cells are those of the rows of the group in [d]. *)
Lemma fresh_group_old c :
  In c (columns d) ->
  map (cell out c) (group_rows out group_cols k)
  = map (cell d c) (group_rows d group_cols k).
Proof.
  intros Hc. unfold group_rows. rewrite fresh_rows.
  rewrite (fresh_group_rows_aux (cell out c) (fun row _ => cell d c row)).
  - rewrite <- select_map. f_equal.
    rewrite <- (map_zip_with_l (fun row _ => row) (cell d c)).
    f_equal. apply zip_with_fst. apply (set_col_length _ _ _ _ Hset).
  - intros row v Hl. now apply fresh_cell_old.
  - exact Hrect.
  - apply (set_col_length _ _ _ _ Hset).
Qed.

Lemma fresh_group_length :
  length (group_rows out group_cols k) = length (group_rows d group_cols k).
Proof.
  rewrite <- (length_map (cell out nc)), fresh_group_new.
  unfold keys. rewrite select_length.
  - unfold group_rows. clear. induction (rows d) as [|row rs IH]; simpl;
      [reflexivity|].
    destruct (key_eqb _ k); simpl; now rewrite IH.
  - rewrite length_map. apply (set_col_length _ _ _ _ Hset).
Qed.
End FreshColumn.

(** * Windows *)

Lemma window_map {A B} (f : A -> B) N i l :
  window N i (map f l) = map f (window N i l).
Proof. unfold window. now rewrite firstn_map, skipn_map. Qed.

Lemma window_length {A} N i (l : list A) :
  (i < length l)%nat -> length (window N i l) = Nat.min N (i + 1).
Proof. intros H. unfold window. rewrite length_skipn, length_firstn. lia. Qed.

Lemma window_first {A} N (l : list A) x :
  (0 < N)%nat -> nth_error l 0 = Some x -> window N 0 l = [x].
Proof.
  intros HN H. unfold window. destruct l as [|y l]; [discriminate|].
  injection H as ->. replace (0 + 1 - N)%nat with 0%nat by lia. reflexivity.
Qed.

Lemma observed_some l : observed (map Some l) = l.
Proof. induction l as [|q l IH]; simpl; [reflexivity | now rewrite IH]. Qed.

Lemma to_float_nums s :
  forallb is_num s = true ->
  rmapM to_float s = Ok (map (fun c => Some (num c)) s).
Proof.
  intros H. rewrite <- rmapM_Ok_map. apply rmapM_ext_in. intros c Hc.
  rewrite forallb_forall in H. specialize (H c Hc).
  destruct c; simpl in *; try discriminate. reflexivity.
Qed.

Lemma rolling_nums agg N s :
  forallb is_num s = true ->
  rolling agg N s
  = Ok (map (fun i => agg (map Some (window N i (map num s))))
            (seq 0 (length s))).
Proof.
  intros H. unfold rolling. rewrite (to_float_nums _ H). simpl.
  rewrite length_map. f_equal. apply map_ext. intros i.
  rewrite <- window_map. f_equal. now rewrite map_map.
Qed.

Lemma forallb_select {A} (p : A -> bool) keys k vals :
  forallb p vals = true -> forallb p (select keys k vals) = true.
Proof.
  revert keys. induction vals as [|v vals IH]; intros [|x keys] H; simpl in *;
    try reflexivity.
  apply andb_prop in H. destruct H as [Hv H].
  destruct (key_eqb x k); simpl; [rewrite Hv; simpl|]; now apply IH.
Qed.

Lemma shift_length n s : length (shift n s) = length s.
Proof.
  unfold shift. rewrite length_firstn, length_app, repeat_length. lia.
Qed.

Lemma shift_nth n s i :
  (i < length s)%nat ->
  nth i (shift n s) NaN = if (i <? n)%nat then NaN else nth (i - n) s NaN.
Proof.
  intros H. unfold shift. rewrite nth_firstn.
  destruct (Nat.ltb_spec i (length s)) as [_|]; [|lia].
  destruct (Nat.ltb_spec i n) as [Hlt|Hge].
  - rewrite app_nth1 by (rewrite repeat_length; lia).
    apply nth_repeat.
  - rewrite app_nth2 by (rewrite repeat_length; lia).
    now rewrite repeat_length.
Qed.

Lemma window_In {A} N i (l : list A) x : In x (window N i l) -> In x l.
Proof.
  unfold window. intros H.
  rewrite <- (firstn_skipn (i + 1) l). apply in_or_app. left.
  rewrite <- (firstn_skipn (i + 1 - N) (firstn (i + 1) l)).
  apply in_or_app. now right.
Qed.

(** * The grouped engine on a table of observations *)

Lemma rolling_fun_length agg N s : length (rolling_fun agg N s) = length s.
Proof. unfold rolling_fun. now rewrite length_map, length_seq. Qed.

Lemma group_fun_length op s : length (group_fun op s) = length s.
Proof. destruct op; simpl; first [apply rolling_fun_length | apply shift_length]. Qed.

Lemma grouped_agg_spec op keys vals :
  length vals = length keys ->
  forallb is_num vals = true ->
  exists res, grouped_agg op (mkGrouped keys vals) = Ok res
              /\ length res = length keys
              /\ forall k, key_has_nan k = false ->
                           select keys k res = group_fun op (select keys k vals).
Proof.
  intros Hl Hn.
  assert (Hroll : forall agg N k,
            rolling agg N (select keys k vals)
            = Ok (rolling_fun agg N (select keys k vals))).
  { intros agg N k. apply rolling_nums. now apply forallb_select. }
  assert (T : forall f F,
            (forall k, f (select keys k vals) = Ok (F (select keys k vals))) ->
            (forall s, length (F s) = length s) ->
            exists res, transform f (mkGrouped keys vals) = Ok res
                        /\ length res = length keys
                        /\ forall k, key_has_nan k = false ->
                                     select keys k res = F (select keys k vals)).
  { intros f F Hf HF.
    exists (map (fun p =>
                   let k := nth p keys [] in
                   if key_has_nan k then NaN
                   else nth (rank_in_group keys p) (F (select keys k vals)) NaN)
                (seq 0 (length keys))).
    pose proof (transform_eval f F keys vals Hf) as E.
    split; [exact E|]. split.
    - now rewrite length_map, length_seq.
    - intros k Hk. now apply (select_transform f F keys vals Hl Hf HF). }
  destruct op; simpl;
    first [ apply T; [intros k; apply Hroll | apply rolling_fun_length]
          | apply T; [reflexivity | intros s; apply shift_length] ].
Qed.

Section GroupedSpec.
Variables (op : GroupedOp) (df : DataFrame) (date_col : string)
          (group_cols : list string) (value_col new_col : string).
Hypothesis Hobs : observation_table df date_col group_cols value_col = true.
Hypothesis Hfresh : ~ In new_col (columns df).

Lemma grouped_spec :
  exists out d1 d2 j,
    call (fun r => grouped_op op r date_col group_cols value_col new_col) df
    = Ok out
    /\ convert_dates_f date_col df = Ok d1
    /\ sort_values d1 (group_cols ++ [date_col]) = Ok d2
    /\ col_index date_col (columns df) = Some j
    /\ columns d1 = columns df
    /\ columns out = columns df ++ [new_col]
    /\ (forall k, key_has_nan k = false ->
          map (cell out new_col) (group_rows out group_cols k)
          = group_fun op (map (cell out value_col) (group_rows out group_cols k)))
    /\ (forall k c, In c (columns df) ->
          map (cell out c) (group_rows out group_cols k)
          = map (cell d2 c) (group_rows d2 group_cols k))
    /\ (forall k, forallb is_num
                    (map (cell out value_col) (group_rows out group_cols k))
                  = true).
Proof.
  destruct (obs_sorted _ _ _ _ Hobs)
    as (d1 & d2 & j & gi & Hc & R1 & C1 & Hs & R2 & Hj & Hgi & Hnum & Hg).
  pose proof (sort_values_columns _ _ _ Hs) as C2.
  set (keys := map (key_of d2 group_cols) (rows d2)) in *.
  set (vals := map (cell d2 value_col) (rows d2)) in *.
  destruct (grouped_agg_spec op keys vals) as (res & Ha & Hl & Hsel).
  { unfold keys, vals. now rewrite !length_map. }
  { exact Hnum. }
  destruct (set_col_Ok d2 new_col res) as [out Ho].
  { rewrite Hl. unfold keys. apply length_map. }
  assert (Hfresh2 : ~ In new_col (columns d2)) by now rewrite C2, C1.
  assert (Hgc : forall c, In c group_cols -> In c (columns d2)).
  { intros c Hin. rewrite C2, C1. now apply (col_indices_In _ _ _ _ Hgi). }
  assert (Hvc : In value_col (columns d2)).
  { rewrite C2, C1. destruct (obs_values _ _ _ _ Hobs) as (s & Hs' & _).
    now apply (get_col_In _ _ s). }
  assert (Hold : forall k c, In c (columns df) ->
            map (cell out c) (group_rows out group_cols k)
            = map (cell d2 c) (group_rows d2 group_cols k)).
  { intros k c Hin. apply (fresh_group_old d2 out new_col res); auto.
    now rewrite C2, C1. }
  assert (Hvals : forall k,
            map (cell out value_col) (group_rows out group_cols k)
            = select keys k vals).
  { intros k. rewrite Hold by now rewrite <- C1, <- C2.
    unfold keys, vals. symmetry. apply select_map. }
  exists out, d1, d2, j. repeat split; try assumption.
  - rewrite (call_ext _ _ _ (fun r h =>
               grouped_op_run op r date_col group_cols value_col new_col h)).
    rewrite call_on_copy. unfold grouped_f.
    rewrite Hc. simpl. rewrite Hs. simpl. rewrite Hg. simpl.
    rewrite Ha. simpl. exact Ho.
  - rewrite (fresh_columns _ _ _ _ Hfresh2 Ho). now rewrite C2, C1.
  - intros k Hk. rewrite Hvals.
    rewrite (fresh_group_new d2 out new_col res Hfresh2 Ho R2 group_cols k Hgc).
    now apply Hsel.
  - intros k. rewrite Hvals. now apply forallb_select.
Qed.
End GroupedSpec.

(** * Claims on the grouped engine *)

(** C3. Every grouped transform first converts the dates ([d1]) and
    sorts the frame on the group columns followed by the date ([d2]); the
    new column is computed from the groups of [d2] and attached to [d2].
    In [d2] the rows of each group are the rows the group has in [d1],
    in ascending date order, and the rows of a group that have equal
    dates are in the order they had in the input. *)
Theorem grouped_engine_sorts_stably
    (op : GroupedOp) (df : DataFrame) (date_col : string)
    (group_cols : list string) (value_col new_col : string) :
  observation_table df date_col group_cols value_col = true ->
  exists out d1 d2 s,
    call (fun r => grouped_op op r date_col group_cols value_col new_col) df
    = Ok out
    /\ convert_dates_f date_col df = Ok d1
    /\ sort_values d1 (group_cols ++ [date_col]) = Ok d2
    /\ rbind (groupby d2 group_cols value_col) (grouped_agg op) = Ok s
    /\ set_col d2 new_col s = Ok out
    /\ (forall k, Permutation (group_rows d2 group_cols k)
                              (group_rows d1 group_cols k))
    /\ (forall k, StronglySorted
                    (fun r1 r2 => cell_leb (cell d1 date_col r1)
                                           (cell d1 date_col r2) = true)
                    (group_rows d2 group_cols k))
    /\ (forall k t,
          filter (fun row => cell_eqb (cell d1 date_col row) t)
                 (group_rows d2 group_cols k)
          = filter (fun row => cell_eqb (cell d1 date_col row) t)
                   (group_rows d1 group_cols k)).
Proof.
  intros Hobs.
  destruct (obs_sorted _ _ _ _ Hobs)
    as (d1 & d2 & j & gi & Hc & R1 & C1 & Hs & R2 & Hj & Hgi & Hnum & Hg).
  destruct (grouped_agg_spec op (map (key_of d2 group_cols) (rows d2))
              (map (cell d2 value_col) (rows d2)))
    as (s & Ha & Hl & _); [now rewrite !length_map | exact Hnum |].
  destruct (set_col_Ok d2 new_col s) as [out Ho].
  { rewrite Hl. apply length_map. }
  assert (Hcell : forall row, cell d1 date_col row = cell_at j row).
  { intros row. unfold cell. now rewrite C1, Hj. }
  rewrite <- C1 in Hj.
  exists out, d1, d2, s. repeat split.
  - rewrite (call_ext _ _ _ (fun r h =>
               grouped_op_run op r date_col group_cols value_col new_col h)).
    rewrite call_on_copy. unfold grouped_f.
    rewrite Hc. simpl. rewrite Hs. simpl. rewrite Hg. simpl.
    rewrite Ha. simpl. exact Ho.
  - exact Hc.
  - exact Hs.
  - rewrite Hg. simpl. exact Ha.
  - exact Ho.
  - intros k. rewrite (group_rows_sorted _ _ _ _ _ k Hs Hj).
    apply stable_sort_perm.
  - intros k. rewrite (group_rows_sorted _ _ _ _ _ k Hs Hj).
    eapply StronglySorted_impl; [|apply stable_sort_sorted].
    + intros r1 r2. simpl. now rewrite !Hcell.
    + intros x y. apply cell_leb_total.
    + intros x y z. apply cell_leb_trans.
  - intros k t.
    rewrite !(filter_ext _ _ (fun row => f_equal (fun c => cell_eqb c t) (Hcell row))).
    now apply (group_rows_stable d1 d2 group_cols date_col).
Qed.

Lemma grouped_engine_sorts_stably_witness :
  observation_table scenario_table "Date" ["Store No_"; "Item No_"] "Net Amount"
  = true
  /\ exists out d2,
       call (fun r => add_sales_lag_1d r "Date" ["Store No_"; "Item No_"]
                        "Net Amount" "sales_lag_1d") scenario_table = Ok out
       /\ set_col d2 "sales_lag_1d"
            [NaN; Int 10; Int 10; Int 10; Int 10; Int 10; Int 10; Int 10;
             Int 20; Int 20] = Ok out.
Proof.
  split; [vm_compute; reflexivity|].
  destruct (grouped_engine_sorts_stably Lag1 scenario_table "Date"
              ["Store No_"; "Item No_"] "Net Amount" "sales_lag_1d")
    as (out & d1 & d2 & s & Hc & Hd & Hs & Ha & Ho & _);
    [vm_compute; reflexivity|].
  exists out, d2. split; [exact Hc|].
  vm_compute in Hd. injection Hd as <-.
  vm_compute in Hs. injection Hs as <-.
  vm_compute in Ha. injection Ha as <-. exact Ho.
Defined.

(** * Values of the rolling statistics *)

Lemma nth_error_map_nth {A B} (f : A -> B) l i x d :
  nth_error l i = Some x -> nth i (map f l) d = f x.
Proof.
  intros H. rewrite (nth_indep _ d (f x)).
  - rewrite map_nth. f_equal. now apply nth_error_nth.
  - rewrite length_map. apply nth_error_Some. congruence.
Qed.

Lemma rolling_fun_nth agg N s i :
  (i < length s)%nat ->
  nth i (rolling_fun agg N s) NaN = agg (map Some (window N i (map num s))).
Proof.
  intros H. unfold rolling_fun.
  rewrite (nth_indep _ NaN (agg (map Some (window N 0 (map num s)))))
    by now rewrite length_map, length_seq.
  rewrite (map_nth (fun i => agg (map Some (window N i (map num s))))).
  now rewrite seq_nth.
Qed.

Lemma window_mean_some l :
  l <> [] -> window_mean 1 (map Some l) = Num (Qred (mean l)).
Proof.
  intros H. unfold window_mean. rewrite observed_some.
  destruct l; [congruence | reflexivity].
Qed.

Lemma window_std_some l :
  window_std 1 (map Some l)
  = if (Nat.ltb 1 (length l)) then Root (Qred (sample_var l)) else NaN.
Proof.
  unfold window_std. rewrite observed_some.
  destruct l as [|x [|y l]]; reflexivity.
Qed.

Lemma mean_single x : (mean [x] == x)%Q.
Proof. unfold mean, Qsum, Qlen. simpl. field. Qed.

Lemma Qsum_const l c :
  Forall (fun x => (x == c)%Q) l -> (Qsum l == Qlen l * c)%Q.
Proof.
  unfold Qsum, Qlen. induction 1 as [|x l Hx _ IH].
  - simpl. ring.
  - simpl fold_right. change (length (x :: l)) with (S (length l)).
    change (x == c)%Q in Hx. rewrite IH, Hx.
    rewrite Nat2Z.inj_succ. unfold Z.succ. rewrite inject_Z_plus. ring.
Qed.

Lemma Qlen_pos l : l <> [] -> ~ (Qlen l == 0)%Q.
Proof.
  intros H E. unfold Qlen in E. destruct l; [congruence|].
  unfold Qeq in E. simpl in E. lia.
Qed.

Lemma mean_const l c :
  l <> [] -> Forall (fun x => (x == c)%Q) l -> (mean l == c)%Q.
Proof.
  intros Hne H. unfold mean. rewrite (Qsum_const _ _ H).
  field. now apply Qlen_pos.
Qed.

Lemma Qsum_zero l : Forall (fun x => (x == 0)%Q) l -> (Qsum l == 0)%Q.
Proof. intros H. rewrite (Qsum_const _ _ H). ring. Qed.

(** The sample variance of equal values is zero. *)
Lemma sample_var_const l c :
  Forall (fun x => (x == c)%Q) l -> (sample_var l == 0)%Q.
Proof.
  intros H. unfold sample_var.
  destruct l as [|x l]; [reflexivity|].
  assert (Hm : (mean (x :: l) == c)%Q) by (apply mean_const; [discriminate | assumption]).
  rewrite Qsum_zero.
  - unfold Qdiv. ring.
  - apply Forall_forall. intros y Hy. apply in_map_iff in Hy.
    destruct Hy as (z & Hz & Hin). rewrite <- Hz.
    rewrite Forall_forall in H. pose proof (H z Hin) as Hzc.
    change (z == c)%Q in Hzc. rewrite Hzc, Hm. ring.
Qed.

Lemma Qred_zero q : (q == 0)%Q -> Qred q = 0%Q.
Proof. intros H. now rewrite (Qred_complete _ _ H). Qed.

Lemma nth_error_window_last {A} N i (l : list A) x :
  (0 < N)%nat -> nth_error l i = Some x -> window N i l <> [].
Proof.
  intros HN H E. apply (f_equal (@length A)) in E.
  rewrite window_length in E by (apply nth_error_Some; congruence).
  simpl in E. lia.
Qed.

(** C4. For N in 7, 15, 30, the rolling average of the row at index [i]
    of a group (in the order of the output, which is the date order of
    C3) is the mean of the values of the rows [max 0 (i-N+1)] to [i] of
    the group: a window of rows, not of days.  The first row of a group
    gets its own value.  In the scenario of the specification the 8th
    row gets mean(10,10,10,10,10,10,20) = 80/7. *)
Theorem rolling_avg_trailing_rows
    (w : AvgWindow) (df : DataFrame) (date_col : string)
    (group_cols : list string) (value_col new_col : string) :
  observation_table df date_col group_cols value_col = true ->
  ~ In new_col (columns df) ->
  (exists out,
     call (fun r => grouped_op (avg_op w) r date_col group_cols value_col new_col)
          df = Ok out
     /\ forall k i row,
          key_has_nan k = false ->
          nth_error (group_rows out group_cols k) i = Some row ->
          exists q,
            cell out new_col row = Num q
            /\ (q == mean (map (fun r => num (cell out value_col r))
                            (skipn (i + 1 - avg_size w)
                               (firstn (i + 1) (group_rows out group_cols k)))))%Q
            /\ (i = O -> (q == num (cell out value_col row))%Q))
  /\ (exists out row,
        call (fun r => add_rolling_avg_sales_7d r "Date" ["Store No_"; "Item No_"]
                         "Net Amount" "rolling_avg_7d") scenario_table = Ok out
        /\ nth_error (rows out) 7 = Some row
        /\ cell out "Date" row = Time (ts_of_civil 2024 1 8)
        /\ cell out "rolling_avg_7d" row = Num (80 # 7)
        /\ (80 # 7 == mean [10; 10; 10; 10; 10; 10; 20])%Q).
Proof.
  intros Hobs Hfresh. split.
  - destruct (grouped_spec (avg_op w) df date_col group_cols value_col new_col
                Hobs Hfresh)
      as (out & d1 & d2 & j & Hcall & _ & _ & _ & _ & _ & Hnew & _ & Hnum).
    exists out. split; [exact Hcall|].
    intros k i row Hk Hi.
    set (G := group_rows out group_cols k) in *.
    set (vals := map (cell out value_col) G).
    assert (Hlt : (i < length vals)%nat).
    { unfold vals. rewrite length_map. apply nth_error_Some. congruence. }
    assert (Hcell : cell out new_col row
                    = window_mean 1 (map Some (window (avg_size w) i (map num vals)))).
    { rewrite <- (nth_error_map_nth (cell out new_col) G i row NaN Hi).
      pose proof (Hnew k Hk) as Hn. fold G in Hn. fold vals in Hn. rewrite Hn.
      destruct w; apply (rolling_fun_nth _ _ vals i Hlt). }
    assert (Hw : window (avg_size w) i (map num vals)
                 = map (fun r => num (cell out value_col r))
                       (skipn (i + 1 - avg_size w) (firstn (i + 1) G))).
    { unfold vals. rewrite map_map. apply window_map. }
    assert (Hne : window (avg_size w) i (map num vals) <> []).
    { apply (nth_error_window_last _ _ _ (num (cell out value_col row))).
      - destruct w; simpl; lia.
      - unfold vals. rewrite map_map.
        rewrite (nth_error_map (fun r => num (cell out value_col r))). now rewrite Hi. }
    rewrite (window_mean_some _ Hne) in Hcell.
    exists (Qred (mean (window (avg_size w) i (map num vals)))).
    split; [exact Hcell|]. split.
    + rewrite Qred_correct. now rewrite Hw.
    + intros ->. rewrite Qred_correct.
      rewrite (window_first _ _ (num (cell out value_col row))).
      * apply mean_single.
      * destruct w; simpl; lia.
      * unfold vals. rewrite map_map.
        rewrite (nth_error_map (fun r => num (cell out value_col r))). now rewrite Hi.
  - eexists. eexists. split; [vm_compute; reflexivity|].
    split; [reflexivity|]. split; [reflexivity|]. split; reflexivity.
Qed.

(** C7. For N in 1, 7, 365, the lag of the row at index [i] of a group
    is missing when [i < N] and is otherwise the value of the row at
    index [i - N] of the same group. *)
Theorem sales_lag_row_offset
    (l : LagOffset) (df : DataFrame) (date_col : string)
    (group_cols : list string) (value_col new_col : string) :
  observation_table df date_col group_cols value_col = true ->
  ~ In new_col (columns df) ->
  exists out,
    call (fun r => grouped_op (lag_op l) r date_col group_cols value_col new_col)
         df = Ok out
    /\ forall k i row,
         key_has_nan k = false ->
         nth_error (group_rows out group_cols k) i = Some row ->
         ((i < lag_size l)%nat -> cell out new_col row = NaN)
         /\ ((lag_size l <= i)%nat ->
             exists row',
               nth_error (group_rows out group_cols k) (i - lag_size l) = Some row'
               /\ cell out new_col row = cell out value_col row').
Proof.
  intros Hobs Hfresh.
  destruct (grouped_spec (lag_op l) df date_col group_cols value_col new_col
              Hobs Hfresh)
    as (out & d1 & d2 & j & Hcall & _ & _ & _ & _ & _ & Hnew & _ & _).
  exists out. split; [exact Hcall|].
  intros k i row Hk Hi.
  set (G := group_rows out group_cols k) in *.
  set (vals := map (cell out value_col) G).
  assert (HiG : (i < length G)%nat) by (apply nth_error_Some; congruence).
  assert (Hlt : (i < length vals)%nat) by (unfold vals; now rewrite length_map).
  assert (Hcell : cell out new_col row
                  = if (i <? lag_size l)%nat then NaN
                    else nth (i - lag_size l) vals NaN).
  { rewrite <- (nth_error_map_nth (cell out new_col) G i row NaN Hi).
    pose proof (Hnew k Hk) as Hn. fold G in Hn. fold vals in Hn. rewrite Hn.
    destruct l; apply (shift_nth _ vals i Hlt). }
  split.
  - intros H. rewrite Hcell.
    destruct (Nat.ltb_spec i (lag_size l)); [reflexivity | lia].
  - intros H.
    destruct (nth_error G (i - lag_size l)) as [row'|] eqn:E.
    + exists row'. split; [reflexivity|]. rewrite Hcell.
      destruct (Nat.ltb_spec i (lag_size l)); [lia|].
      unfold vals. now apply nth_error_map_nth.
    + apply nth_error_None in E. lia.
Qed.

(** C6. The 15-row standard deviation of the row at index [i] of a group
    is missing at the first row of the group, whose window holds one
    observation, and is otherwise the square root ([Root]) of the sample
    variance of the values of the rows [max 0 (i-14)] to [i] of the
    group.  When the values of a group are all equal it is the root of
    zero on every row but the first. *)
Theorem std_dev_sample_window
    (df : DataFrame) (date_col : string)
    (group_cols : list string) (value_col new_col : string) :
  observation_table df date_col group_cols value_col = true ->
  ~ In new_col (columns df) ->
  exists out,
    call (fun r => add_std_dev_sales_15d r date_col group_cols value_col new_col)
         df = Ok out
    /\ forall k i row,
         key_has_nan k = false ->
         nth_error (group_rows out group_cols k) i = Some row ->
         (i = O -> cell out new_col row = NaN)
         /\ ((0 < i)%nat ->
             exists v,
               cell out new_col row = Root v
               /\ (v == sample_var
                          (map (fun r => num (cell out value_col r))
                               (skipn (i + 1 - 15)
                                  (firstn (i + 1) (group_rows out group_cols k)))))%Q)
         /\ ((0 < i)%nat ->
             forall c,
               Forall (fun r => (num (cell out value_col r) == c)%Q)
                      (group_rows out group_cols k) ->
               cell out new_col row = Root 0).
Proof.
  intros Hobs Hfresh.
  destruct (grouped_spec StdDev15 df date_col group_cols value_col new_col
              Hobs Hfresh)
    as (out & d1 & d2 & j & Hcall & _ & _ & _ & _ & _ & Hnew & _ & _).
  exists out. split; [exact Hcall|].
  intros k i row Hk Hi.
  set (G := group_rows out group_cols k) in *.
  set (vals := map (cell out value_col) G).
  assert (HiG : (i < length G)%nat) by (apply nth_error_Some; congruence).
  assert (Hlt : (i < length vals)%nat) by (unfold vals; now rewrite length_map).
  set (W := map (fun r => num (cell out value_col r))
                (skipn (i + 1 - 15) (firstn (i + 1) G))).
  assert (Hw : window 15 i (map num vals) = W).
  { unfold vals, W. rewrite map_map. apply window_map. }
  assert (HlW : length W = Nat.min 15 (i + 1)).
  { rewrite <- Hw. apply window_length. now rewrite length_map. }
  assert (Hcell : cell out new_col row
                  = if (1 <? length W)%nat then Root (Qred (sample_var W)) else NaN).
  { rewrite <- (nth_error_map_nth (cell out new_col) G i row NaN Hi).
    pose proof (Hnew k Hk) as Hn. fold G in Hn. fold vals in Hn. rewrite Hn. simpl.
    rewrite (rolling_fun_nth _ _ vals i Hlt), Hw. apply window_std_some. }
  rewrite Hcell, HlW. split; [|split].
  - intros ->. reflexivity.
  - intros Hpos. destruct (Nat.ltb_spec 1 (Nat.min 15 (i + 1))); [|lia].
    exists (Qred (sample_var W)). split; [reflexivity | apply Qred_correct].
  - intros Hpos c Hc. destruct (Nat.ltb_spec 1 (Nat.min 15 (i + 1))); [|lia].
    f_equal. apply Qred_zero. apply (sample_var_const _ c).
    unfold W. apply Forall_forall. intros x Hx. apply in_map_iff in Hx.
    destruct Hx as (r & <- & Hr). rewrite Forall_forall in Hc. apply Hc.
    now apply (window_In 15 i G).
Qed.

Lemma rolling_avg_trailing_rows_witness :
  (observation_table scenario_table "Date" ["Store No_"; "Item No_"] "Net Amount"
   = true
   /\ ~ In "rolling_avg_7d" (columns scenario_table))
  /\ exists out row,
       call (fun r => add_rolling_avg_sales_7d r "Date" ["Store No_"; "Item No_"]
                        "Net Amount" "rolling_avg_7d") scenario_table = Ok out
       /\ nth_error (rows out) 7 = Some row
       /\ cell out "rolling_avg_7d" row = Num (80 # 7).
Proof.
  assert (Hobs : observation_table scenario_table "Date"
                   ["Store No_"; "Item No_"] "Net Amount" = true)
    by (vm_compute; reflexivity).
  assert (Hnew : ~ In "rolling_avg_7d" (columns scenario_table))
    by (simpl; intuition discriminate).
  split; [auto|].
  destruct (proj2 (rolling_avg_trailing_rows Avg7 scenario_table "Date"
                     ["Store No_"; "Item No_"] "Net Amount" "rolling_avg_7d"
                     Hobs Hnew))
    as (out & row & Hc & Hr & _ & Hv & _).
  exists out, row. auto.
Defined.

Lemma sales_lag_row_offset_witness :
  (observation_table scenario_table "Date" ["Store No_"; "Item No_"] "Net Amount"
   = true
   /\ ~ In "sales_lag_7d" (columns scenario_table))
  /\ exists out,
       call (fun r => add_sales_lag_7d r "Date" ["Store No_"; "Item No_"]
                        "Net Amount" "sales_lag_7d") scenario_table = Ok out
       /\ get_col out "sales_lag_7d"
          = Ok [NaN; NaN; NaN; NaN; NaN; NaN; NaN; Int 10; Int 10; Int 10].
Proof.
  assert (Hobs : observation_table scenario_table "Date"
                   ["Store No_"; "Item No_"] "Net Amount" = true)
    by (vm_compute; reflexivity).
  assert (Hnew : ~ In "sales_lag_7d" (columns scenario_table))
    by (simpl; intuition discriminate).
  split; [auto|].
  destruct (sales_lag_row_offset Back7 scenario_table "Date"
              ["Store No_"; "Item No_"] "Net Amount" "sales_lag_7d" Hobs Hnew)
    as (out & Hc & _).
  exists out. split; [exact Hc|].
  vm_compute in Hc. injection Hc as <-. reflexivity.
Defined.

Lemma std_dev_sample_window_witness :
  (observation_table scenario_table "Date" ["Store No_"; "Item No_"] "Net Amount"
   = true
   /\ ~ In "std_dev_sales_15d" (columns scenario_table))
  /\ exists out,
       call (fun r => add_std_dev_sales_15d r "Date" ["Store No_"; "Item No_"]
                        "Net Amount" "std_dev_sales_15d") scenario_table = Ok out
       /\ firstn 3 (map (cell out "std_dev_sales_15d") (rows out))
          = [NaN; Root 0; Root 0].
Proof.
  assert (Hobs : observation_table scenario_table "Date"
                   ["Store No_"; "Item No_"] "Net Amount" = true)
    by (vm_compute; reflexivity).
  assert (Hnew : ~ In "std_dev_sales_15d" (columns scenario_table))
    by (simpl; intuition discriminate).
  split; [auto|].
  destruct (std_dev_sample_window scenario_table "Date"
              ["Store No_"; "Item No_"] "Net Amount" "std_dev_sales_15d"
              Hobs Hnew)
    as (out & Hc & _).
  exists out. split; [exact Hc|].
  vm_compute in Hc. injection Hc as <-. reflexivity.
Defined.

(** * sales.py: the Ramadan aggregate *)

Lemma ramadan_fold_last h d date_col ranges acc :
  fold_m ranges acc (fun ramadan_df '(start, end_) =>
      dates <- getitem (length h) date_col ;;
      lo <- lift (to_datetime_str start) ;;
      after <- lift (ge_ts dates lo) ;;
      dates' <- getitem (length h) date_col ;;
      hi <- lift (to_datetime_str end_) ;;
      before <- lift (le_ts dates' hi) ;;
      d <- load (length h) ;;
      let period_df := loc d (mask_and after before) in
      year <- lift (to_datetime_str start) ;;
      period_df <- lift (set_col period_df "ramadan_year"
                           (repeat (Int (ts_year year)) (length (rows period_df)))) ;;
      ret (concat ramadan_df period_df)) (h ++ [d])
  = match ramadan_df_f date_col ranges d acc with
    | Ok a => Ok (a, h ++ [d])
    | Err e => Err e
    end.
Proof.
  revert acc. induction ranges as [|[start end_] ranges IH]; intros acc; simpl;
    [reflexivity|].
  unfold bind at 1. unfold bind at 1. rewrite getitem_last.
  destruct (get_col d date_col) as [dates|] eqn:Hd; simpl; [|reflexivity].
  unfold bind, lift, ret.
  destruct (to_datetime_str start) as [lo|]; simpl; [|reflexivity].
  destruct (ge_ts dates lo) as [after|]; simpl; [|reflexivity].
  rewrite getitem_last, Hd.
  destruct (to_datetime_str end_) as [hi|]; simpl; [|reflexivity].
  destruct (le_ts dates hi) as [before|]; simpl; [|reflexivity].
  rewrite load_last.
  destruct (set_col _ "ramadan_year" _) as [p|]; simpl; [|reflexivity].
  apply IH.
Qed.

Lemma copy_run r h :
  copy r h = match nth_error h r with
             | Some d => Ok (length h, h ++ [d])
             | None => Err DanglingRef
             end.
Proof. unfold copy, bind, load, alloc. now destruct (nth_error h r). Qed.

Lemma add_total_sales_last_ramadan_run
    r date_col group_cols value_col new_col ramadan_ranges h :
  add_total_sales_last_ramadan r date_col group_cols value_col new_col
                               ramadan_ranges h
  = on_copy_then (total_ramadan_f ramadan_ranges date_col group_cols
                                  value_col new_col) r h.
Proof.
  unfold add_total_sales_last_ramadan, on_copy_then, total_ramadan_f.
  unfold bind at 1. rewrite copy_run.
  destruct (nth_error h r) as [d|]; [|reflexivity].
  unfold bind at 1. rewrite convert_dates_last.
  destruct (convert_dates_f date_col d) as [d1|]; simpl; [|reflexivity].
  unfold bind at 1. fold (ranges_or_default ramadan_ranges).
  rewrite ramadan_fold_last. unfold ramadan_sum_f.
  destruct (ramadan_df_f _ _ d1 _) as [rdf|]; simpl; [|reflexivity].
  unfold bind at 1, lift at 1.
  destruct (groupby_sum rdf _ value_col) as [rs|]; simpl; [|reflexivity].
  unfold bind at 1. rewrite getitem_last. unfold ramadan_left_f.
  destruct (get_col d1 date_col) as [dates|]; simpl; [|reflexivity].
  unfold bind at 1. rewrite setitem_last. fold year_cell.
  destruct (set_col d1 "year" _) as [d2|]; simpl; [|reflexivity].
  unfold bind at 1. rewrite load_last. unfold ramadan_merge_f.
  unfold bind at 1, lift at 1.
  destruct (merge_left d2 _ _ _) as [merged|]; simpl; [|reflexivity].
  unfold bind, alloc, ret.
  rewrite length_app. simpl. rewrite Nat.add_1_r.
  pose proof (drop_inplace_last (h ++ [d2]) merged ["year"; "ramadan_year"] true)
    as Hdrop.
  rewrite length_app in Hdrop. simpl in Hdrop. rewrite Nat.add_1_r in Hdrop.
  rewrite Hdrop.
  destruct (drop merged _ true) as [out|]; simpl; [|reflexivity].
  now rewrite <- app_assoc.
Qed.

Lemma loc_rows_map {A} (p : A -> bool) (l : list A) :
  loc_rows (map (fun x => Bool (p x)) l) l = filter p l.
Proof.
  induction l as [|x l IH]; simpl; [reflexivity|].
  destruct (p x); simpl; now rewrite IH.
Qed.

Lemma zip_with_repeat {A B C} (f : A -> B -> C) l x :
  zip_with f l (repeat x (length l)) = map (fun a => f a x) l.
Proof. induction l as [|a l IH]; simpl; [reflexivity | now rewrite IH]. Qed.

Lemma col_index_middle c pre rest :
  ~ In c pre -> col_index c (pre ++ c :: rest) = Some (length pre).
Proof.
  induction pre as [|x pre IH]; simpl; intros H.
  - now rewrite String.eqb_refl.
  - destruct (String.eqb_spec c x) as [->|Hne]; [exfalso; apply H; now left|].
    rewrite IH; [reflexivity|]. intros X. apply H. now right.
Qed.

Lemma reindex_row_id_aux cols : forall pre prow row,
  NoDup (pre ++ cols) -> length prow = length pre -> length row = length cols ->
  map (fun c => match col_index c (pre ++ cols) with
                | Some j => cell_at j (prow ++ row)
                | None => NaN
                end) cols = row.
Proof.
  induction cols as [|c cols IH]; intros pre prow [|x row] ND Hp Hr; simpl in *;
    try discriminate; try reflexivity.
  rewrite col_index_middle.
  2:{ apply NoDup_remove_2 in ND. intros X. apply ND. apply in_or_app. now left. }
  unfold cell_at at 1. rewrite app_nth2, <- Hp, Nat.sub_diag by lia. simpl.
  f_equal.
  specialize (IH (pre ++ [c]) (prow ++ [x]) row).
  rewrite <- !app_assoc in IH. simpl in IH. apply IH.
  - exact ND.
  - rewrite !length_app. simpl. lia.
  - lia.
Qed.

Lemma reindex_row_id cols row :
  NoDup cols -> length row = length cols -> reindex_row cols cols row = row.
Proof.
  intros ND Hl. unfold reindex_row.
  apply (reindex_row_id_aux cols [] [] row); auto.
Qed.

Lemma filter_mem_self cols : filter (fun c => negb (mem c cols)) cols = [].
Proof.
  assert (H : forall l, incl l cols -> filter (fun c => negb (mem c cols)) l = []).
  { induction l as [|c l IH]; intros Hi; simpl; [reflexivity|].
    assert (Hm : mem c cols = true).
    { unfold mem. apply existsb_exists. exists c. split.
      - apply Hi. now left.
      - apply String.eqb_refl. }
    rewrite Hm. simpl. apply IH. intros x Hx. apply Hi. now right. }
  apply H, incl_refl.
Qed.

Lemma mem_In c cs : mem c cs = true <-> In c cs.
Proof.
  unfold mem. rewrite existsb_exists. split.
  - intros (x & Hx & E). apply String.eqb_eq in E. now subst.
  - intros H. exists c. split; [assumption | apply String.eqb_refl].
Qed.

Lemma mem_false c cs : mem c cs = false <-> ~ In c cs.
Proof.
  rewrite <- mem_In. destruct (mem c cs); split; congruence.
Qed.

Lemma concat_empty p :
  NoDup (columns p) -> rect p -> concat (mkFrame [] []) p = p.
Proof.
  intros ND R. unfold concat. simpl.
  match goal with
  | |- context [filter ?f (columns p)] =>
      assert (E : filter f (columns p) = columns p)
        by (clear; induction (columns p) as [|c l IH]; simpl;
            [reflexivity | now f_equal])
  end.
  rewrite E. destruct p as [cols rs]. simpl in *. f_equal.
  rewrite <- (map_id rs) at 2. apply map_ext_in. intros row Hin.
  apply reindex_row_id; [assumption|]. now apply (rect_row (mkFrame cols rs)).
Qed.

Lemma concat_same cols rs rs' :
  NoDup cols ->
  Forall (fun row => length row = length cols) rs ->
  Forall (fun row => length row = length cols) rs' ->
  concat (mkFrame cols rs) (mkFrame cols rs') = mkFrame cols (rs ++ rs').
Proof.
  intros ND R R'. unfold concat. simpl. rewrite filter_mem_self, app_nil_r.
  f_equal. f_equal.
  - rewrite <- (map_id rs) at 2. apply map_ext_in. intros row Hin.
    apply reindex_row_id; [assumption|]. rewrite Forall_forall in R. auto.
  - rewrite <- (map_id rs') at 2. apply map_ext_in. intros row Hin.
    apply reindex_row_id; [assumption|]. rewrite Forall_forall in R'. auto.
Qed.


Section RamadanFrame.
Variables (d1 : DataFrame) (date_col : string) (j : nat).
Hypothesis Hrect : rect d1.
Hypothesis Hnodup : NoDup (columns d1).
Hypothesis Hj : col_index date_col (columns d1) = Some j.
Hypothesis Hdates : Forall is_date (map (cell_at j) (rows d1)).
Hypothesis Hry : ~ In "ramadan_year" (columns d1).

Let C := columns d1 ++ ["ramadan_year"].

Lemma cell_date row : cell d1 date_col row = cell_at j row.
Proof. unfold cell. now rewrite Hj. Qed.

Lemma period_rows_length range :
  Forall (fun row => length row = length C) (period_rows d1 date_col range).
Proof.
  unfold period_rows. apply Forall_forall. intros row Hin.
  apply in_map_iff in Hin. destruct Hin as (r & <- & Hr).
  apply filter_In in Hr. destruct Hr as [Hr _].
  unfold C. rewrite !length_app. simpl. now rewrite (rect_row _ _ Hrect Hr).
Qed.

Lemma period_f_spec start end_ lo hi :
  to_datetime_str start = Ok lo ->
  to_datetime_str end_ = Ok hi ->
  period_f date_col (start, end_) d1
  = Ok (mkFrame C (period_rows d1 date_col (lo, hi))).
Proof.
  intros Hlo Hhi. unfold period_f.
  rewrite (get_col_index _ _ _ Hj). simpl. rewrite Hlo. simpl.
  unfold ge_ts, le_ts. rewrite cmp_ts_dates by assumption. simpl.
  rewrite Hhi. simpl. rewrite cmp_ts_dates by assumption. simpl.
  unfold mask_and. rewrite zip_with_map_both, map_map.
  rewrite (map_ext _ (fun row => Bool (in_range lo hi (cell d1 date_col row)))).
  2:{ intros row. rewrite cell_date. unfold in_range.
      destruct (date_of (cell_at j row)); simpl; [|reflexivity].
      destruct (lo <=? t), (t <=? hi); reflexivity. }
  unfold loc. rewrite loc_rows_map. unfold set_col. simpl.
  rewrite repeat_length, Nat.eqb_refl, (col_index_None _ _ Hry).
  rewrite zip_with_repeat. reflexivity.
Qed.

Lemma C_nodup : NoDup C.
Proof.
  unfold C. apply NoDup_app; [assumption | repeat constructor; simpl; tauto |].
  intros x Hx [<-|[]]. contradiction.
Qed.

Lemma ramadan_df_f_acc ranges : forall table acc_rows,
  parse_ranges ranges = Ok table ->
  Forall (fun row => length row = length C) acc_rows ->
  ramadan_df_f date_col ranges d1 (mkFrame C acc_rows)
  = Ok (mkFrame C (acc_rows ++ flat_map (period_rows d1 date_col) table)).
Proof.
  induction ranges as [|[start end_] ranges IH]; intros table acc_rows Hp Hacc.
  - injection Hp as <-. simpl. now rewrite app_nil_r.
  - apply parse_ranges_cons in Hp.
    destruct Hp as (lo & hi & table' & Hlo & Hhi & Hp & ->).
    cbn [ramadan_df_f]. rewrite (period_f_spec _ _ _ _ Hlo Hhi). cbn [rbind].
    rewrite concat_same; [|apply C_nodup | assumption | apply period_rows_length].
    rewrite (IH table' _ Hp).
    + simpl. now rewrite <- app_assoc.
    + apply Forall_app. split; [assumption | apply period_rows_length].
Qed.

Lemma ramadan_df_f_spec ranges table :
  ranges <> [] ->
  parse_ranges ranges = Ok table ->
  ramadan_df_f date_col ranges d1 (mkFrame [] [])
  = Ok (mkFrame C (flat_map (period_rows d1 date_col) table)).
Proof.
  intros Hne Hp. destruct ranges as [|[start end_] ranges]; [congruence|].
  apply parse_ranges_cons in Hp.
  destruct Hp as (lo & hi & table' & Hlo & Hhi & Hp & ->).
  cbn [ramadan_df_f]. rewrite (period_f_spec _ _ _ _ Hlo Hhi). cbn [rbind].
  rewrite concat_empty.
  - rewrite (ramadan_df_f_acc _ _ _ Hp); [reflexivity|].
    apply period_rows_length.
  - apply C_nodup.
  - apply period_rows_length.
Qed.
End RamadanFrame.

(** ** The sums per key and their lookup *)

Lemma filter_none {A} (p : A -> bool) l :
  (forall x, In x l -> p x = false) -> filter p l = [].
Proof.
  induction l as [|x l IH]; simpl; intros H; [reflexivity|].
  rewrite (H x) by now left. apply IH. intros y Hy. apply H. now right.
Qed.

Lemma filter_distinct K keys :
  filter (fun k => key_eqb k K) (distinct keys)
  = match filter (fun k => key_eqb k K) keys with
    | [] => []
    | k0 :: _ => [k0]
    end.
Proof.
  induction keys as [|k keys IH]; simpl; [reflexivity|].
  destruct (key_eqb k K) eqn:E; simpl.
  - f_equal. apply filter_none. intros x Hx.
    apply filter_In in Hx. destruct Hx as [_ Hx].
    apply negb_true_iff in Hx.
    now rewrite <- (key_eqb_r _ _ x E).
  - rewrite <- IH. clear IH.
    induction (distinct keys) as [|x l IHl]; simpl; [reflexivity|].
    destruct (key_eqb x k) eqn:Ex; simpl.
    + rewrite IHl. now rewrite (key_eqb_l _ _ K Ex), E.
    + destruct (key_eqb x K); simpl; now rewrite IHl.
Qed.

Section SumLookup.
Variables (keys : list Key) (K : Key).

Let ks := stable_sort key_leb (distinct (filter (fun k => negb (key_has_nan k)) keys)).

Lemma key_eqb_has_nan k k' : key_eqb k k' = true -> key_has_nan k = key_has_nan k'.
Proof.
  intros H. apply key_compare_Eq_has_nan. now apply (eqb_of_true key_compare).
Qed.

(** At most one sum has the key [K]: that of the first row with this
    key, when the key has no missing component. *)
Lemma sum_lookup :
  filter (fun k => key_eqb k K) ks
  = if key_has_nan K then []
    else match filter (fun k => key_eqb k K) keys with
         | [] => []
         | k0 :: _ => [k0]
         end.
Proof.
  unfold ks. rewrite stable_sort_stable.
  - rewrite filter_distinct.
    destruct (key_has_nan K) eqn:HK.
    + rewrite filter_none; [reflexivity|].
      intros x Hx. apply filter_In in Hx. destruct Hx as [_ Hx].
      destruct (key_eqb x K) eqn:E; [|reflexivity].
      rewrite (key_eqb_has_nan _ _ E), HK in Hx. discriminate.
    + induction keys as [|k l IH]; simpl; [reflexivity|].
      destruct (key_has_nan k) eqn:Hk; simpl.
      * destruct (key_eqb k K) eqn:E; [|exact IH].
        rewrite (key_eqb_has_nan _ _ E), HK in Hk. discriminate.
      * destruct (key_eqb k K); [reflexivity | exact IH].
  - intros x y. apply (leb_of_total key_compare).
  - intros x y z. apply (leb_of_trans key_compare).
  - intros x y Px Py. apply (eqb_of_leb key_compare).
    rewrite <- key_eqb_of, (key_eqb_l _ _ _ Px), key_eqb_sym. exact Py.
Qed.
End SumLookup.

(** ** Removal of columns *)

Lemma prune_nil cols row : length row = length cols -> prune [] cols row = row.
Proof.
  revert row. induction cols as [|c cols IH]; intros [|x row] H; simpl in *;
    try discriminate; try reflexivity.
  f_equal. apply IH. lia.
Qed.

Lemma prune_app names cols cols' row row' :
  length row = length cols ->
  prune names (cols ++ cols') (row ++ row')
  = prune names cols row ++ prune names cols' row'.
Proof.
  revert row. induction cols as [|c cols IH]; intros [|x row] H; simpl in *;
    try discriminate; try reflexivity.
  destruct (mem c names); simpl; rewrite IH by lia; reflexivity.
Qed.

Lemma prune_keep names cols row :
  (forall c, In c cols -> ~ In c names) -> length row = length cols ->
  prune names cols row = row.
Proof.
  revert row. induction cols as [|c cols IH]; intros [|x row] Hc H; simpl in *;
    try discriminate; try reflexivity.
  rewrite (proj2 (mem_false c names)) by (apply Hc; now left).
  f_equal. apply IH; [|lia]. intros c' Hc'. apply Hc. now right.
Qed.

Lemma prune_drop names cols row :
  (forall c, In c cols -> In c names) -> prune names cols row = [].
Proof.
  revert row. induction cols as [|c cols IH]; intros [|x row] Hc; simpl in *;
    try reflexivity.
  rewrite (proj2 (mem_In c names)) by (apply Hc; now left).
  apply IH. intros c' Hc'. apply Hc. now right.
Qed.

Lemma filter_keep names cols :
  (forall c, In c cols -> ~ In c names) ->
  filter (fun c => negb (mem c names)) cols = cols.
Proof.
  induction cols as [|c cols IH]; intros Hc; simpl; [reflexivity|].
  rewrite (proj2 (mem_false c names)) by (apply Hc; now left). simpl.
  f_equal. apply IH. intros c' Hc'. apply Hc. now right.
Qed.

Lemma filter_drop names cols :
  (forall c, In c cols -> In c names) ->
  filter (fun c => negb (mem c names)) cols = [].
Proof.
  induction cols as [|c cols IH]; intros Hc; simpl; [reflexivity|].
  rewrite (proj2 (mem_In c names)) by (apply Hc; now left). simpl.
  apply IH. intros c' Hc'. apply Hc. now right.
Qed.

Lemma add_suffix_none sfx others names :
  (forall c, In c names -> ~ In c others) -> add_suffix sfx others names = names.
Proof.
  unfold add_suffix. induction names as [|c names IH]; intros Hc; simpl;
    [reflexivity|].
  rewrite (proj2 (mem_false c others)) by (apply Hc; now left).
  f_equal. apply IH. intros c' Hc'. apply Hc. now right.
Qed.

Lemma shared_keys_snoc l a b :
  a <> b -> shared_keys (l ++ [a]) (l ++ [b]) = l.
Proof.
  intros H. induction l as [|x l IH]; simpl.
  - now rewrite (proj2 (String.eqb_neq a b) H).
  - now rewrite String.eqb_refl, IH.
Qed.

(** A key read back from a row that begins with it. *)
Lemma row_key_self cs extra idx (f : string -> Cell) cells :
  col_indices cs (cs ++ extra) = Ok idx ->
  row_key idx (map f cs ++ cells) = map f cs.
Proof.
  intros H. pose proof (col_indices_Forall2 _ _ _ H) as F2.
  unfold row_key. clear H.
  assert (G : forall l idx',
             Forall2 (fun c i => col_index c (cs ++ extra) = Some i) l idx' ->
             incl l cs ->
             map (fun j => cell_at j (map f cs ++ cells)) idx' = map f l).
  { induction 1 as [|c i l idx' Hci _ IH]; intros Hincl; simpl; [reflexivity|].
    f_equal.
    - assert (Hc : In c cs) by (apply Hincl; now left).
      destruct (col_index_In _ _ Hc) as [q Hq].
      rewrite (col_index_app_l _ _ extra _ Hq) in Hci. injection Hci as <-.
      unfold cell_at. rewrite app_nth1
        by (rewrite length_map; now apply (col_index_lt c)).
      rewrite (nth_indep _ NaN (f c))
        by (rewrite length_map; now apply (col_index_lt c)).
      rewrite map_nth. f_equal.
      apply nth_error_nth. clear -Hq. revert q Hq.
      induction cs as [|x cs' IHc]; simpl; intros q Hq; [discriminate|].
      destruct (String.eqb_spec c x) as [->|Hne].
      + now injection Hq as <-.
      + destruct (col_index c cs') as [q'|]; simpl in Hq; [|discriminate].
        injection Hq as <-. simpl. now apply IHc.
    - apply IH. intros x Hx. apply Hincl. now right. }
  apply G; [assumption | apply incl_refl].
Qed.

Lemma drop_ignore d names : drop d names true = Ok (remove_columns d names).
Proof. unfold drop. now destruct (filter _ names). Qed.

(** ** The merge of the sums into the table *)

Lemma select_app {A} k1 k2 K (v1 v2 : list A) :
  length v1 = length k1 ->
  select (k1 ++ k2) K (v1 ++ v2) = select k1 K v1 ++ select k2 K v2.
Proof.
  revert v1. induction k1 as [|k k1 IH]; intros [|v v1] H; simpl in *;
    try discriminate; try reflexivity.
  destruct (key_eqb k K); simpl; rewrite IH by lia; reflexivity.
Qed.

Lemma select_flat_map {A B} (kf : A -> list Key) (vf : A -> list B) K l :
  (forall x, length (vf x) = length (kf x)) ->
  select (flat_map kf l) K (flat_map vf l)
  = flat_map (fun x => select (kf x) K (vf x)) l.
Proof.
  intros H. induction l as [|x l IH]; simpl; [reflexivity|].
  rewrite select_app by apply H. now rewrite IH.
Qed.

Lemma filter_flat_map {A B} (p : B -> bool) (f : A -> list B) l :
  filter p (flat_map f l) = flat_map (fun x => filter p (f x)) l.
Proof.
  induction l as [|x l IH]; simpl; [reflexivity|].
  now rewrite filter_app, IH.
Qed.

Lemma map_flat_map {A B C} (g : B -> C) (f : A -> list B) l :
  map g (flat_map f l) = flat_map (fun x => map g (f x)) l.
Proof.
  induction l as [|x l IH]; simpl; [reflexivity|].
  now rewrite map_app, IH.
Qed.

Lemma flat_map_ext_in {A B} (f g : A -> list B) l :
  (forall x, In x l -> f x = g x) -> flat_map f l = flat_map g l.
Proof.
  induction l as [|x l IH]; simpl; intros H; [reflexivity|].
  rewrite (H x) by now left. rewrite IH; [reflexivity|].
  intros y Hy. apply H. now right.
Qed.

Lemma select_map_some keys K (vals : Series) :
  observed (select keys K (map (fun c => Some (num c)) vals))
  = map num (select keys K vals).
Proof.
  revert vals. induction keys as [|k keys IH]; intros [|v vals]; simpl;
    try reflexivity.
  destruct (key_eqb k K); simpl; now rewrite IH.
Qed.

Lemma cell_compare_Int a b : cell_compare (Int a) (Int b) = Z.compare a b.
Proof.
  unfold Int. simpl. unfold Qcompare. simpl. now rewrite !Z.mul_1_r.
Qed.

Lemma cell_eqb_Int a b : cell_eqb (Int a) (Int b) = (a =? b).
Proof.
  unfold cell_eqb, eqb_of. rewrite cell_compare_Int.
  destruct (Z.compare_spec a b), (Z.eqb_spec a b); try reflexivity; lia.
Qed.

Lemma key_eqb_snoc k k' a b :
  length k = length k' ->
  key_eqb (k ++ [a]) (k' ++ [b]) = key_eqb k k' && cell_eqb a b.
Proof.
  intros H. unfold key_eqb, cell_eqb, eqb_of.
  rewrite (key_compare_snoc _ _ _ _ H).
  destruct (key_compare k k'); simpl; reflexivity.
Qed.

Lemma key_has_nan_snoc k a :
  key_has_nan (k ++ [a]) = key_has_nan k || is_nan a.
Proof. unfold key_has_nan. rewrite existsb_app. simpl. now rewrite orb_false_r. Qed.

Lemma row_key_snoc gi n row v :
  (forall i, In i gi -> (i < length row)%nat) -> n = length row ->
  row_key (gi ++ [n]) (row ++ [v]) = row_key gi row ++ [v].
Proof.
  intros Hgi ->. unfold row_key. rewrite map_app. simpl. f_equal.
  - apply map_ext_in. intros i Hi. apply cell_at_app_l. now apply Hgi.
  - f_equal. apply cell_at_app_new.
Qed.

Lemma col_indices_lt cs cols idx i :
  col_indices cs cols = Ok idx -> In i idx -> (i < length cols)%nat.
Proof.
  intros H Hi. destruct (Forall2_In_r _ _ _ _ (col_indices_Forall2 _ _ _ H) Hi)
    as (c & _ & Hc).
  now apply (col_index_lt c).
Qed.

Lemma col_indices_app_l cs cols extra idx :
  col_indices cs cols = Ok idx -> col_indices cs (cols ++ extra) = Ok idx.
Proof.
  unfold col_indices. revert idx. induction cs as [|c cs IH]; simpl; intros idx H;
    [assumption|].
  destruct (col_index c cols) as [j|] eqn:Ej; simpl in H; [|discriminate].
  rewrite (col_index_app_l _ _ _ _ Ej). simpl.
  destruct (rmapM _ cs) as [l|] eqn:E; simpl in H; [|discriminate].
  now rewrite (IH _ eq_refl).
Qed.

Section TotalRamadan.
Variables (d1 : DataFrame) (date_col : string) (group_cols : list string)
          (value_col new_col : string) (j jv : nat) (gi : list nat)
          (table : IntervalTable).
Hypothesis Hrect : rect d1.
Hypothesis Hnodup : NoDup (columns d1).
Hypothesis Hj : col_index date_col (columns d1) = Some j.
Hypothesis Hdates : Forall is_date (map (cell_at j) (rows d1)).
Hypothesis Hgi : col_indices group_cols (columns d1) = Ok gi.
Hypothesis Hjv : col_index value_col (columns d1) = Some jv.
Hypothesis Hnum : forallb is_num (map (cell_at jv) (rows d1)) = true.
Hypothesis Hgroups : group_cols <> [].
Hypothesis Hvalue : ~ In value_col group_cols.
Hypothesis Hnew : ~ In new_col (columns d1).
Hypothesis Hyear : ~ In "year" (columns d1).
Hypothesis Hry : ~ In "ramadan_year" (columns d1).
Hypothesis Hnew_year : new_col <> "year".
Hypothesis Hnew_ry : new_col <> "ramadan_year".

Let cols := columns d1.
Let C := cols ++ ["ramadan_year"].
Let F (rg : Timestamp * Timestamp) : list (list Cell) :=
  filter (fun row => in_range (fst rg) (snd rg) (cell d1 date_col row)) (rows d1).
Let R := flat_map (period_rows d1 date_col) table.
Let keys :=
  flat_map (fun rg => map (fun row => row_key gi row ++ [Int (ts_year (fst rg))])
                          (F rg)) table.
Let vals := flat_map (fun rg => map (cell_at jv) (F rg)) table.

Lemma F_In rg row : In row (F rg) -> In row (rows d1).
Proof. unfold F. intros H. apply filter_In in H. tauto. Qed.

Lemma gi_lt row i : In row (rows d1) -> In i gi -> (i < length row)%nat.
Proof.
  intros Hrow Hi. rewrite (rect_row _ _ Hrect Hrow).
  now apply (col_indices_lt _ _ _ _ Hgi).
Qed.

Lemma R_keys : map (row_key (gi ++ [length cols])) R = keys.
Proof.
  unfold R, keys. rewrite map_flat_map. apply flat_map_ext_in.
  intros rg _. unfold period_rows. fold (F rg). rewrite map_map.
  apply map_ext_in. intros row Hrow. apply F_In in Hrow.
  apply row_key_snoc.
  - intros i Hi. now apply gi_lt.
  - symmetry. now apply (rect_row _ _ Hrect).
Qed.

Lemma R_vals : map (cell_at jv) R = vals.
Proof.
  unfold R, vals. rewrite map_flat_map. apply flat_map_ext_in.
  intros rg _. unfold period_rows. fold (F rg). rewrite map_map.
  apply map_ext_in. intros row Hrow. apply F_In in Hrow.
  apply cell_at_app_l. rewrite (rect_row _ _ Hrect Hrow).
  now apply (col_index_lt value_col).
Qed.

Lemma vals_num : forallb is_num vals = true.
Proof.
  unfold vals. apply forallb_forall. intros c Hc.
  apply in_flat_map in Hc. destruct Hc as (rg & _ & Hc).
  apply in_map_iff in Hc. destruct Hc as (row & <- & Hrow).
  apply F_In in Hrow. rewrite forallb_forall in Hnum. apply Hnum.
  now apply in_map.
Qed.

Lemma keys_vals_length : length vals = length keys.
Proof.
  unfold vals, keys. rewrite !length_flat_map. f_equal.
  apply map_ext. intros rg. now rewrite !length_map.
Qed.

Lemma rdf_by : col_indices (group_cols ++ ["ramadan_year"]) C
               = Ok (gi ++ [length cols]).
Proof.
  apply col_indices_app_Ok.
  - now apply col_indices_app_l.
  - unfold col_indices, C, cols. cbn [rmapM].
    now rewrite (col_index_app_new _ _ Hry).
Qed.

Let ks := stable_sort key_leb
            (distinct (filter (fun k => negb (key_has_nan k)) keys)).
Let total (k : Key) : Cell :=
  Num (Qred (Qsum (map num (select keys k vals)))).

Lemma ramadan_sum_spec :
  rbind (groupby_sum (mkFrame C R) (group_cols ++ ["ramadan_year"]) value_col)
        (fun s => Ok (rename s value_col new_col))
  = Ok (mkFrame (group_cols ++ ["ramadan_year"; new_col])
                (map (fun k => k ++ [total k]) ks)).
Proof.
  unfold groupby_sum, groupby.
  destruct (group_cols ++ ["ramadan_year"]) as [|c0 cs0] eqn:E.
  { destruct group_cols; discriminate. }
  rewrite <- E. simpl columns. rewrite rdf_by. simpl rbind at 2.
  unfold get_col. simpl columns. unfold C.
  rewrite (col_index_app_l _ _ _ _ Hjv). simpl rows. fold C.
  rewrite R_keys, R_vals. simpl.
  rewrite (to_float_nums _ vals_num). simpl.
  unfold rename. simpl. f_equal. f_equal.
  - rewrite !map_app. cbn [map]. rewrite String.eqb_refl.
    rewrite <- app_assoc. f_equal.
    + rewrite <- (map_id group_cols) at 2. apply map_ext_in. intros c Hc.
      destruct (String.eqb_spec c value_col) as [->|]; [contradiction | reflexivity].
    + destruct (String.eqb_spec "ramadan_year" value_col) as [Hx|];
        [|reflexivity].
      exfalso. apply Hry. rewrite Hx. now apply (col_index_Some_In _ _ jv).
  - apply map_ext. intros k. unfold total. now rewrite select_map_some.
Qed.

(** The key of a row of the table on the left of the merge. *)
Let K (row : list Cell) : Key :=
  row_key gi row ++ [year_cell (cell_at j row)].

Lemma select_keys g y :
  length g = length gi ->
  select keys (g ++ [Int y]) vals
  = map (cell_at jv) (ramadan_obs table d1 date_col group_cols g y).
Proof.
  intros Hg. unfold keys, vals, ramadan_obs.
  rewrite select_flat_map by (intros; now rewrite !length_map).
  rewrite map_flat_map. apply flat_map_ext_in. intros [lo hi] _.
  rewrite select_map. simpl fst.
  rewrite (filter_ext_in _ (fun row => key_eqb (row_key gi row) g
                                       && (ts_year lo =? y))).
  2:{ intros row _. rewrite key_eqb_snoc by now rewrite row_key_length.
      now rewrite cell_eqb_Int. }
  destruct (ts_year lo =? y).
  - f_equal. unfold F. simpl.
    rewrite (filter_ext _ (fun row => key_eqb (row_key gi row) g))
      by (intros; apply andb_true_r).
    generalize (rows d1). intros rs.
    induction rs as [|row rs IH]; simpl; [reflexivity|].
    rewrite (key_of_row_key d1 group_cols gi row Hgi).
    destruct (in_range lo hi (cell d1 date_col row)); simpl;
      destruct (key_eqb (row_key gi row) g); simpl; now rewrite IH.
  - rewrite filter_none; [reflexivity|]. intros; apply andb_false_r.
Qed.

Lemma filter_keys_length k :
  length (filter (fun k' => key_eqb k' k) keys) = length (select keys k vals).
Proof. symmetry. apply select_length, keys_vals_length. Qed.

(** The value that the merge puts on a row. *)
Let merged_cell (row : list Cell) : Cell :=
  if key_has_nan (K row) then NaN
  else match filter (fun k => key_eqb k (K row)) keys with
       | [] => NaN
       | k0 :: _ => total k0
       end.

Lemma merged_cell_spec row :
  In row (rows d1) ->
  merged_cell row = ramadan_cell table d1 date_col group_cols value_col row.
Proof.
  intros Hrow. unfold merged_cell, ramadan_cell, K.
  rewrite (key_of_row_key d1 group_cols gi row Hgi), (cell_date d1 date_col j Hj).
  rewrite key_has_nan_snoc.
  assert (Hd : is_date (cell_at j row)).
  { rewrite Forall_forall in Hdates. apply Hdates. now apply in_map. }
  destruct (cell_at j row) as [| | | |t|] eqn:Ec; simpl in Hd; try contradiction.
  - cbn [year_cell date_of option_map of_field is_nan]. now rewrite orb_true_r.
  - cbn [date_of is_nan year_cell option_map of_field]. rewrite orb_false_r.
    destruct (key_has_nan (row_key gi row)); [reflexivity|].
    change (year_cell (Time t)) with (Int (ts_year t)).
    pose proof (filter_keys_length (row_key gi row ++ [Int (ts_year t)])) as Hl.
    pose proof (select_keys (row_key gi row) (ts_year t) (row_key_length _ _)) as Hs.
    set (fk := filter (fun k => key_eqb k (row_key gi row ++ [Int (ts_year t)]))
                      keys) in *.
    destruct fk as [|k0 rest] eqn:Ef.
    + rewrite Hs, length_map in Hl.
      destruct (ramadan_obs _ _ _ _ _ _); [reflexivity | discriminate].
    + assert (Hk0 : key_eqb k0 (row_key gi row ++ [Int (ts_year t)]) = true).
      { assert (Hin : In k0 fk) by (rewrite Ef; now left).
        apply filter_In in Hin. tauto. }
      unfold total. rewrite (select_ext _ _ _ _ Hk0), Hs.
      destruct (ramadan_obs _ _ _ _ _ _) as [|r obs] eqn:Eo.
      * rewrite Hs in Hl. discriminate.
      * rewrite map_map. do 3 f_equal.
        apply map_ext. intros r'. unfold cell. now rewrite Hjv.
Qed.

Let L (row : list Cell) : list Cell := row ++ [year_cell (cell_at j row)].
Let d2 := mkFrame (cols ++ ["year"]) (map L (rows d1)).
Let rs := mkFrame (group_cols ++ ["ramadan_year"; new_col])
                  (map (fun k => k ++ [total k]) ks).

Lemma ramadan_left_spec : ramadan_left_f date_col d1 = Ok d2.
Proof.
  unfold ramadan_left_f. rewrite (get_col_index _ _ _ Hj). cbn [rbind].
  unfold set_col. rewrite !length_map, Nat.eqb_refl.
  rewrite (col_index_None _ _ Hyear). unfold d2, L, cols. do 2 f_equal.
  rewrite map_map.
  apply (zip_with_map_r (fun (row : list Cell) v => row ++ [v])).
Qed.

Lemma left_by : col_indices (group_cols ++ ["year"]) (cols ++ ["year"])
                = Ok (gi ++ [length cols]).
Proof.
  apply col_indices_app_Ok.
  - now apply col_indices_app_l.
  - unfold col_indices, cols. cbn [rmapM].
    now rewrite (col_index_app_new _ _ Hyear).
Qed.

Lemma group_cols_In c : In c group_cols -> In c cols.
Proof. apply (col_indices_In _ _ _ _ Hgi). Qed.

Lemma right_by :
  exists ridx, col_indices (group_cols ++ ["ramadan_year"])
                           ((group_cols ++ ["ramadan_year"]) ++ [new_col])
               = Ok ridx.
Proof.
  apply col_indices_Ok. intros c Hc. apply in_or_app. now left.
Qed.

Lemma keys_shape k :
  In k keys ->
  exists row y, In row (rows d1) /\ k = row_key gi row ++ [Int y].
Proof.
  unfold keys. intros H. apply in_flat_map in H. destruct H as (rg & _ & H).
  apply in_map_iff in H. destruct H as (row & <- & Hrow).
  exists row, (ts_year (fst rg)). split; [now apply (F_In rg) | reflexivity].
Qed.

Lemma ks_In k : In k ks -> In k keys.
Proof.
  unfold ks. intros H. apply stable_sort_In in H.
  assert (G : forall l x, In x (distinct l) -> In x l).
  { induction l as [|a l IH]; simpl; intros x Hx; [contradiction|].
    destruct Hx as [->|Hx]; [now left|].
    apply filter_In in Hx. right. now apply IH. }
  apply G in H. apply filter_In in H. tauto.
Qed.

Lemma right_key ridx k t :
  col_indices (group_cols ++ ["ramadan_year"])
              ((group_cols ++ ["ramadan_year"]) ++ [new_col]) = Ok ridx ->
  In k keys ->
  row_key ridx (k ++ [t]) = k.
Proof.
  intros Hr Hk. destruct (keys_shape k Hk) as (row & y & Hrow & ->).
  set (f := fun c => if String.eqb c "ramadan_year" then Int y
                     else cell d1 c row).
  assert (E : row_key gi row ++ [Int y]
              = map f (group_cols ++ ["ramadan_year"])).
  { rewrite map_app. f_equal.
    rewrite <- (key_of_row_key d1 group_cols gi row Hgi). unfold key_of.
    apply map_ext_in. intros c Hc. unfold f.
    destruct (String.eqb_spec c "ramadan_year") as [->|]; [|reflexivity].
    exfalso. apply Hry. now apply group_cols_In. }
  rewrite E. now apply (row_key_self _ [new_col]).
Qed.

Lemma right_columns :
  group_cols ++ ["ramadan_year"; new_col]
  = (group_cols ++ ["ramadan_year"]) ++ [new_col].
Proof. now rewrite <- app_assoc. Qed.

Lemma L_length row :
  In row (rows d1) -> length (L row) = length (cols ++ ["year"]).
Proof.
  intros H. unfold L. rewrite !length_app. simpl.
  now rewrite (rect_row _ _ Hrect H).
Qed.

(** The right cells that the merge adds to a left row. *)
Let right_cells (row : list Cell) : list Cell :=
  if key_has_nan (K row) then [NaN; NaN]
  else match filter (fun k => key_eqb k (K row)) keys with
       | [] => [NaN; NaN]
       | k0 :: _ => [last k0 NaN; total k0]
       end.

Lemma merge_row ridx row :
  col_indices (group_cols ++ ["ramadan_year"])
              ((group_cols ++ ["ramadan_year"]) ++ [new_col]) = Ok ridx ->
  In row (rows d1) ->
  match filter (fun m => key_eqb (row_key ridx m)
                                 (row_key (gi ++ [length cols]) (L row)))
               (rows rs) with
  | [] => [prune [] (cols ++ ["year"]) (L row) ++ repeat NaN 2]
  | ms => map (fun m => prune [] (cols ++ ["year"]) (L row)
                        ++ prune group_cols (columns rs) m) ms
  end
  = [L row ++ right_cells row].
Proof.
  intros Hr Hrow.
  rewrite (prune_nil _ _ (L_length row Hrow)).
  assert (HK : row_key (gi ++ [length cols]) (L row) = K row).
  { unfold L, K. apply row_key_snoc.
    - intros i Hi. now apply gi_lt.
    - symmetry. now apply (rect_row _ _ Hrect). }
  rewrite HK. unfold rs. cbn [rows columns].
  rewrite filter_map_swap.
  rewrite (filter_ext_in _ (fun k => key_eqb k (K row))).
  2:{ intros k Hk. now rewrite (right_key ridx k _ Hr (ks_In k Hk)). }
  unfold ks. rewrite sum_lookup. fold ks. unfold right_cells.
  destruct (key_has_nan (K row)); [reflexivity|].
  destruct (filter (fun k => key_eqb k (K row)) keys) as [|k0 rest] eqn:Ef;
    [reflexivity|].
  cbn [map]. do 2 f_equal.
  assert (Hk0 : In k0 keys).
  { assert (Hin : In k0 (filter (fun k => key_eqb k (K row)) keys))
      by (rewrite Ef; now left).
    apply filter_In in Hin. tauto. }
  destruct (keys_shape k0 Hk0) as (r0 & y & Hr0 & ->).
  rewrite last_last, right_columns.
  rewrite <- !app_assoc. cbn [app].
  rewrite (prune_app group_cols group_cols ["ramadan_year"; new_col]
             (row_key gi r0) [Int y; total (row_key gi r0 ++ [Int y])]).
  2:{ rewrite row_key_length. apply (col_indices_length _ _ _ Hgi). }
  rewrite prune_drop by auto.
  cbn [app prune]. 
  rewrite (proj2 (mem_false "ramadan_year" group_cols))
    by (intros X; apply Hry; now apply group_cols_In).
  rewrite (proj2 (mem_false new_col group_cols))
    by (intros X; apply Hnew; now apply group_cols_In).
  reflexivity.
Qed.

Lemma right_cells_spec row :
  exists a, right_cells row = [a; merged_cell row].
Proof.
  unfold right_cells, merged_cell.
  destruct (key_has_nan (K row)); [now exists NaN|].
  destruct (filter (fun k => key_eqb k (K row)) keys) as [|k0 rest];
    [now exists NaN|].
  now exists (last k0 NaN).
Qed.

Lemma flat_map_singleton {A B} (f : A -> list B) (g : A -> B) l :
  (forall x, In x l -> f x = [g x]) -> flat_map f l = map g l.
Proof.
  induction l as [|x l IH]; simpl; intros H; [reflexivity|].
  rewrite (H x) by now left. simpl. f_equal. apply IH.
  intros y Hy. apply H. now right.
Qed.

Lemma drop_helpers_row row a b :
  In row (rows d1) ->
  prune ["year"; "ramadan_year"]
        ((cols ++ ["year"]) ++ ["ramadan_year"; new_col])
        (L row ++ [a; b])
  = row ++ [b].
Proof.
  intros Hrow. unfold L. rewrite <- !app_assoc. cbn [app].
  rewrite (prune_app _ cols ["year"; "ramadan_year"; new_col] row _
             (rect_row _ _ Hrect Hrow)).
  rewrite prune_keep.
  - f_equal. cbn [prune mem existsb]. simpl.
    destruct (String.eqb_spec new_col "year") as [X|_]; [contradiction|].
    destruct (String.eqb_spec new_col "ramadan_year") as [X|_];
      [contradiction | reflexivity].
  - intros c Hc [<-|[<-|[]]]; contradiction.
  - now apply (rect_row _ _ Hrect).
Qed.

Lemma drop_helpers_columns :
  filter (fun c => negb (mem c ["year"; "ramadan_year"]))
         ((cols ++ ["year"]) ++ ["ramadan_year"; new_col])
  = cols ++ [new_col].
Proof.
  rewrite <- !app_assoc. cbn [app]. rewrite filter_app.
  rewrite filter_keep by (intros c Hc [<-|[<-|[]]]; contradiction).
  f_equal. simpl.
  destruct (String.eqb_spec new_col "year") as [X|_]; [contradiction|].
  destruct (String.eqb_spec new_col "ramadan_year") as [X|_];
    [contradiction | reflexivity].
Qed.

(** The merge and the removal of the helper columns. *)
Lemma ramadan_merge_spec :
  exists out,
    ramadan_merge_f group_cols d2 rs = Ok out
    /\ rows out = map (fun row => row ++ [merged_cell row]) (rows d1)
    /\ (rows d1 <> [] -> columns out = cols ++ [new_col]).
Proof.
  destruct right_by as [ridx Hr].
  unfold ramadan_merge_f, merge_left.
  rewrite !length_app. cbn [length]. rewrite Nat.eqb_refl. cbn [negb].
  unfold d2 at 1. cbn [columns]. rewrite left_by. cbn [rbind].
  unfold rs at 1. cbn [columns]. rewrite right_columns, Hr. cbn [rbind].
  rewrite shared_keys_snoc by discriminate.
  assert (Hcase : rows d1 = [] \/ exists r0 rest, rows d1 = r0 :: rest).
  { destruct (rows d1) as [|r0 rest]; [now left | right; eauto]. }
  destruct Hcase as [Erows | (r0 & rest & Erows)].
  - assert (Hd2 : rows d2 = []) by (unfold d2; cbn [rows]; now rewrite Erows).
    rewrite Hd2, Erows. cbn [map flat_map]. cbv iota.
    rewrite drop_ignore. eexists. split; [reflexivity|].
    split; [reflexivity | congruence].
  - assert (Hd2 : rows d2 = L r0 :: map L rest)
      by (unfold d2; cbn [rows]; now rewrite Erows).
    rewrite Hd2. cbv iota. rewrite <- Hd2.
    assert (Hlc : columns (remove_columns d2 []) = cols ++ ["year"]).
    { unfold remove_columns, d2. cbn [columns].
      apply filter_keep. intros c _ []. }
    assert (Hrc : columns (remove_columns rs group_cols)
                  = ["ramadan_year"; new_col]).
    { unfold remove_columns, rs. cbn [columns].
      rewrite filter_app, (filter_drop group_cols group_cols) by auto.
      cbn [app filter].
      rewrite (proj2 (mem_false "ramadan_year" group_cols))
        by (intros X; apply Hry; now apply group_cols_In).
      rewrite (proj2 (mem_false new_col group_cols))
        by (intros X; apply Hnew; now apply group_cols_In).
      reflexivity. }
    rewrite !Hlc, !Hrc. cbn [length].
    rewrite add_suffix_none.
    2:{ intros c Hc [<-|[<-|[]]].
        - apply in_app_or in Hc. destruct Hc as [Hc|[Hc|[]]];
            [contradiction | discriminate].
        - apply in_app_or in Hc. destruct Hc as [Hc|[Hc|[]]];
            [contradiction | now apply Hnew_year]. }
    rewrite add_suffix_none.
    2:{ intros c [<-|[<-|[]]] Hc.
        - apply in_app_or in Hc. destruct Hc as [Hc|[Hc|[]]];
            [contradiction | discriminate].
        - apply in_app_or in Hc. destruct Hc as [Hc|[Hc|[]]];
            [contradiction | now apply Hnew_year]. }
    change (rows d2) with (map L (rows d1)).
    change (columns d2) with (cols ++ ["year"]).
    rewrite flat_map_concat_map, map_map, <- flat_map_concat_map.
    rewrite (flat_map_singleton _ (fun row => L row ++ right_cells row)).
    2:{ intros row Hrow. apply (merge_row ridx row Hr Hrow). }
    rewrite drop_ignore. eexists. split; [reflexivity|].
    unfold remove_columns. cbn [rows columns]. split.
    + rewrite map_map. apply map_ext_in. intros row Hrow.
      destruct (right_cells_spec row) as [a ->].
      now apply drop_helpers_row.
    + intros _. apply drop_helpers_columns.
Qed.

(** All the statements that follow the conversion of the dates. *)
Lemma total_ramadan_spec ramadan_ranges :
  ranges_or_default ramadan_ranges <> [] ->
  parse_ranges (ranges_or_default ramadan_ranges) = Ok table ->
  exists d2' out,
    rbind (ramadan_sum_f ramadan_ranges date_col group_cols value_col new_col d1)
          (fun ramadan_sum =>
    rbind (ramadan_left_f date_col d1) (fun d2 =>
    rbind (ramadan_merge_f group_cols d2 ramadan_sum) (fun out =>
      Ok (d2, out)))) = Ok (d2', out)
    /\ rows out
       = map (fun row =>
                row ++ [ramadan_cell table d1 date_col group_cols value_col row])
             (rows d1)
    /\ (rows d1 <> [] -> columns out = columns d1 ++ [new_col]).
Proof.
  intros Hne Hp. destruct ramadan_merge_spec as (out & Hm & Hrows & Hcols).
  exists d2, out. unfold ramadan_sum_f.
  rewrite (ramadan_df_f_spec d1 date_col j Hrect Hnodup Hj Hdates Hry _ table
             Hne Hp).
  cbn [rbind]. fold cols. fold C. fold R.
  pose proof ramadan_sum_spec as Hs.
  destruct (groupby_sum (mkFrame C R) _ value_col) as [s|] eqn:Es;
    cbn [rbind] in Hs; [|discriminate].
  apply Ok_inj in Hs. cbn [rbind]. rewrite Hs. fold rs.
  rewrite ramadan_left_spec. cbn [rbind]. rewrite Hm. cbn [rbind].
  repeat split; try assumption.
  rewrite Hrows. apply map_ext_in. intros row Hrow. do 2 f_equal.
  now apply merged_cell_spec.
Qed.
End TotalRamadan.

Lemma call_on_copy_then F d :
  call (on_copy_then F) d = rbind (F d) (fun p => Ok (snd p)).
Proof.
  unfold call, on_copy_then. simpl. destruct (F d) as [[d2 out]|]; reflexivity.
Qed.

(** [add_total_sales_last_ramadan] on a table of observations, as a
    function of the table. *)
Lemma total_ramadan_f_spec
    (ramadan_ranges : option (list (string * string))) (table : IntervalTable)
    (df : DataFrame) (date_col : string) (group_cols : list string)
    (value_col new_col : string) :
  observation_table df date_col group_cols value_col = true ->
  ramadan_names_free df group_cols value_col new_col ->
  ranges_or_default ramadan_ranges <> [] ->
  parse_ranges (ranges_or_default ramadan_ranges) = Ok table ->
  exists d1 d2 out,
    convert_dates_f date_col df = Ok d1
    /\ rect d1 /\ columns d1 = columns df
    /\ total_ramadan_f ramadan_ranges date_col group_cols value_col new_col df
       = Ok (d2, out)
    /\ rows out
       = map (fun row =>
                row ++ [ramadan_cell table d1 date_col group_cols value_col row])
             (rows d1)
    /\ (rows df <> [] -> columns out = columns df ++ [new_col]).
Proof.
  intros Hobs (ND & Hnew & Hyear & Hry & Hny & Hnr & Hv) Hne Hp.
  destruct (obs_converted _ _ _ _ Hobs)
    as (d1 & j & gi & jv & Hc & R1 & C1 & Hj & Hdates & Hgi & Hjv & Hnum).
  rewrite <- C1 in ND, Hnew, Hyear, Hry, Hj, Hgi, Hjv.
  pose proof (obs_groups _ _ _ _ Hobs) as Hg.
  pose proof (total_ramadan_spec d1 date_col group_cols value_col new_col j jv gi
                table) as H.
  repeat (specialize (H ltac:(assumption))).
  destruct H as (d2 & out & Hrun & Hrows & Hcols).
  exists d1, d2, out. unfold total_ramadan_f.
  rewrite Hc. cbn [rbind]. rewrite Hrun.
  repeat split; try assumption.
  intros Hrows_ne. rewrite <- C1. apply Hcols.
  intros E. apply Hrows_ne.
  apply length_zero_iff_nil. rewrite <- (convert_dates_rows_length _ _ _ Hc).
  now rewrite E.
Qed.

(** C1, as amended.  The ranges are those of the argument
    [ramadan_ranges], or of the function's own default table when none
    is given; they are not the table of [is_ramadan].  Every row of the
    (date-converted) input is returned once, in the input order, followed
    by one cell: the sum of the values of the observations of the row's
    group whose timestamp lies in a range anchored at (starting in) the
    row's own calendar year, or a missing value when there is no such
    observation. *)
Theorem total_sales_ramadan_by_year
    (ramadan_ranges : option (list (string * string))) (table : IntervalTable)
    (df : DataFrame) (date_col : string) (group_cols : list string)
    (value_col new_col : string) :
  observation_table df date_col group_cols value_col = true ->
  ramadan_names_free df group_cols value_col new_col ->
  ranges_or_default ramadan_ranges <> [] ->
  parse_ranges (ranges_or_default ramadan_ranges) = Ok table ->
  exists out d1,
    call (fun r => add_total_sales_last_ramadan r date_col group_cols
                     value_col new_col ramadan_ranges) df = Ok out
    /\ convert_dates_f date_col df = Ok d1
    /\ rows out
       = map (fun row =>
                row ++ [ramadan_cell table d1 date_col group_cols value_col row])
             (rows d1)
    /\ (rows df <> [] -> columns out = columns df ++ [new_col]).
Proof.
  intros Hobs Hfree Hne Hp.
  destruct (total_ramadan_f_spec _ _ _ _ _ _ _ Hobs Hfree Hne Hp)
    as (d1 & d2 & out & Hc & _ & _ & Hrun & Hrows & Hcols).
  exists out, d1.
  rewrite (call_ext _ _ _ (fun r h =>
             add_total_sales_last_ramadan_run r date_col group_cols value_col
               new_col ramadan_ranges h)).
  rewrite call_on_copy_then, Hrun. cbn [rbind snd].
  repeat split; assumption.
Qed.

Lemma total_sales_ramadan_by_year_witness :
  (observation_table ramadan_sales "Date" ["Store No_"; "Item No_"] "Net Amount"
   = true
   /\ ramadan_names_free ramadan_sales ["Store No_"; "Item No_"] "Net Amount"
                         "total_sales_last_ramadan"
   /\ ranges_or_default None <> []
   /\ parse_ranges (ranges_or_default None)
      = Ok (table_of default_ramadan_ranges))
  /\ exists out,
       call (fun r => add_total_sales_last_ramadan r "Date"
                        ["Store No_"; "Item No_"] "Net Amount"
                        "total_sales_last_ramadan" None) ramadan_sales = Ok out
       /\ get_col out "total_sales_last_ramadan" = Ok [NaN; Int 7; Int 7].
Proof.
  assert (Hobs : observation_table ramadan_sales "Date"
                   ["Store No_"; "Item No_"] "Net Amount" = true)
    by (vm_compute; reflexivity).
  assert (Hfree : ramadan_names_free ramadan_sales ["Store No_"; "Item No_"]
                    "Net Amount" "total_sales_last_ramadan").
  { unfold ramadan_names_free.
    repeat match goal with
           | |- _ /\ _ => split
           | |- NoDup _ =>
               repeat (constructor; [simpl; intuition discriminate|]);
               constructor
           | |- _ <> _ => discriminate
           | |- ~ In _ _ => simpl; intuition discriminate
           end. }
  assert (Hne : ranges_or_default None <> []) by discriminate.
  assert (Hp : parse_ranges (ranges_or_default None)
               = Ok (table_of default_ramadan_ranges))
    by (vm_compute; reflexivity).
  split; [auto|].
  destruct (total_sales_ramadan_by_year None _ ramadan_sales "Date"
              ["Store No_"; "Item No_"] "Net Amount" "total_sales_last_ramadan"
              Hobs Hfree Hne Hp)
    as (out & d1 & Hc & _).
  exists out. split; [exact Hc|].
  vm_compute in Hc. injection Hc as <-. reflexivity.
Defined.

(** C1 as stated fails: the ranges summed are not those of [is_ramadan].
    The sale of 2023-03-25 is inside Ramadan 2023 for [is_ramadan], and
    C1 gives its row the total 5 of that range; the default table of
    [add_total_sales_last_ramadan] starts in 2024, and the code leaves the
    row missing. *)
Lemma total_ramadan_uses_own_table :
  exists out d1 row,
    call (fun r => add_total_sales_last_ramadan r "Date"
                     ["Store No_"; "Item No_"] "Net Amount"
                     "total_sales_last_ramadan" None) ramadan_sales = Ok out
    /\ convert_dates_f "Date" ramadan_sales = Ok d1
    /\ nth_error (rows d1) 0 = Some row
    /\ cell d1 "Date" row = Time (ts_of_civil 2023 3 25)
    /\ holiday_cell (holiday_table Ramadan) (cell d1 "Date" row) = Bool true
    /\ ramadan_cell (holiday_table Ramadan) d1 "Date"
                    ["Store No_"; "Item No_"] "Net Amount" row = Int 5
    /\ nth_error (rows out) 0 = Some (row ++ [NaN])
    /\ table_of default_ramadan_ranges <> holiday_table Ramadan.
Proof.
  eexists. eexists. eexists.
  split; [vm_compute; reflexivity|].
  split; [vm_compute; reflexivity|].
  split; [reflexivity|].
  repeat split; try (vm_compute; reflexivity).
  vm_compute. discriminate.
Qed.

(** * maco_economic.py: the FX join *)

Lemma nth_error_app_r1 {A} (h : list A) a b : nth_error (h ++ [a; b]) (length h) = Some a.
Proof. rewrite nth_error_app2, Nat.sub_diag by lia. reflexivity. Qed.

Lemma nth_error_old {A} (h : list A) r x y :
  nth_error h r = Some x -> nth_error (h ++ [y]) r = Some x.
Proof.
  intros H. rewrite nth_error_app1; [assumption|].
  apply nth_error_Some. congruence.
Qed.

Lemma add_fx_rate_run r r' date_col fx_date_col fx_col new_col h d fx :
  nth_error h r = Some d ->
  nth_error h r' = Some fx ->
  add_fx_rate r r' date_col fx_date_col fx_col new_col h
  = match fx_f date_col fx_date_col fx_col new_col d fx with
    | Ok (lf, fx1, out) => Ok (S (S (length h)), h ++ [lf; fx1; out])
    | Err e => Err e
    end.
Proof.
  intros Hr Hr'. unfold add_fx_rate, fx_f.
  unfold bind at 1. rewrite copy_run, Hr.
  unfold bind at 1. rewrite convert_dates_last.
  destruct (convert_dates_f date_col d) as [lf|]; cbn [rbind]; [|reflexivity].
  unfold bind at 1. rewrite copy_run.
  rewrite (nth_error_old h r' fx lf Hr').
  assert (E1 : length (h ++ [lf]) = S (length h))
    by (rewrite length_app; simpl; lia).
  unfold bind at 1. rewrite convert_dates_last.
  destruct (convert_dates_f fx_date_col fx) as [fx1|]; cbn [rbind]; [|reflexivity].
  unfold bind at 1. unfold load at 1.
  rewrite <- app_assoc. cbn [app].
  rewrite nth_error_app_r1.
  unfold bind at 1. rewrite E1. unfold load at 1.
  replace (h ++ [lf; fx1]) with ((h ++ [lf]) ++ [fx1])
    by (now rewrite <- app_assoc).
  rewrite <- E1, nth_error_last. rewrite E1.
  unfold bind at 1, lift at 1.
  destruct (select_columns fx1 _) as [right|]; cbn [rbind]; [|reflexivity].
  unfold bind at 1, lift at 1.
  destruct (merge_left lf right _ _) as [m|]; cbn [rbind]; [|reflexivity].
  unfold bind at 1, alloc.
  assert (E2 : length ((h ++ [lf]) ++ [fx1]) = S (S (length h)))
    by (rewrite !length_app; simpl; lia).
  rewrite E2.
  unfold bind at 1. rewrite <- E2, rename_inplace_last.
  unfold bind at 1. rewrite drop_inplace_last.
  destruct (drop (rename m fx_col new_col) _ false) as [m2|]; cbn [rbind];
    [|reflexivity].
  unfold fx_fill_f.
  unfold bind at 1. rewrite getitem_last.
  destruct (get_col m2 new_col) as [rates|]; cbn [rbind]; [|reflexivity].
  unfold bind at 1. rewrite setitem_last.
  destruct (set_col m2 new_col (ffill rates)) as [out|]; [|reflexivity].
  unfold ret. rewrite E2. now rewrite <- !app_assoc.
Qed.

Lemma prune_length names cols row :
  length row = length cols ->
  length (prune names cols row)
  = length (filter (fun c => negb (mem c names)) cols).
Proof.
  revert row. induction cols as [|c cols IH]; intros [|x row] H; simpl in *;
    try discriminate; try reflexivity.
  destruct (mem c names); simpl; rewrite IH by lia; reflexivity.
Qed.

Lemma ffill_from_length last s : length (ffill_from last s) = length s.
Proof.
  revert last. induction s as [|c s IH]; intros last; simpl; [reflexivity|].
  destruct (is_nan c); simpl; now rewrite IH.
Qed.

Lemma ffill_length s : length (ffill s) = length s.
Proof. apply ffill_from_length. Qed.

(** A frame whose last column is [nc]: reading and filling that column. *)
Section LastColumn.
Variables (base : list string) (nc : string) (A : Type)
          (E : list A) (B : A -> list Cell) (v : A -> Cell).
Hypothesis Hnc : ~ In nc base.
Hypothesis HB : forall e, In e E -> length (B e) = length base.

Let m2 := mkFrame (base ++ [nc]) (map (fun e => B e ++ [v e]) E).

Lemma last_column_rect : rect m2.
Proof.
  unfold rect, m2. cbn [rows columns]. apply Forall_forall.
  intros row Hin. apply in_map_iff in Hin. destruct Hin as (e & <- & He).
  rewrite !length_app. simpl. now rewrite (HB e He).
Qed.

Lemma last_column_get : get_col m2 nc = Ok (map v E).
Proof.
  unfold get_col, m2. cbn [rows columns].
  rewrite (col_index_app_new _ _ Hnc). f_equal. rewrite map_map.
  apply map_ext_in. intros e He. rewrite <- (HB e He). apply cell_at_app_new.
Qed.

Lemma last_column_fill :
  exists out, fx_fill_f nc m2 = Ok out
              /\ get_col out nc = Ok (ffill (map v E)).
Proof.
  unfold fx_fill_f. rewrite last_column_get. cbn [rbind].
  destruct (set_col_Ok m2 nc (ffill (map v E))) as [out Ho].
  { rewrite ffill_length, length_map. unfold m2. cbn [rows].
    now rewrite length_map. }
  exists out. split; [exact Ho|].
  apply (get_set_same _ _ _ _ Ho last_column_rect).
Qed.
End LastColumn.

Section FxJoin.
Variables (tx fx1 : DataFrame) (date_col fxd fxc nc : string)
          (jd fd fc : nat).
Hypothesis Rtx : rect tx.
Hypothesis Rfx : rect fx1.
Hypothesis Hjd : col_index date_col (columns tx) = Some jd.
Hypothesis Hfd : col_index fxd (columns fx1) = Some fd.
Hypothesis Hfc : col_index fxc (columns fx1) = Some fc.
Hypothesis Hcd : fxc <> fxd.
Hypothesis Hnd : nc <> fxd.
Hypothesis Hfxc : ~ In fxc (columns tx).
Hypothesis Hnc : ~ In nc (columns tx).
Hypothesis Hfxd : fxd = date_col \/ ~ In fxd (columns tx).

Let lcols := columns tx.
Let right := mkFrame [fxd; fxc]
                     (map (fun m => [cell_at fd m; cell_at fc m]) (rows fx1)).
(** The FX rows that match a transaction row. *)
Let M (l : list Cell) : list (list Cell) :=
  filter (fun m => cell_eqb (cell_at fd m) (cell_at jd l)) (rows fx1).
(** The rows of the join: a transaction row and the rate joined. *)
Let E : list (list Cell * Cell) :=
  flat_map (fun l => match M l with
                     | [] => [(l, NaN)]
                     | ms => map (fun m => (l, cell_at fc m)) ms
                     end) (rows tx).

Lemma fx_select : select_columns fx1 [fxd; fxc] = Ok right.
Proof.
  unfold select_columns, col_indices. cbn [rmapM]. rewrite Hfd, Hfc.
  reflexivity.
Qed.

Lemma E_In e : In e E -> In (fst e) (rows tx).
Proof.
  unfold E. intros H. apply in_flat_map in H. destruct H as (l & Hl & H).
  destruct (M l) as [|m ms].
  - destruct H as [<-|[]]. exact Hl.
  - apply in_map_iff in H. destruct H as (m' & <- & _). exact Hl.
Qed.

Lemma E_joined :
  map (fun e => (cell_at jd (fst e), snd e)) E
  = joined_rates tx fx1 date_col fxd fxc.
Proof.
  unfold E, joined_rates, fx_matches. rewrite map_flat_map.
  apply flat_map_ext_in. intros l _. unfold cell. rewrite Hjd, Hfd, Hfc.
  fold (M l). destruct (M l) as [|m ms]; [reflexivity|].
  cbn [map]. f_equal. now rewrite !map_map.
Qed.

Lemma right_matches l :
  filter (fun m' => key_eqb (row_key [O] m') (row_key [jd] l)) (rows right)
  = map (fun m => [cell_at fd m; cell_at fc m]) (M l).
Proof.
  unfold right, M. cbn [rows]. rewrite filter_map_swap. f_equal.
  apply filter_ext. intros m.
  unfold key_eqb, cell_eqb, eqb_of, row_key, cell_at. simpl.
  now destruct (cell_compare _ _).
Qed.

Lemma key_fxd : col_indices [fxd] [fxd; fxc] = Ok [O].
Proof. unfold col_indices. simpl. now rewrite String.eqb_refl. Qed.

Lemma key_date : col_indices [date_col] (columns tx) = Ok [jd].
Proof. unfold col_indices. simpl. now rewrite Hjd. Qed.

(** The joined frame before the fill, when the two date columns have
    different names. *)
Lemma fx_merge_distinct :
  fxd <> date_col ->
  rbind (merge_left tx right [date_col] [fxd]) (fun m =>
    drop (rename m fxc nc) [fxd] false)
  = Ok (mkFrame (lcols ++ [nc]) (map (fun e => fst e ++ [snd e]) E)).
Proof.
  intros Hne.
  assert (Hfree : ~ In fxd (columns tx)) by (destruct Hfxd; congruence).
  unfold merge_left. cbn [length Nat.eqb negb].
  rewrite key_date. cbn [rbind]. unfold right at 1. cbn [columns].
  rewrite key_fxd. cbn [rbind shared_keys].
  rewrite (proj2 (String.eqb_neq date_col fxd)) by congruence.
  cbn [rows flat_map].
  replace (match rows tx with [] => @nil string | _ :: _ => [] end)
    with (@nil string) by (now destruct (rows tx)).
  assert (Hlc : columns (remove_columns tx []) = lcols).
  { unfold remove_columns. cbn [columns]. apply filter_keep. intros c _ []. }
  assert (Hrc : columns (remove_columns right []) = [fxd; fxc]) by reflexivity.
  rewrite !Hlc, !Hrc. cbn [length repeat].
  change (columns right) with [fxd; fxc].
  rewrite add_suffix_none.
  2:{ intros c Hc [<-|[<-|[]]]; contradiction. }
  rewrite add_suffix_none.
  2:{ intros c [<-|[<-|[]]] Hc; contradiction. }
  rewrite (flat_map_ext_in _
             (fun l => match M l with
                       | [] => [l ++ [NaN; NaN]]
                       | ms => map (fun m => l ++ [cell_at fd m; cell_at fc m]) ms
                       end)).
  2:{ intros l Hl. rewrite right_matches.
      rewrite (prune_nil _ _ (rect_row _ _ Rtx Hl)).
      destruct (M l) as [|m ms]; [reflexivity|].
      cbn [map]. rewrite map_map. reflexivity. }
  unfold rename. cbn [columns rows]. unfold drop. cbn [columns].
  rewrite map_app.
  rewrite (map_ext_in _ (fun c => c) lcols).
  2:{ intros c Hc. destruct (String.eqb_spec c fxc) as [->|]; [contradiction | reflexivity]. }
  rewrite map_id. cbn [map].
  rewrite (proj2 (String.eqb_neq fxd fxc)) by congruence.
  rewrite String.eqb_refl.
  cbn [filter]. unfold mem at 1. rewrite existsb_app. cbn [existsb].
  rewrite String.eqb_refl, orb_true_r. cbn [negb].
  unfold remove_columns. cbn [columns rows]. f_equal. f_equal.
  - rewrite filter_app, filter_keep by (intros c Hc [<-|[]]; contradiction).
    f_equal. cbn [filter mem existsb]. rewrite String.eqb_refl. cbn [orb negb].
    now rewrite (proj2 (String.eqb_neq nc fxd)) by assumption.
  - unfold E. rewrite !map_flat_map. apply flat_map_ext_in. intros l Hl.
    assert (Hp : forall a b,
               prune [fxd] (lcols ++ [fxd; nc]) (l ++ [a; b]) = l ++ [b]).
    { intros a b. rewrite (prune_app _ lcols _ l _ (rect_row _ _ Rtx Hl)).
      rewrite prune_keep.
      - f_equal. cbn [prune mem existsb]. rewrite String.eqb_refl. cbn [orb].
        now rewrite (proj2 (String.eqb_neq nc fxd)) by assumption.
      - intros c Hc [<-|[]]. contradiction.
      - now apply (rect_row _ _ Rtx). }
    destruct (M l) as [|m ms]; cbn [map]; [now rewrite Hp|].
    rewrite Hp. f_equal. rewrite !map_map. apply map_ext. intros m'. apply Hp.
Qed.

Let base := filter (fun c => negb (mem c [fxd])) lcols.

Lemma base_free c : In c base -> c <> fxd /\ In c lcols.
Proof.
  unfold base. intros H. apply filter_In in H. destruct H as [H1 H2].
  split; [|assumption]. intros ->. simpl in H2.
  now rewrite String.eqb_refl in H2.
Qed.

(** The joined frame before the fill, when the two date columns have
    the same name: the shared date column is removed with the FX one. *)
Lemma fx_merge_shared :
  fxd = date_col ->
  rbind (merge_left tx right [date_col] [fxd]) (fun m =>
    drop (rename m fxc nc) [fxd] false)
  = Ok (mkFrame (base ++ [nc])
                (map (fun e => prune [fxd] lcols (fst e) ++ [snd e]) E)).
Proof.
  intros Heq.
  assert (Hin : In fxd lcols).
  { rewrite Heq. now apply (col_index_Some_In _ _ jd). }
  unfold merge_left. cbn [length Nat.eqb negb].
  rewrite key_date. cbn [rbind]. unfold right at 1. cbn [columns].
  rewrite key_fxd. cbn [rbind shared_keys].
  rewrite <- Heq, String.eqb_refl.
  assert (Hcase : rows tx = [] \/ exists l0 rest, rows tx = l0 :: rest).
  { destruct (rows tx) as [|l0 rest]; [now left | right; eauto]. }
  destruct Hcase as [Erows | (l0 & rest & Erows)].
  - assert (HE : E = []) by (unfold E; now rewrite Erows).
    rewrite HE, Erows. cbn [flat_map map]. cbv iota.
    unfold remove_columns at 1 2 3 4. cbn [columns]. fold lcols. fold base.
    change (columns right) with [fxd; fxc].
    rewrite (filter_keep [] [fxd; fxc]) by (intros c _ []).
    rewrite add_suffix_none.
    2:{ intros c Hc [<-|[<-|[]]].
        - now destruct (base_free _ Hc).
        - destruct (base_free _ Hc). contradiction. }
    rewrite add_suffix_none.
    2:{ intros c [<-|[<-|[]]] Hc.
        - now destruct (base_free _ Hc).
        - destruct (base_free _ Hc). contradiction. }
    unfold rename. cbn [columns rows]. unfold drop. cbn [columns].
    rewrite map_app.
    rewrite (map_ext_in _ (fun c => c) base).
    2:{ intros c Hc. destruct (String.eqb_spec c fxc) as [->|]; [|reflexivity].
        destruct (base_free _ Hc). contradiction. }
    rewrite map_id. cbn [map].
    rewrite (proj2 (String.eqb_neq fxd fxc)) by congruence.
    rewrite String.eqb_refl.
    cbn [filter]. unfold mem at 1. rewrite existsb_app. cbn [existsb].
    rewrite String.eqb_refl, orb_true_r. cbn [negb].
    unfold remove_columns. cbn [columns rows map]. f_equal. f_equal.
    rewrite filter_app, filter_keep.
    + f_equal. cbn [filter mem existsb]. rewrite String.eqb_refl. cbn [orb negb].
      now rewrite (proj2 (String.eqb_neq nc fxd)) by assumption.
    + intros c Hc [<-|[]]. now destruct (base_free _ Hc).
  - rewrite Erows. cbv iota. rewrite <- Erows.
    assert (Hlc : columns (remove_columns tx []) = lcols).
    { unfold remove_columns. cbn [columns]. apply filter_keep. intros c _ []. }
    assert (Hrc : columns (remove_columns right [fxd]) = [fxc]).
    { unfold remove_columns, right. cbn [columns filter mem existsb].
      rewrite String.eqb_refl. cbn [orb negb].
      now rewrite (proj2 (String.eqb_neq fxc fxd)) by assumption. }
    rewrite !Hlc, !Hrc. cbn [length repeat].
    change (columns right) with [fxd; fxc].
    rewrite add_suffix_none.
    2:{ intros c Hc [<-|[]]. contradiction. }
    rewrite add_suffix_none.
    2:{ intros c [<-|[]] Hc. contradiction. }
    rewrite (flat_map_ext_in _
               (fun l => match M l with
                         | [] => [l ++ [NaN]]
                         | ms => map (fun m => l ++ [cell_at fc m]) ms
                         end)).
    2:{ intros l Hl. rewrite right_matches.
        rewrite (prune_nil _ _ (rect_row _ _ Rtx Hl)).
        destruct (M l) as [|m ms]; [reflexivity|].
        cbn [map]. rewrite map_map.
        cbn [prune mem existsb]. rewrite String.eqb_refl. cbn [orb].
        rewrite (proj2 (String.eqb_neq fxc fxd)) by assumption.
        reflexivity. }
    unfold rename. cbn [columns rows]. unfold drop. cbn [columns].
    rewrite map_app.
    rewrite (map_ext_in _ (fun c => c) lcols).
    2:{ intros c Hc. destruct (String.eqb_spec c fxc) as [->|];
          [contradiction | reflexivity]. }
    rewrite map_id. cbn [map]. rewrite String.eqb_refl.
    cbn [filter]. unfold mem at 1. rewrite existsb_app.
    fold (mem fxd lcols). rewrite (proj2 (mem_In fxd lcols) Hin).
    cbn [orb negb].
    unfold remove_columns. cbn [columns rows]. f_equal. f_equal.
    + rewrite filter_app. fold base. f_equal.
      cbn [filter mem existsb].
      now rewrite (proj2 (String.eqb_neq nc fxd)) by assumption.
    + unfold E. rewrite !map_flat_map. apply flat_map_ext_in. intros l Hl.
      assert (Hp : forall b,
                 prune [fxd] (lcols ++ [nc]) (l ++ [b])
                 = prune [fxd] lcols l ++ [b]).
      { intros b. rewrite (prune_app _ lcols _ l _ (rect_row _ _ Rtx Hl)).
        f_equal. cbn [prune mem existsb].
        now rewrite (proj2 (String.eqb_neq nc fxd)) by assumption. }
      destruct (M l) as [|m ms]; cbn [map fst snd]; [now rewrite Hp|].
      rewrite Hp. f_equal. rewrite !map_map. apply map_ext. intros m'.
      apply Hp.
Qed.

(** In both cases the joined column, once filled, is the forward fill
    of the rates of the join. *)
Lemma fx_join_spec :
  exists out,
    rbind (merge_left tx right [date_col] [fxd]) (fun m =>
    rbind (drop (rename m fxc nc) [fxd] false) (fx_fill_f nc)) = Ok out
    /\ get_col out nc
       = Ok (ffill (map snd (joined_rates tx fx1 date_col fxd fxc))).
Proof.
  rewrite <- E_joined, map_map. cbn [snd].
  destruct (string_dec fxd date_col) as [Heq|Hne].
  - pose proof (fx_merge_shared Heq) as Hm.
    destruct (merge_left tx right [date_col] [fxd]) as [m|]; cbn [rbind] in *;
      [|discriminate].
    rewrite Hm. cbn [rbind].
    apply (last_column_fill base nc _ E
             (fun e => prune [fxd] lcols (fst e)) snd).
    + intros X. destruct (base_free _ X). contradiction.
    + intros e He. apply prune_length.
      apply (rect_row _ _ Rtx). now apply E_In.
  - pose proof (fx_merge_distinct Hne) as Hm.
    destruct (merge_left tx right [date_col] [fxd]) as [m|]; cbn [rbind] in *;
      [|discriminate].
    rewrite Hm. cbn [rbind].
    apply (last_column_fill lcols nc _ E fst snd).
    + exact Hnc.
    + intros e He. apply (rect_row _ _ Rtx). now apply E_In.
Qed.
End FxJoin.

(** *** Forward fill *)

Lemma ffill_from_nth last s : forall k,
  (k < length s)%nat ->
  nth k (ffill_from last s) NaN
  = fold_left (fun last c => if is_nan c then last else c) (firstn (S k) s) last.
Proof.
  revert last. induction s as [|c s IH]; intros last k Hk; simpl in Hk; [lia|].
  destruct k as [|k].
  - simpl. now destruct (is_nan c).
  - change (firstn (S (S k)) (c :: s)) with (c :: firstn (S k) s).
    cbn [fold_left ffill_from].
    destruct (is_nan c); cbn [nth]; apply IH; lia.
Qed.

Lemma ffill_nth s k :
  (k < length s)%nat -> nth k (ffill s) NaN = last_known (firstn (S k) s).
Proof. apply ffill_from_nth. Qed.

Lemma last_known_snoc s c :
  last_known (s ++ [c]) = if is_nan c then last_known s else c.
Proof. unfold last_known. now rewrite fold_left_app. Qed.

Lemma firstn_snoc {A} (s : list A) (a : A) : forall k,
  (k < length s)%nat -> firstn (S k) s = firstn k s ++ [nth k s a].
Proof.
  induction s as [|x s IH]; intros k Hk; simpl in Hk; [lia|].
  destruct k as [|k]; [reflexivity|].
  change (firstn (S (S k)) (x :: s)) with (x :: firstn (S k) s).
  rewrite (IH k) by lia. reflexivity.
Qed.

(** A known value is kept by the fill. *)
Lemma ffill_known s k :
  (k < length s)%nat -> is_nan (nth k s NaN) = false ->
  nth k (ffill s) NaN = nth k s NaN.
Proof.
  intros Hk Hn. rewrite (ffill_nth _ _ Hk), (firstn_snoc s NaN k Hk).
  rewrite last_known_snoc. now rewrite Hn.
Qed.

(** A missing value receives the last known value above it. *)
Lemma ffill_gap s k :
  (k < length s)%nat -> nth k s NaN = NaN ->
  nth k (ffill s) NaN = last_known (firstn k s).
Proof.
  intros Hk Hn. rewrite (ffill_nth _ _ Hk), (firstn_snoc s NaN k Hk).
  rewrite last_known_snoc. now rewrite Hn.
Qed.

Lemma last_known_leading s : forall k,
  (forall i, (i < k)%nat -> nth i s NaN = NaN) ->
  last_known (firstn k s) = NaN.
Proof.
  induction k as [|k IH]; intros H; [reflexivity|].
  destruct (Nat.lt_ge_cases k (length s)) as [Hk|Hk].
  - rewrite (firstn_snoc s NaN k Hk), last_known_snoc.
    rewrite (H k) by lia. simpl. apply IH. intros i Hi. apply H. lia.
  - rewrite firstn_all2 by lia. rewrite <- (firstn_all2 (n:=k) s) by lia.
    apply IH. intros i Hi. apply H. lia.
Qed.

Lemma nth_error_nth_default {A} (s : list A) k a d :
  nth_error s k = Some a -> nth k s d = a.
Proof. intros H. now apply nth_error_nth. Qed.

(** A matching FX row contributes its rate to the join. *)
Lemma joined_rates_match lf fx1 date_col fxd fxc l m :
  In l (rows lf) -> In m (rows fx1) ->
  cell_eqb (cell fx1 fxd m) (cell lf date_col l) = true ->
  In (cell lf date_col l, cell fx1 fxc m)
     (joined_rates lf fx1 date_col fxd fxc).
Proof.
  intros Hl Hm He. unfold joined_rates. apply in_flat_map. exists l.
  split; [assumption|].
  assert (Hin : In (cell fx1 fxc m) (fx_matches fx1 fxd fxc (cell lf date_col l))).
  { unfold fx_matches. apply in_map. apply filter_In. now split. }
  destruct (fx_matches fx1 fxd fxc (cell lf date_col l)) as [|r rs];
    [contradiction|].
  apply (in_map (fun r => (cell lf date_col l, r))) in Hin. exact Hin.
Qed.

(** Every transaction row is kept by the join. *)
Lemma joined_rates_keeps lf fx1 date_col fxd fxc l :
  In l (rows lf) ->
  In (cell lf date_col l) (map fst (joined_rates lf fx1 date_col fxd fxc)).
Proof.
  intros Hl. unfold joined_rates. rewrite map_flat_map. apply in_flat_map.
  exists l. split; [assumption|].
  destruct (fx_matches fx1 fxd fxc (cell lf date_col l)); simpl; now left.
Qed.

(** A joined entry with a missing rate when no FX row matches. *)
Lemma joined_rates_entry lf fx1 date_col fxd fxc t r :
  In (t, r) (joined_rates lf fx1 date_col fxd fxc) ->
  (r = NaN /\ fx_matches fx1 fxd fxc t = [])
  \/ In r (fx_matches fx1 fxd fxc t).
Proof.
  unfold joined_rates. intros H. apply in_flat_map in H.
  destruct H as (l & _ & H).
  destruct (fx_matches fx1 fxd fxc (cell lf date_col l)) as [|r0 rs] eqn:E.
  - destruct H as [H|[]]. injection H as <- <-. now left.
  - apply in_map_iff in H. destruct H as (r' & H & Hin).
    injection H as <- <-. right. now rewrite E.
Qed.

(** [add_fx_rate]: the conversions succeed on two well-formed tables, and
    the column returned is the forward fill of the rates of the join. *)
Lemma fx_rate_spec d fx date_col fxd fxc nc :
  fx_tables d fx date_col fxd fxc nc ->
  exists lf fx1 out,
    call2 (fun r r' => add_fx_rate r r' date_col fxd fxc nc) d fx = Ok out
    /\ convert_dates_f date_col d = Ok lf
    /\ convert_dates_f fxd fx = Ok fx1
    /\ get_col out nc
       = Ok (ffill (map snd (joined_rates lf fx1 date_col fxd fxc))).
Proof.
  intros (Rd & Rfx & (dates & Hd) & (fdates & Hf) & (rates & Hr)
          & Hcd & Hnd & Hfxc & Hnc & Hfxd).
  assert (Hconv : forall t c ds, rect t ->
             rbind (get_col t c) to_datetime = Ok ds ->
             exists t1, convert_dates_f c t = Ok t1).
  { intros t c ds R H. unfold convert_dates_f.
    destruct (get_col t c) as [s|] eqn:Hs; cbn [rbind] in *; [|discriminate].
    rewrite H. cbn [rbind]. apply set_col_Ok.
    rewrite (rmapM_length _ _ _ H). now apply (get_col_length _ c). }
  destruct (Hconv _ _ _ Rd Hd) as [lf Hlf].
  destruct (Hconv _ _ _ Rfx Hf) as [fx1 Hfx1].
  pose proof (convert_dates_columns _ _ _ Hlf) as Cl.
  pose proof (convert_dates_columns _ _ _ Hfx1) as Cf.
  pose proof (convert_dates_rect _ _ _ Hlf Rd) as Rl.
  pose proof (convert_dates_rect _ _ _ Hfx1 Rfx) as Rf.
  assert (Hin_d : In date_col (columns lf)).
  { rewrite Cl. destruct (get_col d date_col) as [s|] eqn:Hs;
      cbn [rbind] in Hd; [|discriminate]. now apply (get_col_In _ _ s). }
  assert (Hin_f : In fxd (columns fx1)).
  { rewrite Cf. destruct (get_col fx fxd) as [s|] eqn:Hs;
      cbn [rbind] in Hf; [|discriminate]. now apply (get_col_In _ _ s). }
  assert (Hin_c : In fxc (columns fx1)).
  { rewrite Cf. now apply (get_col_In _ _ rates). }
  destruct (col_index_In _ _ Hin_d) as [jd Hjd].
  destruct (col_index_In _ _ Hin_f) as [fd Hfd].
  destruct (col_index_In _ _ Hin_c) as [fc Hfc].
  rewrite <- Cl in Hfxc, Hnc, Hfxd.
  pose proof (fx_join_spec lf fx1 date_col fxd fxc nc jd fd fc) as H.
  repeat (specialize (H ltac:(assumption))).
  destruct H as (out & Hout & Hget).
  exists lf, fx1, out. repeat split; try assumption.
  unfold call2.
  rewrite (add_fx_rate_run O (S O) date_col fxd fxc nc [d; fx] d fx eq_refl eq_refl).
  unfold fx_f. rewrite Hlf, Hfx1. cbn [rbind].
  rewrite (fx_select fx1 fxd fxc fd fc Hfd Hfc). cbn [rbind].
  destruct (merge_left lf _ [date_col] [fxd]) as [m|]; cbn [rbind] in *;
    [|discriminate].
  destruct (drop (rename m fxc nc) [fxd] false) as [m2|]; cbn [rbind] in *;
    [|discriminate].
  rewrite Hout. reflexivity.
Qed.

(** * Claims on the FX join *)

Ltac fx_tables_tac :=
  unfold fx_tables, rect;
  repeat match goal with
         | |- _ /\ _ => split
         | |- Forall _ _ => repeat constructor
         | |- exists _, _ = Ok _ => eexists; reflexivity
         | |- _ <> _ => discriminate
         | |- ~ In _ _ => simpl; intuition discriminate
         | |- _ = _ \/ _ => left; reflexivity
         end.

(** C9. After [add_fx_rate], every row of the result that the join built
    from a transaction row and an FX row of the same date carries the rate
    of that FX row, whenever that rate is a known value: the forward fill
    leaves it as it is.  Rows come in the order of the join
    ([joined_rates]), one for each matching FX row. *)
Theorem fx_exact_match_unchanged
    (df fx_df : DataFrame) (date_col fx_date_col fx_col new_col : string) :
  fx_tables df fx_df date_col fx_date_col fx_col new_col ->
  exists left fx out s,
    call2 (fun r r' => add_fx_rate r r' date_col fx_date_col fx_col new_col)
          df fx_df = Ok out
    /\ convert_dates_f date_col df = Ok left
    /\ convert_dates_f fx_date_col fx_df = Ok fx
    /\ get_col out new_col = Ok s
    /\ length s = length (joined_rates left fx date_col fx_date_col fx_col)
    /\ (forall l m,
          In l (rows left) -> In m (rows fx) ->
          cell_eqb (cell fx fx_date_col m) (cell left date_col l) = true ->
          In (cell left date_col l, cell fx fx_col m)
             (joined_rates left fx date_col fx_date_col fx_col))
    /\ (forall k t rate,
          nth_error (joined_rates left fx date_col fx_date_col fx_col) k
          = Some (t, rate) ->
          In rate (fx_matches fx fx_date_col fx_col t) ->
          is_nan rate = false ->
          nth_error s k = Some rate).
Proof.
  intros Ht.
  destruct (fx_rate_spec _ _ _ _ _ _ Ht) as (lf & fx1 & out & Hc & Hl & Hf & Hg).
  exists lf, fx1, out, (ffill (map snd (joined_rates lf fx1 date_col fx_date_col fx_col))).
  repeat split; try assumption.
  - now rewrite ffill_length, length_map.
  - intros l m. apply joined_rates_match.
  - intros k t rate Hk _ Hn.
    set (J := joined_rates lf fx1 date_col fx_date_col fx_col) in *.
    assert (Hlt : (k < length (map snd J))%nat).
    { rewrite length_map. apply nth_error_Some. congruence. }
    assert (Hs : nth k (map snd J) NaN = rate).
    { apply nth_error_nth_default. now rewrite nth_error_map, Hk. }
    assert (Hf' : nth k (ffill (map snd J)) NaN = rate).
    { rewrite (ffill_known _ _ Hlt); [exact Hs | now rewrite Hs]. }
    rewrite <- Hf'.
    apply nth_error_nth'. now rewrite ffill_length.
Qed.

Lemma fx_exact_match_unchanged_witness :
  fx_tables fx_sales fx_one_rate "Date" "Date" "fx_rate" "fx_rate"
  /\ exists out,
       call2 (fun r r' => add_fx_rate r r' "Date" "Date" "fx_rate" "fx_rate")
             fx_sales fx_one_rate = Ok out
       /\ nth_error (rows out) 1 = Some [Int 5; Int 30].
Proof.
  split; [fx_tables_tac|].
  destruct (fx_exact_match_unchanged fx_sales fx_one_rate
              "Date" "Date" "fx_rate" "fx_rate")
    as (lf & fx1 & out & s & Hc & _); [fx_tables_tac|].
  exists out. split; [exact Hc|].
  vm_compute in Hc. injection Hc as <-. reflexivity.
Defined.

(** C8, as amended.  [add_fx_rate] keeps every transaction row, joins the
    rate of each FX row of the same date, and fills the missing rates in
    the order of the rows of the joined table (the order of the
    transaction table, which is not sorted by date): a row without a rate
    receives the rate of the nearest row above it that has one, and the
    rows above the first row with a rate stay missing. *)
Theorem fx_fill_follows_rows
    (df fx_df : DataFrame) (date_col fx_date_col fx_col new_col : string) :
  fx_tables df fx_df date_col fx_date_col fx_col new_col ->
  exists left fx out s,
    call2 (fun r r' => add_fx_rate r r' date_col fx_date_col fx_col new_col)
          df fx_df = Ok out
    /\ convert_dates_f date_col df = Ok left
    /\ convert_dates_f fx_date_col fx_df = Ok fx
    /\ get_col out new_col = Ok s
    /\ let J := joined_rates left fx date_col fx_date_col fx_col in
       length (rows out) = length J
       /\ (forall l, In l (rows left) -> In (cell left date_col l) (map fst J))
       /\ (forall t rate, In (t, rate) J ->
             (rate = NaN /\ fx_matches fx fx_date_col fx_col t = [])
             \/ In rate (fx_matches fx fx_date_col fx_col t))
       /\ (forall k, (k < length J)%nat ->
             nth k s NaN = last_known (firstn (S k) (map snd J)))
       /\ (forall k t, nth_error J k = Some (t, NaN) ->
             nth k s NaN = last_known (firstn k (map snd J)))
       /\ (forall k, (k < length J)%nat ->
             (forall i, (i <= k)%nat -> nth i (map snd J) NaN = NaN) ->
             nth k s NaN = NaN).
Proof.
  intros Ht.
  destruct (fx_rate_spec _ _ _ _ _ _ Ht) as (lf & fx1 & out & Hc & Hl & Hf & Hg).
  exists lf, fx1, out, (ffill (map snd (joined_rates lf fx1 date_col fx_date_col fx_col))).
  repeat split; try assumption.
  - rewrite <- (get_col_length _ _ _ Hg). now rewrite ffill_length, length_map.
  - intros l. apply joined_rates_keeps.
  - intros t rate. apply joined_rates_entry.
  - intros k Hk. apply ffill_nth. now rewrite length_map.
  - intros k t Hk. apply ffill_gap.
    + rewrite length_map. apply nth_error_Some. congruence.
    + apply nth_error_nth_default. now rewrite nth_error_map, Hk.
  - intros k Hk Hnan. rewrite ffill_nth by now rewrite length_map.
    apply last_known_leading. intros i Hi. apply Hnan. lia.
Qed.

Lemma fx_fill_follows_rows_witness :
  fx_tables fx_sales fx_one_rate "Date" "Date" "fx_rate" "fx_rate"
  /\ exists out,
       call2 (fun r r' => add_fx_rate r r' "Date" "Date" "fx_rate" "fx_rate")
             fx_sales fx_one_rate = Ok out
       /\ get_col out "fx_rate" = Ok [NaN; Int 30; Int 30].
Proof.
  split; [fx_tables_tac|].
  destruct (fx_fill_follows_rows fx_sales fx_one_rate
              "Date" "Date" "fx_rate" "fx_rate")
    as (lf & fx1 & out & s & Hc & _); [fx_tables_tac|].
  exists out. split; [exact Hc|].
  vm_compute in Hc. injection Hc as <-. reflexivity.
Defined.

(** C8 as stated fails: the fill is not chronological.  The second sale
    is dated 2024-01-01, four days before the only FX rate (2024-01-05),
    so no earlier rate is known and C8 leaves it missing; the code gives
    it the rate of the row above it. *)
Lemma fx_fill_not_chronological :
  exists out,
    call2 (fun r r' => add_fx_rate r r' "Date" "Date" "fx_rate" "fx_rate")
          fx_unsorted_sales fx_late_rate = Ok out
    /\ get_col fx_unsorted_sales "Date"
       = Ok [Str "2024-01-05"; Str "2024-01-01"]
    /\ get_col fx_late_rate "Date" = Ok [Str "2024-01-05"]
    /\ latest_rate_before [(ts_of_civil 2024 1 5, Int 35)] (ts_of_civil 2024 1 1)
       = NaN
    /\ get_col out "fx_rate" = Ok [Int 35; Int 35]
    /\ get_col out "fx_rate"
       <> Ok [Int 35;
              latest_rate_before [(ts_of_civil 2024 1 5, Int 35)]
                                 (ts_of_civil 2024 1 1)].
Proof.
  eexists. split; [vm_compute; reflexivity|].
  repeat split; try reflexivity. discriminate.
Qed.

(** * The frame of the feature operations *)

Lemma calendar_op_run op r date_col new_col h :
  calendar_op op r date_col new_col h
  = on_copy (calendar_op_f op date_col new_col) r h.
Proof.
  destruct op; cbn [calendar_op calendar_op_f calendar_feature];
    try apply calendar_run_pure;
    try (apply (calendar_run (fun dates => astype_int (map _ dates))));
    apply holiday_feature_run.
Qed.

Lemma on_copy_heap F r h r' h' :
  on_copy F r h = Ok (r', h') ->
  exists d out, nth_error h r = Some d /\ F d = Ok out
                /\ r' = length h /\ h' = h ++ [out].
Proof.
  unfold on_copy. destruct (nth_error h r) as [d|]; [|discriminate].
  destruct (F d) as [out|] eqn:E; [|discriminate].
  intros H. injection H as <- <-. exists d, out. auto.
Qed.

Lemma on_copy_then_heap F r h r' h' :
  on_copy_then F r h = Ok (r', h') ->
  exists d d2 out, nth_error h r = Some d /\ F d = Ok (d2, out)
                   /\ r' = S (length h) /\ h' = h ++ [d2; out].
Proof.
  unfold on_copy_then. destruct (nth_error h r) as [d|]; [|discriminate].
  destruct (F d) as [[d2 out]|] eqn:E; [|discriminate].
  intros H. injection H as <- <-. exists d, d2, out. auto.
Qed.

Lemma nth_error_app_r2 {A} (h : list A) a b :
  nth_error (h ++ [a; b]) (S (length h)) = Some b.
Proof.
  rewrite nth_error_app2 by lia.
  replace (S (length h) - length h)%nat with 1%nat by lia. reflexivity.
Qed.

(** Every operation leaves the frames of the store as they are and
    returns a frame allocated after them, which depends on the frame
    read only. *)
Lemma feature_op_heap op r date_col new_col h r' h' :
  feature_op op r date_col new_col h = Ok (r', h') ->
  exists d extra out,
    nth_error h r = Some d
    /\ h' = h ++ extra
    /\ (length h <= r')%nat
    /\ nth_error h' r' = Some out
    /\ call (fun r => feature_op op r date_col new_col) d = Ok out.
Proof.
  destruct op as [c|g group_cols value_col|group_cols value_col ranges];
    cbn [feature_op]; intros H.
  - rewrite calendar_op_run in H.
    destruct (on_copy_heap _ _ _ _ _ H) as (d & out & Hd & HF & -> & ->).
    exists d, [out], out. repeat split; auto.
    + apply nth_error_last.
    + rewrite (call_ext _ _ _ (fun r h => calendar_op_run c r date_col new_col h)).
      now rewrite call_on_copy.
  - rewrite grouped_op_run in H.
    destruct (on_copy_heap _ _ _ _ _ H) as (d & out & Hd & HF & -> & ->).
    exists d, [out], out. repeat split; auto.
    + apply nth_error_last.
    + rewrite (call_ext _ _ _ (fun r h =>
                 grouped_op_run g r date_col group_cols value_col new_col h)).
      now rewrite call_on_copy.
  - rewrite add_total_sales_last_ramadan_run in H.
    destruct (on_copy_then_heap _ _ _ _ _ H)
      as (d & d2 & out & Hd & HF & -> & ->).
    exists d, [d2; out], out. repeat split; auto.
    + apply nth_error_app_r2.
    + rewrite (call_ext _ _ _ (fun r h =>
                 add_total_sales_last_ramadan_run r date_col group_cols value_col
                   new_col ranges h)).
      rewrite call_on_copy_then, HF. reflexivity.
Qed.

(** *** Appending a column *)

Lemma firstn_set_nth j v row : firstn j (set_nth j v row) = firstn j row.
Proof.
  revert row. induction j as [|j IH]; intros [|x row]; simpl; try reflexivity.
  now rewrite IH.
Qed.

Lemma firstn_app_exact {A} (l l' : list A) n :
  length l = n -> firstn n (l ++ l') = l.
Proof.
  intros <-. rewrite firstn_app, Nat.sub_diag, firstn_all. simpl.
  apply app_nil_r.
Qed.

Lemma map_firstn_zip_app n (rs : list (list Cell)) : forall (s : Series),
  length s = length rs ->
  Forall (fun row => length row = n) rs ->
  map (firstn n) (zip_with (fun row v => row ++ [v]) rs s) = rs.
Proof.
  induction rs as [|row rs IH]; intros [|v s] Hl HR; simpl in *;
    try discriminate; try reflexivity.
  inversion HR; subst. rewrite IH by (auto; lia).
  now rewrite firstn_app_exact.
Qed.

Lemma map_firstn_zip_set j (rs : list (list Cell)) : forall (s : Series),
  length s = length rs ->
  map (firstn j) (zip_with (fun row v => set_nth j v row) rs s)
  = map (firstn j) rs.
Proof.
  induction rs as [|row rs IH]; intros [|v s] Hl; simpl in *;
    try discriminate; try reflexivity.
  rewrite IH by lia. now rewrite firstn_set_nth.
Qed.

Lemma set_col_appended d c s out :
  rect d -> ~ In c (columns d) -> set_col d c s = Ok out -> appended d c out.
Proof.
  intros R Hc Hs. pose proof (set_col_length _ _ _ _ Hs) as L.
  unfold set_col in Hs. rewrite L, Nat.eqb_refl in Hs.
  rewrite (col_index_None _ _ Hc) in Hs. injection Hs as <-.
  split; cbn [columns rows]; [reflexivity|].
  now apply map_firstn_zip_app.
Qed.

Lemma set_last_appended d c out s out' :
  ~ In c (columns d) -> appended d c out -> set_col out c s = Ok out' ->
  appended d c out'.
Proof.
  intros Hc [Hcols Hrows] Hs. pose proof (set_col_length _ _ _ _ Hs) as L.
  unfold set_col in Hs. rewrite L, Nat.eqb_refl in Hs.
  rewrite Hcols, (col_index_app_new _ _ Hc) in Hs. injection Hs as <-.
  split; cbn [columns rows]; [reflexivity|].
  now rewrite map_firstn_zip_set.
Qed.

Lemma mark_range_f_set date_col new_col range d out :
  mark_range_f date_col new_col range d = Ok out ->
  exists s, set_col d new_col s = Ok out.
Proof.
  unfold mark_range_f. destruct range as [start end_].
  destruct (get_col d date_col); cbn [rbind]; [|discriminate].
  destruct (to_datetime_str start); cbn [rbind]; [|discriminate].
  destruct (ge_ts _ _); cbn [rbind]; [|discriminate].
  destruct (to_datetime_str end_); cbn [rbind]; [|discriminate].
  destruct (le_ts _ _); cbn [rbind]; [|discriminate].
  destruct (get_col d new_col); cbn [rbind]; [|discriminate].
  eauto.
Qed.

Lemma mark_ranges_f_appended date_col new_col d0 ranges : forall d out,
  ~ In new_col (columns d0) -> appended d0 new_col d ->
  mark_ranges_f date_col new_col ranges d = Ok out ->
  appended d0 new_col out.
Proof.
  induction ranges as [|range ranges IH]; intros d out Hc Ha H; simpl in H.
  - now injection H as <-.
  - destruct (mark_range_f date_col new_col range d) as [d'|] eqn:E;
      cbn [rbind] in H; [|discriminate].
    destruct (mark_range_f_set _ _ _ _ _ E) as [s Hs].
    apply (IH d' out Hc); [|assumption].
    now apply (set_last_appended d0 new_col d s d').
Qed.

(** A calendar operation that returns has appended its column to the
    converted copy. *)
Lemma calendar_op_f_appended op date_col new_col d out :
  rect d -> ~ In new_col (columns d) ->
  calendar_op_f op date_col new_col d = Ok out ->
  exists d1, convert_dates_f date_col d = Ok d1 /\ appended d1 new_col out.
Proof.
  intros R Hc H.
  assert (Hcal : forall feature,
             calendar_f feature date_col new_col d = Ok out ->
             exists d1, convert_dates_f date_col d = Ok d1
                        /\ appended d1 new_col out).
  { intros feature Hf. unfold calendar_f in Hf.
    destruct (convert_dates_f date_col d) as [d1|] eqn:E1; cbn [rbind] in Hf;
      [|discriminate].
    destruct (get_col d1 date_col) as [dates|]; cbn [rbind] in Hf; [|discriminate].
    destruct (feature dates) as [s|]; cbn [rbind] in Hf; [|discriminate].
    exists d1. split; [reflexivity|].
    apply (set_col_appended d1 new_col s out); [| |assumption].
    - now apply (convert_dates_rect _ _ _ E1).
    - now rewrite (convert_dates_columns _ _ _ E1). }
  destruct op; try (apply (Hcal _ H)).
  cbn [calendar_op_f] in H. unfold range_feature_f in H.
  destruct (convert_dates_f date_col d) as [d1|] eqn:E1; cbn [rbind] in H;
    [|discriminate].
  destruct (set_col d1 new_col _) as [d2|] eqn:E2; cbn [rbind] in H;
    [|discriminate].
  exists d1. split; [reflexivity|].
  assert (Hc1 : ~ In new_col (columns d1))
    by now rewrite (convert_dates_columns _ _ _ E1).
  apply (mark_ranges_f_appended date_col new_col d1 (holiday_ranges hol) d2 out
           Hc1); [|assumption].
  eapply (set_col_appended d1 new_col); [| assumption | exact E2].
  now apply (convert_dates_rect _ _ _ E1).
Qed.

Lemma astype_int_Ok s : existsb is_nan s = false -> astype_int s = Ok s.
Proof.
  unfold astype_int. induction s as [|c s IH]; simpl; [reflexivity|].
  intros H. apply orb_false_iff in H. destruct H as [Hc Hs].
  rewrite Hc. cbn [rbind]. now rewrite (IH Hs).
Qed.

Lemma field_known (f : Timestamp -> Z) dates :
  Forall is_date dates -> existsb is_nan dates = false ->
  existsb is_nan (map (fun c => of_field (option_map f (date_of c))) dates)
  = false.
Proof.
  induction 1 as [|c dates Hc _ IH]; simpl; [reflexivity|].
  intros H. apply orb_false_iff in H. destruct H as [Hn Hs].
  rewrite (IH Hs). destruct c; simpl in *; try discriminate; try contradiction.
  reflexivity.
Qed.

(** A calendar operation returns on a table whose dates can be
    converted. *)
Lemma calendar_op_f_Ok op date_col new_col d dates :
  rect d -> ~ In new_col (columns d) ->
  rbind (get_col d date_col) to_datetime = Ok dates ->
  (needs_dates op = true -> existsb is_nan dates = false) ->
  exists out, calendar_op_f op date_col new_col d = Ok out.
Proof.
  intros R Hc Hd Hn.
  assert (Hdates : Forall is_date dates).
  { destruct (get_col d date_col); cbn [rbind] in Hd; [|discriminate].
    now apply (to_datetime_is_date _ _ Hd). }
  assert (Hcal : forall feature s,
             feature dates = Ok s -> length s = length dates ->
             exists out, calendar_f feature date_col new_col d = Ok out).
  { intros feature s Hf Hl.
    destruct (calendar_f_spec feature date_col new_col d dates s R Hd Hf Hl)
      as (d1 & out & _ & Ho & _). now exists out. }
  destruct op; cbn [calendar_op_f calendar_feature];
    try (eapply Hcal; [reflexivity | apply length_map]).
  - apply (Hcal _ (map iso_week dates)); [|apply length_map].
    apply astype_int_Ok. unfold iso_week.
    apply (field_known (fun t => Calendar.iso_week_of_days (ts_days t)));
      auto.
  - apply (Hcal _ (map (fun c => of_field (option_map ts_month (date_of c))) dates));
      [|apply length_map].
    apply astype_int_Ok. apply field_known; auto.
  - assert (Hne : new_col <> date_col).
    { intros ->. apply Hc.
      destruct (get_col d date_col) as [s|] eqn:Hs; cbn [rbind] in Hd;
        [|discriminate]. now apply (get_col_In _ _ s). }
    destruct (range_feature_spec _ _ date_col new_col d dates
                (holiday_ranges_parse hol) R Hne Hd) as (out & Ho & _).
    now exists out.
Qed.

(** * Claim on the frame of the operations *)

Lemma map_firstn_snoc n (f : list Cell -> Cell) (rs : list (list Cell)) :
  Forall (fun row => length row = n) rs ->
  map (firstn n) (map (fun row => row ++ [f row]) rs) = rs.
Proof.
  induction 1 as [|row rs Hrow _ IH]; simpl; [reflexivity|].
  now rewrite IH, firstn_app_exact.
Qed.

(** C10, as amended.  Each of the thirteen calendar features and of the
    eight grouped features works on a copy: the frames stored before the
    call are unchanged, and the frame returned is a new one.  When the
    output name is not yet a column of the input (and, for the Ramadan
    total, the input is a non-empty table of observations with no column
    named [year] or [ramadan_year]), the operation returns, its columns
    are those of the input followed by the output column, and under them
    are the rows of the input with the dates converted to timestamps: in
    the input order, or permuted for the grouped transforms, which sort
    their copy. *)
Theorem feature_ops_append_to_copy
    (op : FeatureOp) (date_col new_col : string) :
  (forall r h r' h',
      feature_op op r date_col new_col h = Ok (r', h') ->
      exists d extra out,
        nth_error h r = Some d
        /\ h' = h ++ extra
        /\ (length h <= r')%nat
        /\ nth_error h' r' = Some out
        /\ call (fun r => feature_op op r date_col new_col) d = Ok out)
  /\ (forall d,
        feature_ready op d date_col new_col ->
        exists out d1,
          call (fun r => feature_op op r date_col new_col) d = Ok out
          /\ convert_dates_f date_col d = Ok d1
          /\ (forall c, c <> date_col -> get_col d1 c = get_col d c)
          /\ columns out = columns d ++ [new_col]
          /\ Permutation (rows d1)
                         (map (firstn (length (columns d))) (rows out))
          /\ (keeps_order op = true ->
              map (firstn (length (columns d))) (rows out) = rows d1)).
Proof.
  split; [intros r h r' h'; apply feature_op_heap|].
  intros d [Hnew Hready].
  destruct op as [c|g group_cols value_col|group_cols value_col ranges];
    cbn [feature_op keeps_order].
  - destruct Hready as (R & dates & Hd & Hn).
    destruct (calendar_op_f_Ok c date_col new_col d dates R Hnew Hd Hn)
      as [out Ho].
    destruct (calendar_op_f_appended c date_col new_col d out R Hnew Ho)
      as (d1 & Hc & Hcols & Hrows).
    pose proof (convert_dates_columns _ _ _ Hc) as C1.
    exists out, d1. rewrite <- C1, Hrows. repeat split; auto.
    + rewrite (call_ext _ _ _ (fun r h => calendar_op_run c r date_col new_col h)).
      now rewrite call_on_copy.
    + intros c' Hne. now apply (convert_dates_other _ _ _ Hc).
  - destruct (obs_sorted _ _ _ _ Hready)
      as (d1 & d2 & j & gi & Hc & R1 & C1 & Hs & R2 & Hj & Hgi & Hnum & Hg).
    destruct (grouped_agg_spec g (map (key_of d2 group_cols) (rows d2))
                (map (cell d2 value_col) (rows d2)))
      as (s & Ha & Hl & _); [now rewrite !length_map | exact Hnum |].
    destruct (set_col_Ok d2 new_col s) as [out Ho].
    { rewrite Hl. apply length_map. }
    pose proof (sort_values_columns _ _ _ Hs) as C2.
    destruct (set_col_appended d2 new_col s out R2) as [Hcols Hrows];
      [now rewrite C2, C1 | assumption |].
    exists out, d1. rewrite <- C1, <- C2, Hrows, Hcols.
    repeat split; auto.
    + rewrite (call_ext _ _ _ (fun r h =>
                 grouped_op_run g r date_col group_cols value_col new_col h)).
      rewrite call_on_copy. unfold grouped_f.
      rewrite Hc. simpl. rewrite Hs. simpl. rewrite Hg. simpl.
      rewrite Ha. simpl. exact Ho.
    + intros c' Hne.
      apply (convert_dates_other _ _ _ Hc); [|assumption].
      now apply (obs_rect _ _ _ _ Hready).
    + symmetry. apply (sort_values_perm _ _ _ Hs).
    + discriminate.
  - destruct Hready as (Hobs & Hfree & Hrows_ne & Hne & table & Hp).
    destruct (total_ramadan_f_spec _ _ _ _ _ _ _ Hobs Hfree Hne Hp)
      as (d1 & d2 & out & Hc & R1 & C1 & Hrun & Hrows & Hcols).
    assert (Hfirst : map (firstn (length (columns d))) (rows out) = rows d1).
    { rewrite Hrows, <- C1. apply map_firstn_snoc. exact R1. }
    exists out, d1. rewrite Hfirst. repeat split; auto.
    + rewrite (call_ext _ _ _ (fun r h =>
                 add_total_sales_last_ramadan_run r date_col group_cols value_col
                   new_col ranges h)).
      rewrite call_on_copy_then, Hrun. reflexivity.
    + intros c' Hne'.
      apply (convert_dates_other _ _ _ Hc); [|assumption].
      now apply (obs_rect _ _ _ _ Hobs).
Qed.

Lemma feature_ops_append_to_copy_witness :
  feature_ready (CalendarFeature DayOfWeek) fx_sales "Date" "day_of_week"
  /\ exists out,
       call (fun r => feature_op (CalendarFeature DayOfWeek) r "Date" "day_of_week")
            fx_sales = Ok out
       /\ columns out = ["Date"; "Net Amount"; "day_of_week"].
Proof.
  assert (Hready : feature_ready (CalendarFeature DayOfWeek) fx_sales
                                 "Date" "day_of_week").
  { split; [simpl; intuition discriminate|].
    split; [repeat constructor|].
    eexists. split; [reflexivity | discriminate]. }
  split; [exact Hready|].
  destruct (proj2 (feature_ops_append_to_copy (CalendarFeature DayOfWeek)
                     "Date" "day_of_week") fx_sales Hready)
    as (out & d1 & Hcall & _ & _ & Hcols & _).
  exists out. split; [exact Hcall | exact Hcols].
Defined.

(** C10 as stated fails on a table that already has a column of the
    output name: [add_day_of_week_feature] replaces the cells of that
    column and adds none.  It also fails for the Ramadan total on a
    table with a column named [year], which the result no longer has. *)
Lemma feature_overwrites_named_column :
  exists out out',
    call (fun r => add_day_of_week_feature r "Date" "day_of_week")
         labelled_table = Ok out
    /\ columns out = columns labelled_table
    /\ get_col labelled_table "day_of_week" = Ok [Str "opening day"]
    /\ get_col out "day_of_week" = Ok [Str "Monday"]
    /\ call (fun r => add_total_sales_last_ramadan r "Date"
                        ["Store No_"; "Item No_"] "Net Amount"
                        "total_sales_last_ramadan" None)
            fiscal_table = Ok out'
    /\ In "year" (columns fiscal_table)
    /\ ~ In "year" (columns out').
Proof.
  eexists. eexists.
  split; [vm_compute; reflexivity|].
  split; [reflexivity|].
  split; [reflexivity|].
  split; [reflexivity|].
  split; [vm_compute; reflexivity|].
  split; [simpl; tauto|].
  simpl. intuition discriminate.
Qed.

(** * Further properties of the calendar features *)








(** *** Chaining calendar features *)









(** * The calendar features row by row *)















(** *** The moving holidays *)










(** * Further properties of the grouped features *)






(** * Further properties of the FX join *)

Lemma joined_rows_rates lf fx1 date_col fxd fxc :
  map (fun e => (cell lf date_col (fst e), snd e))
      (joined_rows lf fx1 date_col fxd fxc)
  = joined_rates lf fx1 date_col fxd fxc.
Proof.
  unfold joined_rows, joined_rates. rewrite map_flat_map.
  apply flat_map_ext_in. intros l _.
  destruct (fx_matches fx1 fxd fxc (cell lf date_col l)) as [|r rs];
    [reflexivity|].
  cbn [map fst snd]. f_equal. now rewrite map_map.
Qed.



Section FxFrame.
Variables (tx fx1 : DataFrame) (date_col fxd fxc nc : string)
          (jd fd fc : nat).
Hypothesis Rtx : rect tx.
Hypothesis Rfx : rect fx1.
Hypothesis Hjd : col_index date_col (columns tx) = Some jd.
Hypothesis Hfd : col_index fxd (columns fx1) = Some fd.
Hypothesis Hfc : col_index fxc (columns fx1) = Some fc.
Hypothesis Hcd : fxc <> fxd.
Hypothesis Hnd : nc <> fxd.
Hypothesis Hfxc : ~ In fxc (columns tx).
Hypothesis Hnc : ~ In nc (columns tx).
Hypothesis Hfxd : fxd = date_col \/ ~ In fxd (columns tx).

Let J := joined_rows tx fx1 date_col fxd fxc.





End FxFrame.















(** * maco_economic.py: the inflation join *)

(** *** Statements on a frame anywhere in the store *)





Section StoreAt.
Variables (n : ref) (heap : Heap) (d : DataFrame).
Hypothesis Hn : nth_error heap n = Some d.









End StoreAt.



(** *** The month column and the join on it *)


Section MonthJoin.
Variables (d1 i1 : DataFrame) (date_col idc icol : string) (jd fd fc : nat).
Hypothesis Rd : rect d1.
Hypothesis Ri : rect i1.
Hypothesis Hjd : col_index date_col (columns d1) = Some jd.
Hypothesis Hfd : col_index idc (columns i1) = Some fd.
Hypothesis Hfc : col_index icol (columns i1) = Some fc.
Hypothesis Hymd : ~ In "year_month" (columns d1).
Hypothesis Hymi : ~ In "year_month" (columns i1).

Let d2 := mkFrame (columns d1 ++ ["year_month"])
            (map (fun l => l ++ [to_period_month (cell_at jd l)]) (rows d1)).
Let i2 := mkFrame (columns i1 ++ ["year_month"])
            (map (fun m => m ++ [to_period_month (cell_at fd m)]) (rows i1)).




End MonthJoin.











(** * stocks.py *)







(** *** The join with the stock table *)










(** *** The safety stock threshold *)










(** * The features that read the calendar day *)






(** * Rows that belong to no group *)







(** * The years of the default Ramadan ranges *)






(** * Grouped features in sequence *)

















